(** * shared_mutex_cpp: a benchmark of std::shared_mutex against std::mutex

    A shallow embedding of [main.cpp]: the random payload generator, the
    shared record, the two lock disciplines run by [LockTester] (as an
    interleaving machine whose scheduler is an input), the [Benchmark]
    driver and its table printer (over a model of the formatting state of
    [std::cout]). *)

From Stdlib Require Import ZArith String Ascii List Lia DecimalString.
From stdpp Require Import base option list strings numbers.

Local Open Scope Z_scope.

(** ** Machine integers *)

Definition INT_MAX : Z := 2 ^ 31 - 1.
Definition INT_MIN : Z := - 2 ^ 31.

(** Two's complement reduction of a mathematical integer to [int]. *)
Definition wrap_int (x : Z) : Z := (x + 2 ^ 31) mod 2 ^ 32 - 2 ^ 31.

(** [static_cast<int>(n)] of a [size_t]. *)
Definition static_cast_int (n : nat) : Z := wrap_int (Z.of_nat n).

(** [std::to_string] of an integer, which is also what [operator<<] prints
    for an [int] under the default flags: decimal digits, a leading minus
    sign for negative values. *)
Definition to_string (v : Z) : string := NilZero.string_of_int (Z.to_int v).

(** ** std::string

    What [generate] uses of its string, besides appending: the library's
    [reserve], as libstdc++ has it where [size_t] has 64 bits. *)

Module basic_string.

(** The capacity of a new string, held in the object itself. *)
Definition local_capacity : N := 15%N.

(** [max_size()], the longest string the library accepts: [2^62 - 1]. *)
Definition max_size : N := (2 ^ 62 - 1)%N.

(** [s.reserve(n)] on a new string; [allocate n] tells whether the
    allocator grants the storage of [n] characters. Nothing happens when
    [n] is within the capacity; above [max_size()] the call throws
    [std::length_error]; in between it allocates, and throws
    [std::bad_alloc] when the allocator refuses. A throw is [None]. *)
Definition reserve (allocate : N -> bool) (n : N) : option unit :=
  if (n <=? local_capacity)%N then Some tt
  else if (n <=? max_size)%N then (if allocate n then Some tt else None)
  else None.

(** An allocator that never refuses. *)
Definition granted : N -> bool := fun _ => true.

End basic_string.

(** ** RandomStringGenerator *)

Module RandomStringGenerator.

(** The array [charset]: 62 characters and the terminating NUL. *)
Definition charset : list ascii :=
  list_ascii_of_string
    "abcdefghijklmnopqrstuvwxyzABCDEFGHIJKLMNOPQRSTUVWXYZ0123456789"
  ++ [Ascii.zero].

(** [sizeof(charset) - 1]. *)
Definition charsetSize : Z := Z.of_nat (length charset) - 1.

(** [charset[k]]; an index outside the array reads as NUL here. *)
Definition charset_at (k : Z) : ascii :=
  if 0 <=? k then nth (Z.to_nat k) charset Ascii.zero else Ascii.zero.

(** The 62 characters a payload may contain. *)
Definition alphabet : list ascii := take 62 charset.

Section Generator.
(** State of the thread-local [std::mt19937]. *)
Variable G : Type.
(** [distribution a b g] is one call [distribution(generator)] of a
    [std::uniform_int_distribution<>(a, b)]: the drawn number and the
    engine afterwards. *)
Variable distribution : Z -> Z -> G -> Z * G.
(** Whether the allocator grants a string of that many characters. *)
Variable allocate : N -> bool.

(** One turn of the loop of [generate]. The string under construction is
    kept last character first, so that [+=] is a cons. *)
Definition draw (acc : list ascii * G) : list ascii * G :=
  let '(randomString, generator) := acc in
  let '(k, generator') := distribution 0 (charsetSize - 1) generator in
  (charset_at k :: randomString, generator').

(** The characters of a buffer in the order they were appended. *)
Definition contents (randomString : list ascii) : string :=
  fold_left (fun s c => String c s) randomString EmptyString.

(** The loop of [generate]: [length] turns, the string and the engine
    afterwards. *)
Definition loop (length : N) (generator : G) : string * G :=
  let '(randomString, generator') := N.iter length draw ([], generator) in
  (contents randomString, generator').

(** [generate(length)] on the calling thread's engine, [length] a
    [size_t]: the string is reserved, then filled by the loop. The result
    is [None] when [reserve] throws. *)
Definition generate (length : N) (generator : G) : option (string * G) :=
  basic_string.reserve allocate length;;
  Some (loop length generator).
End Generator.

End RandomStringGenerator.

(** ** SharedData *)

Record SharedData := { counter : Z; text : string }.

(** ** The two locks *)

(** [std::mutex]: locked or not. [lock] blocks (no step) while locked. *)
Module mutex.
Definition t := bool.
Definition unlocked : t := false.
Definition lock (m : t) : option t := if m then None else Some true.
Definition unlock (m : t) : t := false.
End mutex.

(** [std::shared_mutex]: one exclusive holder or any number of shared
    holders. *)
Module shared_mutex.
Record t := { writer : bool; readers : nat }.
Definition unlocked : t := {| writer := false; readers := O |}.
Definition lock (m : t) : option t :=
  if negb (writer m) && Nat.eqb (readers m) 0
  then Some {| writer := true; readers := readers m |} else None.
Definition unlock (m : t) : t := {| writer := false; readers := readers m |}.
Definition lock_shared (m : t) : option t :=
  if writer m then None else Some {| writer := false; readers := S (readers m) |}.
Definition unlock_shared (m : t) : t :=
  {| writer := writer m; readers := Nat.pred (readers m) |}.
End shared_mutex.

(** ** std::map<std::string, long long>

    Kept as an association list in increasing key order, the order in
    which a [std::map] is iterated. *)

Definition times_map := list (string * Z).

(** [m[k] = v]. *)
Fixpoint map_assign (k : string) (v : Z) (m : times_map) : times_map :=
  match m with
  | [] => [(k, v)]
  | (k', v') :: m' =>
      match String.compare k k' with
      | Lt => (k, v) :: m
      | Eq => (k, v) :: m'
      | Gt => (k', v') :: map_assign k v m'
      end
  end.

(** [m.find(k)], [None] for [m.end()]. *)
Fixpoint map_find (k : string) (m : times_map) : option Z :=
  match m with
  | [] => None
  | (k', v') :: m' => if String.eqb k k' then Some v' else map_find k m'
  end.

(** ** LockTester *)

Module LockTester.

(** The object: its public members, then the private record and the two
    locks. *)
Record t := {
  times : times_map;
  numReaders : Z;
  numWriters : Z;
  numReads : Z;
  numUpdates : Z;
  sharedData : SharedData;
  sharedMutex : shared_mutex.t;
  standardMutex : mutex.t
}.

(** The constructor stores its four arguments; the record starts with
    [counter = 0] and an empty text, the map empty, the locks free. *)
Definition new (numReaders numWriters numReads numUpdates : Z) : t :=
  {| times := [];
     numReaders := numReaders; numWriters := numWriters;
     numReads := numReads; numUpdates := numUpdates;
     sharedData := {| counter := 0; text := EmptyString |};
     sharedMutex := shared_mutex.unlocked;
     standardMutex := mutex.unlocked |}.

Definition with_times (m : times_map) (o : t) : t :=
  {| times := m;
     numReaders := numReaders o; numWriters := numWriters o;
     numReads := numReads o; numUpdates := numUpdates o;
     sharedData := sharedData o;
     sharedMutex := sharedMutex o; standardMutex := standardMutex o |}.

Definition with_sharedData (d : SharedData) (o : t) : t :=
  {| times := times o;
     numReaders := numReaders o; numWriters := numWriters o;
     numReads := numReads o; numUpdates := numUpdates o;
     sharedData := d;
     sharedMutex := sharedMutex o; standardMutex := standardMutex o |}.

Definition with_sharedMutex (m : shared_mutex.t) (o : t) : t :=
  {| times := times o;
     numReaders := numReaders o; numWriters := numWriters o;
     numReads := numReads o; numUpdates := numUpdates o;
     sharedData := sharedData o;
     sharedMutex := m; standardMutex := standardMutex o |}.

Definition with_standardMutex (m : mutex.t) (o : t) : t :=
  {| times := times o;
     numReaders := numReaders o; numWriters := numWriters o;
     numReads := numReads o; numUpdates := numUpdates o;
     sharedData := sharedData o;
     sharedMutex := sharedMutex o; standardMutex := m |}.

(** Which of the two tests is running. *)
Inductive strategy := SharedMutex | StandardMutex.

(** The key under which a test stores its time. *)
Definition time_key (st : strategy) : string :=
  match st with
  | SharedMutex => "Shared Mutex Time"
  | StandardMutex => "Standard Mutex Time"
  end.

(** Length of the payload a writer generates. *)
Definition payload_length : N := 100000%N.

(** [duration_cast<milliseconds>] of a difference of two readings of the
    clock, which counts nanoseconds: division truncating towards zero. *)
Definition duration_ms (d : Z) : Z := Z.quot d 1000000.

(** *** Threads

    Control points of a reader thread: [i] is the loop variable.
    [RLoop i] tests [i < numReads] and takes the lock; the two reads
    follow; [RUnlock i] is the end of the block, where the guard is
    destroyed and [++i] runs. *)
Inductive reader_pc :=
| RLoop (i : Z)
| RReadCounter (i : Z)
| RReadText (i : Z)
| RUnlock (i : Z)
| RDone.

(** Control points of a writer thread. [counter++] is a load followed by
    a store: [WStoreCounter i tmp] holds the loaded value. *)
Inductive writer_pc :=
| WLoop (i : Z)
| WLoadCounter (i : Z)
| WStoreCounter (i tmp : Z)
| WSetText (i : Z)
| WUnlock (i : Z)
| WDone.

(** Control points of the thread that runs a test: the two spawning
    loops, the two joining loops, the final reading of the clock. *)
Inductive main_pc :=
| MStart
| MSpawnReaders (i : Z)
| MSpawnWriters (i : Z)
| MJoinReaders (k : nat)
| MJoinWriters (k : nat)
| MEnd
| MFinished.

(** Who takes the next step. *)
Inductive who := Main | Reader (k : nat) | Writer (k : nat).

Definition reader_in_cs (r : reader_pc) : bool :=
  match r with
  | RReadCounter _ | RReadText _ | RUnlock _ => true
  | RLoop _ | RDone => false
  end.

Definition writer_pc_in_cs (p : writer_pc) : bool :=
  match p with
  | WLoadCounter _ | WStoreCounter _ _ | WSetText _ | WUnlock _ => true
  | WLoop _ | WDone => false
  end.

(** One step of [readerSharedLock] on the object: [None] when the thread
    is blocked or has returned. The loop variable stays below
    [numReads], so [++i] does not overflow. *)
Definition readerSharedLock (this : t) (r : reader_pc) : option (t * reader_pc) :=
  match r with
  | RLoop i =>
      if i <? numReads this then
        m ← shared_mutex.lock_shared (sharedMutex this);
        Some (with_sharedMutex m this, RReadCounter i)
      else Some (this, RDone)
  | RReadCounter i => Some (this, RReadText i)
  | RReadText i => Some (this, RUnlock i)
  | RUnlock i =>
      Some (with_sharedMutex (shared_mutex.unlock_shared (sharedMutex this)) this,
            RLoop (i + 1))
  | RDone => None
  end.

(** One step of [readerStandardLock]. *)
Definition readerStandardLock (this : t) (r : reader_pc) : option (t * reader_pc) :=
  match r with
  | RLoop i =>
      if i <? numReads this then
        m ← mutex.lock (standardMutex this);
        Some (with_standardMutex m this, RReadCounter i)
      else Some (this, RDone)
  | RReadCounter i => Some (this, RReadText i)
  | RReadText i => Some (this, RUnlock i)
  | RUnlock i =>
      Some (with_standardMutex (mutex.unlock (standardMutex this)) this,
            RLoop (i + 1))
  | RDone => None
  end.

Section Machine.
Variable G : Type.
Variable distribution : Z -> Z -> G -> Z * G.

(** A writer thread: its control point and its thread-local engine. *)
Record writer := { wpc : writer_pc; generator : G }.

Definition writer_in_cs (w : writer) : bool := writer_pc_in_cs (wpc w).

(** The part of a writer's loop body between taking and releasing the
    lock, which is the same in both writer functions. The tests are run
    with the memory for their payloads; were [generate] to throw, the
    thread would have no further step. *)
Definition writer_body (this : t) (w : writer) : option (t * writer) :=
  match wpc w with
  | WLoadCounter i =>
      Some (this, {| wpc := WStoreCounter i (counter (sharedData this));
                     generator := generator w |})
  | WStoreCounter i tmp =>
      Some (with_sharedData {| counter := wrap_int (tmp + 1);
                               text := text (sharedData this) |} this,
            {| wpc := WSetText i; generator := generator w |})
  | WSetText i =>
      '(payload, g) ←
        RandomStringGenerator.generate G distribution basic_string.granted
          payload_length (generator w);
      Some (with_sharedData {| counter := counter (sharedData this);
                               text := payload |} this,
            {| wpc := WUnlock i; generator := g |})
  | _ => None
  end.

(** One step of [writerSharedLock]. *)
Definition writerSharedLock (this : t) (w : writer) : option (t * writer) :=
  match wpc w with
  | WLoop i =>
      if i <? numUpdates this then
        m ← shared_mutex.lock (sharedMutex this);
        Some (with_sharedMutex m this,
              {| wpc := WLoadCounter i; generator := generator w |})
      else Some (this, {| wpc := WDone; generator := generator w |})
  | WUnlock i =>
      Some (with_sharedMutex (shared_mutex.unlock (sharedMutex this)) this,
            {| wpc := WLoop (i + 1); generator := generator w |})
  | WDone => None
  | _ => writer_body this w
  end.

(** One step of [writerStandardLock]. *)
Definition writerStandardLock (this : t) (w : writer) : option (t * writer) :=
  match wpc w with
  | WLoop i =>
      if i <? numUpdates this then
        m ← mutex.lock (standardMutex this);
        Some (with_standardMutex m this,
              {| wpc := WLoadCounter i; generator := generator w |})
      else Some (this, {| wpc := WDone; generator := generator w |})
  | WUnlock i =>
      Some (with_standardMutex (mutex.unlock (standardMutex this)) this,
            {| wpc := WLoop (i + 1); generator := generator w |})
  | WDone => None
  | _ => writer_body this w
  end.

(** What a test does not decide itself: the engine each writer thread
    gets when it first seeds itself from [std::random_device], and the
    reading of the clock (in nanoseconds) at each step of the run. *)
Record env := { seed : nat -> G; now : nat -> Z }.

(** The state of a running test: the object, the control point and the
    locals of the thread that called it ([start], and the two vectors
    of threads, each thread given by its own state), and the number of
    steps taken so far. *)
Record run_state := {
  this : t;
  pc : main_pc;
  start : Z;
  readers : list reader_pc;
  writers : list writer;
  ticks : nat
}.

Definition init (o : t) : run_state :=
  {| this := o; pc := MStart; start := 0; readers := []; writers := [];
     ticks := O |}.

Definition goto (p : main_pc) (s : run_state) : run_state :=
  {| this := this s; pc := p; start := start s;
     readers := readers s; writers := writers s; ticks := ticks s |}.

(** The function a reader, a writer thread of the test runs. *)
Definition reader_fn (st : strategy) : t -> reader_pc -> option (t * reader_pc) :=
  match st with
  | SharedMutex => readerSharedLock
  | StandardMutex => readerStandardLock
  end.

Definition writer_fn (st : strategy) : t -> writer -> option (t * writer) :=
  match st with
  | SharedMutex => writerSharedLock
  | StandardMutex => writerStandardLock
  end.

(** One step of the body of [testSharedMutex] or [testStandardMutex]
    (they differ in the thread functions and in the key). A [join] of a
    thread that has not returned is blocked. *)
Definition main_step (st : strategy) (e : env) (s : run_state) : option run_state :=
  match pc s with
  | MStart =>
      Some {| this := this s; pc := MSpawnReaders 0; start := now e (ticks s);
              readers := readers s; writers := writers s; ticks := ticks s |}
  | MSpawnReaders i =>
      if i <? numReaders (this s) then
        Some {| this := this s; pc := MSpawnReaders (i + 1); start := start s;
                readers := readers s ++ [RLoop 0]; writers := writers s;
                ticks := ticks s |}
      else Some (goto (MSpawnWriters 0) s)
  | MSpawnWriters i =>
      if i <? numWriters (this s) then
        Some {| this := this s; pc := MSpawnWriters (i + 1); start := start s;
                readers := readers s;
                writers := writers s ++
                  [{| wpc := WLoop 0; generator := seed e (length (writers s)) |}];
                ticks := ticks s |}
      else Some (goto (MJoinReaders O) s)
  | MJoinReaders k =>
      match readers s !! k with
      | None => Some (goto (MJoinWriters O) s)
      | Some RDone => Some (goto (MJoinReaders (S k)) s)
      | Some _ => None
      end
  | MJoinWriters k =>
      match wpc <$> writers s !! k with
      | None => Some (goto MEnd s)
      | Some WDone => Some (goto (MJoinWriters (S k)) s)
      | Some _ => None
      end
  | MEnd =>
      let end_ := now e (ticks s) in
      Some {| this := with_times
                        (map_assign (time_key st) (duration_ms (end_ - start s))
                                    (times (this s)))
                        (this s);
              pc := MFinished; start := start s;
              readers := readers s; writers := writers s; ticks := ticks s |}
  | MFinished => None
  end.

(** One step of the whole run, taken by [w]; [None] when [w] cannot
    move (blocked, returned, or not spawned yet). *)
Definition step (st : strategy) (e : env) (w : who) (s : run_state) : option run_state :=
  s' ← match w with
       | Main => main_step st e s
       | Reader k =>
           r ← readers s !! k;
           '(o, r') ← reader_fn st (this s) r;
           Some {| this := o; pc := pc s; start := start s;
                   readers := <[k := r']> (readers s); writers := writers s;
                   ticks := ticks s |}
       | Writer k =>
           w ← writers s !! k;
           '(o, w') ← writer_fn st (this s) w;
           Some {| this := o; pc := pc s; start := start s;
                   readers := readers s; writers := <[k := w']> (writers s);
                   ticks := ticks s |}
       end;
  Some {| this := this s'; pc := pc s'; start := start s';
          readers := readers s'; writers := writers s'; ticks := S (ticks s') |}.

(** A schedule is the sequence of the threads that move. *)
Fixpoint exec (st : strategy) (e : env) (sched : list who) (s : run_state)
  : option run_state :=
  match sched with
  | [] => Some s
  | w :: sched' => s' ← step st e w s; exec st e sched' s'
  end.

Definition finished (s : run_state) : bool :=
  match pc s with MFinished => true | _ => false end.

(** A call of a test under a schedule: the object as the call leaves
    it, when the schedule takes the call to its return. *)
Definition test (st : strategy) (e : env) (sched : list who) (o : t) : option t :=
  s ← exec st e sched (init o);
  if finished s then Some (this s) else None.

Definition testSharedMutex := test SharedMutex.
Definition testStandardMutex := test StandardMutex.

End Machine.

Arguments wpc {G} _.
Arguments generator {G} _.
Arguments seed {G} _ _.
Arguments now {G} _ _.
Arguments this {G} _.
Arguments pc {G} _.
Arguments start {G} _.
Arguments readers {G} _.
Arguments writers {G} _.
Arguments ticks {G} _.
Arguments init {G} _.
Arguments writer_in_cs {G} _.
Arguments finished {G} _.
Arguments step {G} _ _ _ _ _.
Arguments exec {G} _ _ _ _ _.
Arguments test {G} _ _ _ _ _.
Arguments testSharedMutex {G} _ _ _ _.
Arguments testStandardMutex {G} _ _ _ _.

End LockTester.

(** The payload is never unfolded by simplification. *)
Opaque LockTester.payload_length.


(** ** std::cout

    The part of an output stream the program uses: the characters written
    so far, the field width (reset by every formatted output) and the fill
    character (kept until changed). Padding goes to the left, the default
    adjustment. *)

Module ostream.

Record t := { buf : string; width : Z; fill : ascii }.

Definition cout : t := {| buf := EmptyString; width := 0; fill := " "%char |}.

Definition setw (n : Z) (os : t) : t :=
  {| buf := buf os; width := n; fill := fill os |}.

Definition setfill (c : ascii) (os : t) : t :=
  {| buf := buf os; width := width os; fill := c |}.

Definition pad (w : Z) (c : ascii) (s : string) : string :=
  String.append
    (string_of_list_ascii (repeat c (Z.to_nat (w - Z.of_nat (String.length s)))))
    s.

(** [os << s] for a string. *)
Definition put (s : string) (os : t) : t :=
  {| buf := String.append (buf os) (pad (width os) (fill os) s);
     width := 0; fill := fill os |}.

(** [os << n] for an [int]. *)
Definition put_int (n : Z) (os : t) : t := put (to_string n) os.

(** [os << std::endl]. *)
Definition endl (os : t) : t :=
  {| buf := String.append (buf os) (String "010"%char EmptyString);
     width := width os; fill := fill os |}.

End ostream.

(** ** Benchmark *)

Module Benchmark.

Record Result := {
  times : times_map;
  numReaders : Z;
  numWriters : Z;
  numReads : Z;
  numUpdates : Z
}.

Record t := { testCases : list LockTester.t; results : list Result }.

(** A default-constructed [Benchmark]. *)
Definition new : t := {| testCases := []; results := [] |}.

Definition addTestCase (numReaders numWriters numReads numUpdates : Z) (b : t) : t :=
  {| testCases :=
       testCases b ++ [LockTester.new numReaders numWriters numReads numUpdates];
     results := results b |}.

Section Run.
Variable G : Type.
Variable distribution : Z -> Z -> G -> Z * G.

(** What one call of a test depends on: its environment and its schedule. *)
Definition call : Type := LockTester.env G * list LockTester.who.

(** The body of the loop of [run] for one tester: both tests, then the
    result; [std::move] leaves the tester's own map empty. *)
Definition run_case (shared standard : call) (tester : LockTester.t)
  : option (LockTester.t * Result) :=
  t1 ← LockTester.testSharedMutex distribution (fst shared) (snd shared) tester;
  t2 ← LockTester.testStandardMutex distribution (fst standard) (snd standard) t1;
  let result :=
    {| times := LockTester.times t2;
       numReaders := LockTester.numReaders t2;
       numWriters := LockTester.numWriters t2;
       numReads := LockTester.numReads t2;
       numUpdates := LockTester.numUpdates t2 |} in
  Some (LockTester.with_times [] t2, result).

Fixpoint run_loop (calls : list (call * call)) (testCases : list LockTester.t)
  (results : list Result) {struct testCases}
  : option (list LockTester.t * list Result) :=
  match testCases with
  | [] => Some ([], results)
  | tester :: rest =>
      match calls with
      | [] => None
      | (shared, standard) :: calls' =>
          '(tester', result) ← run_case shared standard tester;
          '(rest', results') ← run_loop calls' rest (results ++ [result]);
          Some (tester' :: rest', results')
      end
  end.

(** [run()], given the two calls of each test case. *)
Definition run (calls : list (call * call)) (b : t) : option t :=
  '(testCases', results') ← run_loop calls (testCases b) (results b);
  Some {| testCases := testCases'; results := results' |}.

End Run.

Arguments run_case {G} _ _ _ _.
Arguments run_loop {G} _ _ _ _.
Arguments run {G} _ _ _.

(** *** printBenchmarkTable *)

(** The keys of [results[0].times], in the order of the map. *)
Definition columns (results : list Result) : list string :=
  match results with
  | [] => []
  | first :: _ => fst <$> times first
  end.

Definition readers_width : Z := Z.max 2 (static_cast_int (String.length "Readers")).
Definition writers_width : Z := Z.max 2 (static_cast_int (String.length "Writers")).
Definition reads_width : Z := Z.max 2 (static_cast_int (String.length "Reads")).
Definition updates_width : Z := Z.max 2 (static_cast_int (String.length "Updates")).

(** The inner loop over [results] for one column: [max_len] starts as the
    length of the header. *)
Definition column_width (results : list Result) (col : string) : Z :=
  fold_left
    (fun max_len result =>
       match map_find col (times result) with
       | Some v =>
           let data_len := static_cast_int (String.length (to_string v)) + 3 in
           Z.max max_len data_len
       | None => max_len
       end)
    results (static_cast_int (String.length col)).

Definition column_widths (results : list Result) (columns : list string) : list Z :=
  column_width results <$> columns.

(** [for (size_t i = 0; i < n; ++i) body(i)]. *)
Definition for_index (n : nat) (body : nat -> ostream.t -> ostream.t)
  (os : ostream.t) : ostream.t :=
  fold_left (fun os i => body i os) (seq 0 n) os.

Local Notation "os <<< op" := (op os) (at level 50, left associativity, only parsing).

(** The lambda [printSeparator], with the two vectors it captures. *)
Definition printSeparator (columns : list string) (column_widths : list Z)
  (os : ostream.t) : ostream.t :=
  os <<< ostream.put "+" <<< ostream.setw (readers_width + 2)
     <<< ostream.setfill "-"%char <<< ostream.put "-"
     <<< ostream.put "+" <<< ostream.setw (writers_width + 2) <<< ostream.put "-"
     <<< ostream.put "+" <<< ostream.setw (reads_width + 2) <<< ostream.put "-"
     <<< ostream.put "+" <<< ostream.setw (updates_width + 2) <<< ostream.put "-"
     <<< for_index (length columns)
           (fun i os =>
              os <<< ostream.put "+"
                 <<< ostream.setw (nth i column_widths 0 + 2) <<< ostream.put "-")
     <<< ostream.put "+" <<< ostream.endl.

Definition printHeader (columns : list string) (column_widths : list Z)
  (os : ostream.t) : ostream.t :=
  os <<< ostream.put "| " <<< ostream.setw readers_width
     <<< ostream.setfill " "%char <<< ostream.put "Readers"
     <<< ostream.put " | " <<< ostream.setw writers_width <<< ostream.put "Writers"
     <<< ostream.put " | " <<< ostream.setw reads_width <<< ostream.put "Reads"
     <<< ostream.put " | " <<< ostream.setw updates_width <<< ostream.put "Updates"
     <<< for_index (length columns)
           (fun i os =>
              os <<< ostream.put " | " <<< ostream.setw (nth i column_widths 0)
                 <<< ostream.put (nth i columns EmptyString))
     <<< ostream.put " |" <<< ostream.endl.

(** The body of the loop that prints one result. *)
Definition printRow (columns : list string) (column_widths : list Z)
  (result : Result) (os : ostream.t) : ostream.t :=
  os <<< ostream.put "| " <<< ostream.setw readers_width
     <<< ostream.setfill " "%char <<< ostream.put_int (numReaders result)
     <<< ostream.put " | " <<< ostream.setw writers_width
     <<< ostream.put_int (numWriters result)
     <<< ostream.put " | " <<< ostream.setw reads_width
     <<< ostream.put_int (numReads result)
     <<< ostream.put " | " <<< ostream.setw updates_width
     <<< ostream.put_int (numUpdates result)
     <<< for_index (length columns)
           (fun i os =>
              match map_find (nth i columns EmptyString) (times result) with
              | Some v =>
                  os <<< ostream.put " | " <<< ostream.setfill " "%char
                     <<< ostream.setw (nth i column_widths 0)
                     <<< ostream.put (String.append (to_string v) " ms")
              | None =>
                  os <<< ostream.put " | " <<< ostream.setfill " "%char
                     <<< ostream.setw (nth i column_widths 0)
                     <<< ostream.put "N/A"
              end)
     <<< ostream.put " |" <<< ostream.endl
     <<< printSeparator columns column_widths.

Definition printBenchmarkTable (b : t) (os : ostream.t) : ostream.t :=
  let columns := columns (results b) in
  let column_widths := column_widths (results b) columns in
  os <<< printSeparator columns column_widths
     <<< printHeader columns column_widths
     <<< printSeparator columns column_widths
     <<< fold_left (fun os result => printRow columns column_widths result os)
           (results b).

End Benchmark.


(** ** A concrete environment

    An engine, a clock and schedules on which the runs can be evaluated. *)

Module Example.

(** A distribution that walks through [a..b] in order, wrapping around. *)
Definition cyclic (a b : Z) (g : Z) : Z * Z :=
  (Z.max a (Z.min b g), if g <? b then g + 1 else a).

(** Writer [k] starts at [k]; the clock advances one millisecond a step. *)
Definition env : LockTester.env Z :=
  {| LockTester.seed := fun k => Z.of_nat k;
     LockTester.now := fun n => Z.of_nat n * 1000000 |}.

(** The same with a clock that is not steady: it goes back one
    millisecond a step. *)
Definition backwards : LockTester.env Z :=
  {| LockTester.seed := fun k => Z.of_nat k;
     LockTester.now := fun n => - (Z.of_nat n * 1000000) |}.

(** An allocator that grants a gigabyte at most. *)
Definition allocator (n : N) : bool := (n <=? 2 ^ 30)%N.

(** An environment whose engines start elsewhere: writer [k] at [k + 7]. *)
Definition later : LockTester.env Z :=
  {| LockTester.seed := fun k => Z.of_nat k + 7;
     LockTester.now := fun n => Z.of_nat n * 1000000 |}.

(** One writer and no reader, [n] updates: the caller starts the clock,
    leaves the first loop, spawns the writer and leaves the second loop;
    the writer runs to its return; the caller joins and stops the clock. *)
Definition one_writer (n : nat) : list LockTester.who :=
  [LockTester.Main; LockTester.Main; LockTester.Main; LockTester.Main]
  ++ repeat (LockTester.Writer 0) (5 * n + 1)
  ++ [LockTester.Main; LockTester.Main; LockTester.Main; LockTester.Main].

(** No thread at all: only the caller moves. *)
Definition no_thread : list LockTester.who := repeat LockTester.Main 6.

(** One reader and one writer, one iteration each, taking turns. *)
Definition interleaved : list LockTester.who :=
  [LockTester.Main; LockTester.Main; LockTester.Main; LockTester.Reader 0;
   LockTester.Main; LockTester.Main; LockTester.Reader 0; LockTester.Reader 0;
   LockTester.Reader 0; LockTester.Writer 0; LockTester.Reader 0;
   LockTester.Writer 0; LockTester.Main; LockTester.Writer 0; LockTester.Main;
   LockTester.Writer 0; LockTester.Writer 0; LockTester.Writer 0;
   LockTester.Main; LockTester.Main; LockTester.Main].

(** The two results of the table in the header comment of [main.cpp]. *)
Definition documented : list Benchmark.Result :=
  [{| Benchmark.times :=
        [("Shared Mutex Time"%string, 1501); ("Standard Mutex Time"%string, 3012)];
      Benchmark.numReaders := 100; Benchmark.numWriters := 5;
      Benchmark.numReads := 10000; Benchmark.numUpdates := 1 |};
   {| Benchmark.times :=
        [("Shared Mutex Time"%string, 1460); ("Standard Mutex Time"%string, 2904)];
      Benchmark.numReaders := 100; Benchmark.numWriters := 5;
      Benchmark.numReads := 10000; Benchmark.numUpdates := 10 |}].

(** A benchmark holding them, and a stream already written to. *)
Definition reported : Benchmark.t :=
  {| Benchmark.testCases := []; Benchmark.results := documented |}.

Definition titled : ostream.t :=
  ostream.setfill "*"%char (ostream.put "Results:" ostream.cout).

End Example.


(** * Properties *)

(** ** Integers, sums over the threads, the map *)

Lemma wrap_int_small (x : Z) : INT_MIN <= x <= INT_MAX -> wrap_int x = x.
Proof.
  unfold wrap_int, INT_MIN, INT_MAX. intros H.
  rewrite Z.mod_small by lia. lia.
Qed.

Lemma wrap_int_succ (x : Z) : wrap_int (wrap_int x + 1) = wrap_int (x + 1).
Proof.
  unfold wrap_int.
  replace ((x + 2 ^ 31) mod 2 ^ 32 - 2 ^ 31 + 1 + 2 ^ 31)
    with ((x + 2 ^ 31) mod 2 ^ 32 + 1) by lia.
  replace (x + 1 + 2 ^ 31) with (x + 2 ^ 31 + 1) by lia.
  rewrite Zplus_mod_idemp_l. reflexivity.
Qed.

Lemma sum_list_with_insert {A} (f : A -> nat) (l : list A) (k : nat) (x y : A) :
  l !! k = Some y ->
  (sum_list_with f (<[k := x]> l) + f y = sum_list_with f l + f x)%nat.
Proof.
  revert k. induction l as [|a l IH]; intros [|k] Hk; simplify_eq/=; try lia.
  specialize (IH _ Hk). lia.
Qed.

Lemma sum_list_with_pos {A} (f : A -> nat) (l : list A) :
  (0 < sum_list_with f l)%nat -> exists k x, l !! k = Some x /\ (0 < f x)%nat.
Proof.
  induction l as [|a l IH]; simpl; [lia|]. intros H.
  destruct (f a) as [|n] eqn:Ha.
  - destruct IH as (k & x & Hk & Hx); [lia|]. exists (S k), x. auto.
  - exists O, a. split; [reflexivity|lia].
Qed.

Lemma sum_list_with_zero {A} (f : A -> nat) (l : list A) (k : nat) (x : A) :
  sum_list_with f l = O -> l !! k = Some x -> f x = O.
Proof.
  intros H Hk. apply list_elem_of_lookup_2 in Hk.
  pose proof (sum_list_with_in _ f _ Hk). lia.
Qed.

Lemma sum_list_with_one {A} (f : A -> nat) (l : list A) (j k : nat) (x y : A) :
  (sum_list_with f l <= 1)%nat -> l !! k = Some x -> (0 < f x)%nat ->
  j <> k -> l !! j = Some y -> f y = O.
Proof.
  revert j k. induction l as [|a l IH]; intros [|j] [|k] H Hk Hx Hjk Hj;
    simplify_eq/=; try lia.
  - pose proof (list_elem_of_lookup_2 _ _ _ Hk) as Hin.
    pose proof (sum_list_with_in _ f _ Hin). lia.
  - pose proof (list_elem_of_lookup_2 _ _ _ Hj) as Hin.
    pose proof (sum_list_with_in _ f _ Hin). lia.
  - apply (IH j k); auto with lia.
Qed.

Lemma sum_list_with_all {A} (f : A -> nat) (l : list A) (n : nat) :
  (forall k x, l !! k = Some x -> f x = n) ->
  sum_list_with f l = (length l * n)%nat.
Proof.
  induction l as [|a l IH]; intros H; simpl; [reflexivity|].
  rewrite (H O a eq_refl), IH; [lia|].
  intros k x Hk. apply (H (S k) x Hk).
Qed.

Lemma String_compare_refl (s : string) : String.compare s s = Eq.
Proof.
  induction s as [|c s IH]; simpl; [reflexivity|].
  unfold Ascii.compare. rewrite N.compare_refl. assumption.
Qed.

Lemma map_find_assign (k : string) (v : Z) (m : times_map) :
  map_find k (map_assign k v m) = Some v.
Proof.
  induction m as [|[k' v'] m IH]; simpl.
  - rewrite String.eqb_refl. reflexivity.
  - destruct (String.compare k k') eqn:E; simpl.
    + rewrite String.eqb_refl. reflexivity.
    + rewrite String.eqb_refl. reflexivity.
    + destruct (String.eqb_spec k k') as [->|_]; [|assumption].
      rewrite String_compare_refl in E. discriminate.
Qed.

(** ** RandomStringGenerator *)

(** Lowercase letter, uppercase letter or digit. *)
Definition alphanumeric (c : ascii) : bool :=
  let n := N_of_ascii c in
  ((97 <=? n) && (n <=? 122) || (65 <=? n) && (n <=? 90)
   || (48 <=? n) && (n <=? 57))%N.

Lemma alphabet_alphanumeric :
  length RandomStringGenerator.alphabet = 62%nat /\
  NoDup RandomStringGenerator.alphabet /\
  forallb alphanumeric RandomStringGenerator.alphabet = true.
Proof.
  split; [reflexivity|]. split; [|reflexivity].
  apply (bool_decide_unpack _). vm_compute. exact I.
Qed.

Lemma charset_at_alphabet (k : Z) :
  0 <= k <= RandomStringGenerator.charsetSize - 1 ->
  RandomStringGenerator.charset_at k ∈ RandomStringGenerator.alphabet.
Proof.
  change (RandomStringGenerator.charsetSize - 1) with 61. intros Hk.
  unfold RandomStringGenerator.charset_at.
  replace (0 <=? k) with true by (symmetry; apply Z.leb_le; lia).
  change RandomStringGenerator.charset
    with (RandomStringGenerator.alphabet ++ [Ascii.zero]).
  assert (Hlen : (Z.to_nat k < length RandomStringGenerator.alphabet)%nat)
    by (change (length RandomStringGenerator.alphabet) with 62%nat; lia).
  rewrite app_nth1 by exact Hlen.
  apply list_elem_of_In, nth_In, Hlen.
Qed.

Lemma contents_chars (randomString : list ascii) (s : string) :
  list_ascii_of_string (fold_left (fun s c => String c s) randomString s)
  = rev_append randomString (list_ascii_of_string s).
Proof.
  revert s. induction randomString as [|c l IH]; intros s; simpl; [reflexivity|].
  rewrite IH. reflexivity.
Qed.

Lemma string_length_chars (s : string) :
  String.length s = length (list_ascii_of_string s).
Proof. induction s; simpl; congruence. Qed.

Section GenerateFacts.
Variable G : Type.
Variable distribution : Z -> Z -> G -> Z * G.
Variable allocate : N -> bool.
(** What the standard promises of [uniform_int_distribution(a, b)]. *)
Hypothesis distribution_range :
  forall a b g, a <= b -> a <= fst (distribution a b g) <= b.

Lemma draw_loop (n : N) (g : G) :
  let acc := N.iter n (RandomStringGenerator.draw G distribution) ([], g) in
  length (fst acc) = N.to_nat n /\
  Forall (fun c => c ∈ RandomStringGenerator.alphabet) (fst acc).
Proof.
  apply (N.iter_ind _ (RandomStringGenerator.draw G distribution) ([], g)
           (fun n acc => length (fst acc) = N.to_nat n /\
              Forall (fun c => c ∈ RandomStringGenerator.alphabet) (fst acc))).
  - split; [reflexivity|constructor].
  - clear n. intros n [randomString generator] [Hlen Hall]. simpl in *.
    pose proof (distribution_range 0 (RandomStringGenerator.charsetSize - 1)
                  generator) as Hk.
    destruct (distribution 0 (RandomStringGenerator.charsetSize - 1) generator)
      as [k generator']. simpl in *. split.
    + rewrite Hlen. lia.
    + constructor; [|assumption].
      apply charset_at_alphabet, Hk. vm_compute. discriminate.
Qed.

Lemma loop_length_chars (n : N) (g : G) :
  String.length (fst (RandomStringGenerator.loop G distribution n g))
  = N.to_nat n /\
  Forall (fun c => c ∈ RandomStringGenerator.alphabet)
    (list_ascii_of_string
       (fst (RandomStringGenerator.loop G distribution n g))).
Proof.
  unfold RandomStringGenerator.loop.
  destruct (draw_loop n g) as [Hlen Hall].
  destruct (N.iter n (RandomStringGenerator.draw G distribution) ([], g))
    as [randomString generator']. simpl in *.
  unfold RandomStringGenerator.contents.
  rewrite string_length_chars, contents_chars. simpl.
  rewrite rev_append_rev, app_nil_r. split.
  - rewrite length_rev. assumption.
  - apply List.Forall_rev. assumption.
Qed.

(** C5 (amended). For every length [n] that [std::string] accepts, up to
    [max_size()], and for which the allocation succeeds (none is needed
    within the capacity of a new string), [generate(n)] returns a string
    of exactly [n] characters, every one of them among the 62 characters
    of the alphabet (62 distinct characters, each a lowercase letter, an
    uppercase letter or a digit); [generate(0)] returns the empty string.
    For a length above [max_size()] it returns nothing: [reserve] throws
    [std::length_error]; and it returns nothing either when the allocator
    refuses: [reserve] throws [std::bad_alloc]. *)
Theorem generate_spec (n : N) (g : G) :
  ((n <= basic_string.max_size)%N ->
   ((basic_string.local_capacity < n)%N -> allocate n = true) ->
   exists s g',
     RandomStringGenerator.generate G distribution allocate n g
     = Some (s, g') /\
     String.length s = N.to_nat n /\
     Forall (fun c => c ∈ RandomStringGenerator.alphabet)
       (list_ascii_of_string s)) /\
  ((basic_string.max_size < n)%N ->
   RandomStringGenerator.generate G distribution allocate n g = None) /\
  ((basic_string.local_capacity < n)%N -> allocate n = false ->
   RandomStringGenerator.generate G distribution allocate n g = None) /\
  (length RandomStringGenerator.alphabet = 62%nat /\
   NoDup RandomStringGenerator.alphabet /\
   forallb alphanumeric RandomStringGenerator.alphabet = true) /\
  fst <$> RandomStringGenerator.generate G distribution allocate 0 g
  = Some EmptyString.
Proof.
  unfold RandomStringGenerator.generate, basic_string.reserve.
  split; [|split; [|split; [|split; [apply alphabet_alphanumeric|reflexivity]]]].
  - intros Hn Hmem.
    assert (Hres : (if (n <=? basic_string.local_capacity)%N then Some tt
                    else if (n <=? basic_string.max_size)%N
                         then (if allocate n then Some tt else None)
                         else None) = Some tt).
    { destruct (N.leb_spec n basic_string.local_capacity) as [Hl|Hl];
        [reflexivity|].
      apply N.leb_le in Hn. rewrite Hn, (Hmem Hl). reflexivity. }
    rewrite Hres. simpl.
    destruct (loop_length_chars n g) as [Hlen Hall].
    destruct (RandomStringGenerator.loop G distribution n g) as [s g'].
    exists s, g'. auto.
  - intros Hn.
    assert (Hl : (n <=? basic_string.local_capacity)%N = false)
      by (apply N.leb_gt; unfold basic_string.max_size,
            basic_string.local_capacity in *; lia).
    apply N.leb_gt in Hn. rewrite Hl, Hn. reflexivity.
  - intros Hl Hmem. apply N.leb_gt in Hl. rewrite Hl, Hmem.
    destruct (n <=? basic_string.max_size)%N; reflexivity.
Qed.

End GenerateFacts.

Lemma cyclic_range (a b g : Z) : a <= b -> a <= fst (Example.cyclic a b g) <= b.
Proof. unfold Example.cyclic. simpl. lia. Qed.

Lemma generate_spec_witness :
  ((5 <= basic_string.max_size)%N ->
   ((basic_string.local_capacity < 5)%N -> Example.allocator 5 = true) ->
   exists s g',
     RandomStringGenerator.generate Z Example.cyclic Example.allocator 5 60
     = Some (s, g') /\
     String.length s = N.to_nat 5 /\
     Forall (fun c => c ∈ RandomStringGenerator.alphabet)
       (list_ascii_of_string s)) /\
  ((basic_string.max_size < 5)%N ->
   RandomStringGenerator.generate Z Example.cyclic Example.allocator 5 60
   = None) /\
  ((basic_string.local_capacity < 5)%N -> Example.allocator 5 = false ->
   RandomStringGenerator.generate Z Example.cyclic Example.allocator 5 60
   = None) /\
  (length RandomStringGenerator.alphabet = 62%nat /\
   NoDup RandomStringGenerator.alphabet /\
   forallb alphanumeric RandomStringGenerator.alphabet = true) /\
  fst <$> RandomStringGenerator.generate Z Example.cyclic Example.allocator 0 60
  = Some EmptyString.
Proof.
  exact (generate_spec Z Example.cyclic Example.allocator cyclic_range 5 60).
Defined.

(** C5, as stated for every length, fails above [max_size()]: for the
    length [2^62], a value of [size_t], [generate] returns no string, even
    with an allocator that never refuses. It fails too when the allocator
    refuses: with one that grants a gigabyte at most, for the length
    [2^31]. *)
Lemma generate_refuses_length :
  (basic_string.max_size < 2 ^ 62 <= 2 ^ 64 - 1)%N /\
  RandomStringGenerator.generate Z Example.cyclic basic_string.granted
    (2 ^ 62) 60 = None /\
  RandomStringGenerator.generate Z Example.cyclic Example.allocator
    (2 ^ 31) 60 = None.
Proof.
  split; [split; vm_compute; congruence|]. split; reflexivity.
Qed.

(** At the length the writers ask for, [reserve] accepts and [generate]
    is its loop. *)
Lemma generate_payload (G : Type) (distribution : Z -> Z -> G -> Z * G) :
  RandomStringGenerator.generate G distribution basic_string.granted
    LockTester.payload_length
  = fun g =>
      Some (RandomStringGenerator.loop G distribution
              LockTester.payload_length g).
Proof. reflexivity. Qed.

(** Arithmetic on the lock flags and the counts of threads inside. *)
Ltac lock_arith :=
  repeat match goal with
    | H : _ /\ _ |- _ => destruct H
    | |- _ -> _ => intro
    | H : ?P -> _, H' : ?P |- _ => specialize (H H')
    | H : Nat.eqb _ _ = true |- _ => apply Nat.eqb_eq in H
    | H : context [Nat.b2n ?b] |- _ => destruct b eqn:?; simpl in *
    | |- context [Nat.b2n ?b] => destruct b eqn:?; simpl in *
    end;
  try assumption; try discriminate; try reflexivity; try lia.

(** ** LockTester: every run is finite *)

Section RunFacts.
Import LockTester.
Variable G : Type.
Variable distribution : Z -> Z -> G -> Z * G.
Variable st : strategy.
Variable e : env G.

(** Steps a reader, a writer thread still has to take. *)
Definition reader_left (nr : Z) (r : reader_pc) : nat :=
  match r with
  | RLoop i => 4 * Z.to_nat (nr - i) + 1
  | RReadCounter i => 4 * Z.to_nat (nr - i - 1) + 4
  | RReadText i => 4 * Z.to_nat (nr - i - 1) + 3
  | RUnlock i => 4 * Z.to_nat (nr - i - 1) + 2
  | RDone => 0
  end.

Definition writer_left (nu : Z) (w : writer G) : nat :=
  match wpc w with
  | WLoop i => 5 * Z.to_nat (nu - i) + 1
  | WLoadCounter i => 5 * Z.to_nat (nu - i - 1) + 5
  | WStoreCounter i _ => 5 * Z.to_nat (nu - i - 1) + 4
  | WSetText i => 5 * Z.to_nat (nu - i - 1) + 3
  | WUnlock i => 5 * Z.to_nat (nu - i - 1) + 2
  | WDone => 0
  end.

(** Steps the caller still has to take, and those of the threads it has
    yet to spawn. *)
Definition main_left (o : t) (p : main_pc) (nrs nws : nat) : nat :=
  let rc := (4 * Z.to_nat (numReads o) + 1)%nat in
  let wc := (5 * Z.to_nat (numUpdates o) + 1)%nat in
  let spawn_readers i := (Z.to_nat (numReaders o - i) * (rc + 2) + 1)%nat in
  let spawn_writers i := (Z.to_nat (numWriters o - i) * (wc + 2) + 1)%nat in
  match p with
  | MStart => 1 + spawn_readers 0 + spawn_writers 0 + (nrs + 1) + (nws + 1) + 1
  | MSpawnReaders i => spawn_readers i + spawn_writers 0 + (nrs + 1) + (nws + 1) + 1
  | MSpawnWriters i => spawn_writers i + (nrs + 1) + (nws + 1) + 1
  | MJoinReaders k => (nrs - k) + 1 + (nws + 1) + 1
  | MJoinWriters k => (nws - k) + 1 + 1
  | MEnd => 1
  | MFinished => 0
  end.

(** An upper bound on the number of steps left in a run. *)
Definition steps_left (s : run_state G) : nat :=
  main_left (this s) (pc s) (length (readers s)) (length (writers s))
  + sum_list_with (reader_left (numReads (this s))) (readers s)
  + sum_list_with (writer_left (numUpdates (this s))) (writers s).

(** The four counts are never written. *)
Definition same_config (o o' : t) : Prop :=
  numReaders o' = numReaders o /\ numWriters o' = numWriters o /\
  numReads o' = numReads o /\ numUpdates o' = numUpdates o.

Lemma reader_fn_left (o o' : t) (r r' : reader_pc) :
  reader_fn st o r = Some (o', r') ->
  same_config o o' /\ times o' = times o /\ sharedData o' = sharedData o /\
  (reader_left (numReads o) r' < reader_left (numReads o) r)%nat.
Proof.
  unfold same_config.
  destruct st, r; simpl; intros H; repeat case_match; simplify_option_eq;
    repeat split; try reflexivity; simpl; try lia.
Qed.

Lemma writer_fn_left (o o' : t) (w w' : writer G) :
  writer_fn G distribution st o w = Some (o', w') ->
  same_config o o' /\ times o' = times o /\
  (writer_left (numUpdates o) w' < writer_left (numUpdates o) w)%nat.
Proof.
  unfold same_config, writer_left.
  destruct w as [p g].
  destruct st, p; unfold writer_fn, writerSharedLock, writerStandardLock,
    writer_body; rewrite ?generate_payload;
    generalize (RandomStringGenerator.loop G distribution payload_length); intros gen; simpl; intros H;
    repeat case_match; simplify_option_eq;
    repeat split; try reflexivity; simpl; try lia.
Qed.

Lemma main_step_left (s s' : run_state G) :
  main_step G st e s = Some s' -> (steps_left s' < steps_left s)%nat.
Proof.
  unfold main_step, steps_left, main_left. destruct s as [o p t0 rs ws n]. simpl.
  destruct p; simpl; intros H; repeat case_match; simplify_option_eq; simpl;
    rewrite ?length_app, ?sum_list_with_app; simpl; try lia.
  - apply Z.ltb_lt in H0.
    replace (Z.to_nat (numReaders o - i))
      with (S (Z.to_nat (numReaders o - (i + 1)))) by lia.
    replace (numReads o - 0) with (numReads o) by lia. lia.
  - apply Z.ltb_lt in H0.
    replace (Z.to_nat (numWriters o - i))
      with (S (Z.to_nat (numWriters o - (i + 1)))) by lia.
    unfold writer_left at 2. simpl.
    replace (numUpdates o - 0) with (numUpdates o) by lia. lia.
  - apply lookup_lt_Some in H0. lia.
  - assert (k < length ws)%nat; [|lia].
    apply lookup_lt_is_Some.
    destruct (ws !! k); [eauto|discriminate].
Qed.

(** Every step brings the end of the run closer. *)
Lemma step_left (w : who) (s s' : run_state G) :
  step distribution st e w s = Some s' -> (steps_left s' < steps_left s)%nat.
Proof.
  unfold step. destruct w as [|k|k]; simpl; intros H.
  - destruct (main_step G st e s) as [s1|] eqn:E; simplify_eq/=.
    apply main_step_left in E. exact E.
  - destruct (readers s !! k) as [r|] eqn:Hr; simplify_eq/=.
    destruct (reader_fn st (this s) r) as [[o r']|] eqn:E; simplify_eq/=.
    apply reader_fn_left in E. destruct E as ((E1 & E2 & E3 & E4) & _ & _ & E).
    unfold steps_left, main_left. simpl.
    rewrite ?E1, ?E2, ?E3, ?E4, length_insert.
    pose proof (sum_list_with_insert (reader_left (numReads (this s)))
                  _ k r' r Hr). lia.
  - destruct (writers s !! k) as [w|] eqn:Hw; simplify_eq/=.
    destruct (writer_fn G distribution st (this s) w) as [[o w']|] eqn:E;
      simplify_eq/=.
    apply writer_fn_left in E. destruct E as ((E1 & E2 & E3 & E4) & _ & E).
    unfold steps_left, main_left. simpl.
    rewrite ?E1, ?E2, ?E3, ?E4, length_insert.
    pose proof (sum_list_with_insert (writer_left (numUpdates (this s)))
                  _ k w' w Hw). lia.
Qed.

(** A schedule cannot be longer than the bound at its start. *)
Lemma exec_length (sched : list who) (s s' : run_state G) :
  exec distribution st e sched s = Some s' ->
  (length sched + steps_left s' <= steps_left s)%nat.
Proof.
  revert s. induction sched as [|w sched IH]; intros s H; simpl in *.
  - simplify_eq. lia.
  - destruct (step distribution st e w s) as [s1|] eqn:E; simplify_eq/=.
    apply step_left in E. apply IH in H. lia.
Qed.

(** ** LockTester: what holds at every moment of a run *)

(** Updates a writer has completed: the increments it has stored. *)
Definition writer_incs (nu : Z) (w : writer G) : nat :=
  match wpc w with
  | WLoop i | WLoadCounter i | WStoreCounter i _ => Z.to_nat i
  | WSetText i | WUnlock i => S (Z.to_nat i)
  | WDone => Z.to_nat nu
  end.

(** Threads between taking and releasing the lock. *)
Definition rcs (rs : list reader_pc) : nat :=
  sum_list_with (fun r => Nat.b2n (reader_in_cs r)) rs.

Definition wcs (ws : list (writer G)) : nat :=
  sum_list_with (fun w => Nat.b2n (writer_in_cs w)) ws.

(** The loop variable of a writer is in range, and the value it loaded is
    still the counter. *)
Definition writer_ok (nu c : Z) (w : writer G) : Prop :=
  match wpc w with
  | WLoop i => 0 <= i <= Z.max 0 nu
  | WStoreCounter i tmp => 0 <= i < nu /\ tmp = c
  | WLoadCounter i | WSetText i | WUnlock i => 0 <= i < nu
  | WDone => True
  end.

(** The lock of the running test says who is inside; the other lock is
    free. *)
Definition locks_ok (o : t) (rs : list reader_pc) (ws : list (writer G)) : Prop :=
  match st with
  | SharedMutex =>
      wcs ws = Nat.b2n (shared_mutex.writer (sharedMutex o)) /\
      rcs rs = shared_mutex.readers (sharedMutex o) /\
      (shared_mutex.writer (sharedMutex o) = true ->
       shared_mutex.readers (sharedMutex o) = O) /\
      standardMutex o = false
  | StandardMutex =>
      (wcs ws + rcs rs)%nat = Nat.b2n (standardMutex o) /\
      sharedMutex o = shared_mutex.unlocked
  end.

Definition readers_done (n : nat) (rs : list reader_pc) : Prop :=
  forall k r, (k < n)%nat -> rs !! k = Some r -> r = RDone.

Definition writers_done (n : nat) (ws : list (writer G)) : Prop :=
  forall k w, (k < n)%nat -> ws !! k = Some w -> wpc w = WDone.

(** Where the caller is against the threads it has spawned and joined. *)
Definition threads_ok (s : run_state G) : Prop :=
  match pc s with
  | MStart => readers s = [] /\ writers s = []
  | MSpawnReaders _ => writers s = []
  | MSpawnWriters i =>
      Z.of_nat (length (writers s)) = i /\ i <= Z.max 0 (numWriters (this s))
  | MJoinReaders k =>
      length (writers s) = Z.to_nat (numWriters (this s)) /\
      readers_done k (readers s)
  | MJoinWriters k =>
      length (writers s) = Z.to_nat (numWriters (this s)) /\
      readers_done (length (readers s)) (readers s) /\
      writers_done k (writers s)
  | MEnd | MFinished =>
      length (writers s) = Z.to_nat (numWriters (this s)) /\
      readers_done (length (readers s)) (readers s) /\
      writers_done (length (writers s)) (writers s)
  end.

(** The map is written once, at the end, with the time between two
    readings of the clock, the second not earlier than the first. *)
Definition time_ok (o0 : t) (s : run_state G) : Prop :=
  match pc s with
  | MStart => times (this s) = times o0
  | MFinished =>
      exists t0 t1 : nat, (t0 <= t1)%nat /\
        times (this s)
        = map_assign (time_key st) (duration_ms (now e t1 - now e t0)) (times o0)
  | _ =>
      times (this s) = times o0 /\
      exists t0 : nat, (t0 <= ticks s)%nat /\ start s = now e t0
  end.

(** The invariant of a run that started on the object [o0]. *)
Record inv (o0 : t) (s : run_state G) : Prop := {
  inv_config : same_config o0 (this s);
  inv_locks : locks_ok (this s) (readers s) (writers s);
  inv_counter :
    counter (sharedData (this s))
    = wrap_int (counter (sharedData o0)
                + Z.of_nat (sum_list_with (writer_incs (numUpdates (this s)))
                              (writers s)));
  inv_writers :
    forall k w, writers s !! k = Some w ->
      writer_ok (numUpdates (this s)) (counter (sharedData (this s))) w;
  inv_threads : threads_ok s;
  inv_time : time_ok o0 s
}.

(** The object between two tests: both locks free, the counter an [int]. *)
Definition idle (o : t) : Prop :=
  sharedMutex o = shared_mutex.unlocked /\ standardMutex o = mutex.unlocked /\
  INT_MIN <= counter (sharedData o) <= INT_MAX.

Lemma inv_init (o : t) : idle o -> inv o (init o).
Proof.
  intros (Hs & Hm & Hc). constructor; simpl.
  - repeat split.
  - unfold locks_ok, wcs, rcs. rewrite Hs, Hm. destruct st; simpl; auto.
  - rewrite Z.add_0_r, wrap_int_small; auto.
  - intros k w Hk. discriminate.
  - split; reflexivity.
  - reflexivity.
Qed.

Lemma reader_step_locks (o o' : t) (rs : list reader_pc) (ws : list (writer G))
  (k : nat) (r r' : reader_pc) :
  locks_ok o rs ws -> rs !! k = Some r -> reader_fn st o r = Some (o', r') ->
  locks_ok o' (<[k := r']> rs) ws.
Proof.
  unfold locks_ok, rcs. intros H Hk E.
  pose proof (sum_list_with_insert (fun r => Nat.b2n (reader_in_cs r))
                rs k r' r Hk) as Hsum.
  destruct st, r; unfold reader_fn, readerSharedLock, readerStandardLock,
    shared_mutex.lock_shared, shared_mutex.unlock_shared, mutex.lock,
    mutex.unlock in E; simpl in *;
    repeat case_match; simplify_option_eq; simpl in *;
    repeat match goal with H : _ /\ _ |- _ => destruct H end;
    repeat split; lock_arith.
Qed.

Lemma writer_step_locks (o o' : t) (rs : list reader_pc) (ws : list (writer G))
  (k : nat) (w w' : writer G) :
  locks_ok o rs ws -> ws !! k = Some w ->
  writer_fn G distribution st o w = Some (o', w') ->
  locks_ok o' rs (<[k := w']> ws).
Proof.
  unfold locks_ok, wcs. intros H Hk E.
  pose proof (sum_list_with_insert (fun w => Nat.b2n (writer_in_cs w))
                ws k w' w Hk) as Hsum.
  destruct w as [p g].
  destruct st, p; revert E;
    unfold writer_fn, writerSharedLock, writerStandardLock,
    writer_body, shared_mutex.lock, shared_mutex.unlock, mutex.lock,
    mutex.unlock; rewrite ?generate_payload;
    generalize (RandomStringGenerator.loop G distribution payload_length);
    intros gen E; simpl in *;
    repeat case_match; simplify_option_eq; simpl in *;
    repeat match goal with H : _ /\ _ |- _ => destruct H end;
    repeat split; lock_arith.
Qed.

Lemma wcs_le_1 (o : t) (rs : list reader_pc) (ws : list (writer G)) :
  locks_ok o rs ws -> (wcs ws <= 1)%nat.
Proof. unfold locks_ok. destruct st; lock_arith. Qed.

(** A step of a writer keeps the account of the counter and the writers'
    own conditions; this is where mutual exclusion is used: the value a
    writer stores is one more than the counter of that moment. *)
Lemma writer_step_counter (c0 : Z) (o o' : t) (ws : list (writer G))
  (k : nat) (w w' : writer G) :
  (wcs ws <= 1)%nat ->
  counter (sharedData o)
  = wrap_int (c0 + Z.of_nat (sum_list_with (writer_incs (numUpdates o)) ws)) ->
  (forall j wj, ws !! j = Some wj ->
     writer_ok (numUpdates o) (counter (sharedData o)) wj) ->
  ws !! k = Some w ->
  writer_fn G distribution st o w = Some (o', w') ->
  counter (sharedData o')
  = wrap_int (c0 + Z.of_nat (sum_list_with (writer_incs (numUpdates o'))
                               (<[k := w']> ws))) /\
  (forall j wj, <[k := w']> ws !! j = Some wj ->
     writer_ok (numUpdates o') (counter (sharedData o')) wj).
Proof.
  intros Hcs Hc Hok Hk E.
  pose proof (sum_list_with_insert (writer_incs (numUpdates o)) ws k w' w Hk)
    as Hsum.
  pose proof (Hok k w Hk) as Hw.
  assert (Hothers : forall j wj, j <> k -> ws !! j = Some wj ->
            writer_in_cs w = true -> writer_in_cs wj = false).
  { intros j wj Hjk Hj Hin.
    assert (Hpos : (0 < Nat.b2n (writer_in_cs w))%nat)
      by (rewrite Hin; simpl; lia).
    pose proof (sum_list_with_one (fun w => Nat.b2n (writer_in_cs w))
                  ws j k w wj Hcs Hk Hpos Hjk Hj) as H1. simpl in H1.
    destruct (writer_in_cs wj); [discriminate|reflexivity]. }
  destruct (writer_fn_left _ _ _ _ E) as ((_ & _ & _ & Hnu) & _ & _).
  rewrite Hnu.
  assert (Hcases :
    (counter (sharedData o') = counter (sharedData o) /\
     writer_incs (numUpdates o) w' = writer_incs (numUpdates o) w /\
     writer_ok (numUpdates o) (counter (sharedData o)) w') \/
    (writer_in_cs w = true /\
     counter (sharedData o') = wrap_int (counter (sharedData o) + 1) /\
     writer_incs (numUpdates o) w' = S (writer_incs (numUpdates o) w) /\
     writer_ok (numUpdates o) (counter (sharedData o')) w')).
  { clear Hsum Hothers Hok Hk Hcs Hc Hnu.
    destruct w as [p g]. unfold writer_ok, writer_incs in *.
    destruct st, p; revert E;
      unfold writer_fn, writerSharedLock, writerStandardLock, writer_body;
      rewrite ?generate_payload;
    generalize (RandomStringGenerator.loop G distribution payload_length);
      intros gen E; simpl in *;
      repeat case_match; simplify_option_eq; simpl in *;
      try (left; repeat split; try reflexivity; try lia; fail);
      try (right; repeat split; try reflexivity; try lia; fail).
    all: destruct Hw as [? ->]; right; repeat split; try reflexivity; lia. }
  assert (Hout : forall c c' wj, writer_in_cs wj = false ->
            writer_ok (numUpdates o) c wj -> writer_ok (numUpdates o) c' wj).
  { intros c c' [p g]. unfold writer_ok, writer_in_cs. simpl.
    destruct p; simpl; auto; discriminate. }
  destruct Hcases as [(Hc' & Hincs & Hw') | (Hin & Hc' & Hincs & Hw')].
  - split.
    + rewrite Hc', Hc. f_equal. lia.
    + intros j wj Hj. rewrite Hc'.
      apply list_lookup_insert_Some in Hj.
      destruct Hj as [(_ & <- & _) | (_ & Hj)]; eauto.
  - split.
    + rewrite Hc', Hc, wrap_int_succ. f_equal. lia.
    + intros j wj Hj.
      apply list_lookup_insert_Some in Hj.
      destruct Hj as [(_ & <- & _) | (Hjk & Hj)]; [assumption|].
      apply (Hout (counter (sharedData o))); eauto.
Qed.

Lemma bump (o0 : t) (s : run_state G) :
  inv o0 s ->
  inv o0 {| this := this s; pc := pc s; start := start s;
            readers := readers s; writers := writers s; ticks := S (ticks s) |}.
Proof.
  intros [H1 H2 H3 H4 H5 H6]. constructor; try assumption.
  unfold time_ok in *. simpl.
  destruct (pc s); try assumption.
  all: destruct H6 as (Ht & t0 & Hle & Hs); split; [assumption|].
  all: exists t0; split; [lia|assumption].
Qed.

Lemma readers_done_insert (n k : nat) (rs : list reader_pc) (r r' : reader_pc) :
  rs !! k = Some r -> r <> RDone ->
  readers_done n rs -> readers_done n (<[k := r']> rs).
Proof.
  intros Hk Hr H j rj Hj Hl. apply list_lookup_insert_Some in Hl.
  destruct Hl as [(-> & _ & _) | (_ & Hl)]; [|eauto].
  destruct Hr. eauto.
Qed.

Lemma writers_done_insert (n k : nat) (ws : list (writer G)) (w w' : writer G) :
  ws !! k = Some w -> wpc w <> WDone ->
  writers_done n ws -> writers_done n (<[k := w']> ws).
Proof.
  intros Hk Hw H j wj Hj Hl. apply list_lookup_insert_Some in Hl.
  destruct Hl as [(-> & _ & _) | (_ & Hl)]; [|eauto].
  destruct Hw. eauto.
Qed.

Lemma same_config_trans (o1 o2 o3 : t) :
  same_config o1 o2 -> same_config o2 o3 -> same_config o1 o3.
Proof. unfold same_config. intuition congruence. Qed.

Lemma reader_step_inv (o0 o' : t) (s : run_state G) (k : nat) (r r' : reader_pc) :
  inv o0 s -> readers s !! k = Some r ->
  reader_fn st (this s) r = Some (o', r') ->
  inv o0 {| this := o'; pc := pc s; start := start s;
            readers := <[k := r']> (readers s); writers := writers s;
            ticks := ticks s |}.
Proof.
  intros [H1 H2 H3 H4 H5 H6] Hk E.
  assert (Hr : r <> RDone) by (intros ->; destruct st; discriminate).
  destruct (reader_fn_left _ _ _ _ E) as (Hcfg & Ht & Hd & _).
  pose proof Hcfg as (_ & HnW & _ & HnU).
  constructor; simpl.
  - eapply same_config_trans; eauto.
  - eapply reader_step_locks; eauto.
  - rewrite Hd, HnU. assumption.
  - rewrite Hd, HnU. assumption.
  - unfold threads_ok in *. simpl. rewrite HnW, length_insert.
    destruct (pc s); try assumption;
      repeat match goal with H : _ /\ _ |- _ => destruct H end;
      repeat split; try assumption;
      try (match goal with H : readers s = [] |- _ => rewrite H in Hk end;
           discriminate);
      try (eapply readers_done_insert; eauto).
  - unfold time_ok in *. simpl. rewrite Ht. assumption.
Qed.

Lemma writer_step_inv (o0 o' : t) (s : run_state G) (k : nat) (w w' : writer G) :
  inv o0 s -> writers s !! k = Some w ->
  writer_fn G distribution st (this s) w = Some (o', w') ->
  inv o0 {| this := o'; pc := pc s; start := start s;
            readers := readers s; writers := <[k := w']> (writers s);
            ticks := ticks s |}.
Proof.
  intros [H1 H2 H3 H4 H5 H6] Hk E.
  assert (Hw : wpc w <> WDone).
  { intros Hd. destruct w as [p g]. simpl in Hd. subst p.
    destruct st; discriminate. }
  destruct (writer_fn_left _ _ _ _ E) as (Hcfg & Ht & _).
  pose proof Hcfg as (_ & HnW & _ & HnU).
  destruct (writer_step_counter _ _ _ _ _ _ _ (wcs_le_1 _ _ _ H2) H3 H4 Hk E)
    as [Hc Hok].
  constructor; simpl.
  - eapply same_config_trans; eauto.
  - eapply writer_step_locks; eauto.
  - assumption.
  - assumption.
  - unfold threads_ok in *. simpl. rewrite HnW, length_insert.
    destruct (pc s); try assumption;
      repeat match goal with H : _ /\ _ |- _ => destruct H end;
      repeat split; try assumption;
      try (match goal with H : writers s = [] |- _ => rewrite H in Hk end;
           discriminate);
      try (eapply writers_done_insert; eauto).
  - unfold time_ok in *. simpl. rewrite Ht. assumption.
Qed.

Lemma main_step_inv (o0 : t) (s s' : run_state G) :
  inv o0 s -> main_step G st e s = Some s' -> inv o0 s'.
Proof.
  intros [H1 H2 H3 H4 H5 H6] E. unfold main_step in E.
  unfold threads_ok, time_ok in *.
  destruct s as [o p t0 rs ws n]. simpl in *. destruct p.
  - (* the first reading of the clock *)
    simplify_eq. destruct H5 as [-> ->].
    constructor; unfold threads_ok, time_ok; simpl; auto. split; [assumption|]. exists n. auto.
  - (* the loop that spawns the readers *)
    subst ws. destruct H6 as [Ht Hs].
    destruct (Z.ltb_spec i (numReaders o)); simplify_eq;
      constructor; unfold threads_ok, time_ok; simpl; auto; try lia.
    unfold locks_ok, rcs in *. rewrite sum_list_with_app. simpl.
    destruct st; lock_arith; repeat split; lock_arith.
  - (* the loop that spawns the writers *)
    destruct H5 as [Hlen Hi]. destruct H6 as [Ht Hs].
    destruct (Z.ltb_spec i (numWriters o)); simplify_eq;
      constructor; unfold threads_ok, time_ok; simpl; auto.
    + unfold locks_ok, wcs in *. rewrite sum_list_with_app. simpl.
      destruct st; lock_arith; repeat split; lock_arith.
    + rewrite sum_list_with_app. simpl. rewrite H3. f_equal. lia.
    + intros k w Hk. apply lookup_app_Some in Hk.
      destruct Hk as [Hk | [_ Hk]]; [eauto|].
      apply list_lookup_singleton_Some in Hk. destruct Hk as [_ <-].
      unfold writer_ok. simpl. lia.
    + rewrite length_app. simpl. lia.
    + split; [lia|]. intros k r Hk. lia.
  - (* joining the readers *)
    destruct H5 as [Hlen Hdone]. destruct H6 as [Ht Hs].
    destruct (rs !! k) as [r|] eqn:Hk.
    + destruct r; simplify_eq. constructor; unfold threads_ok, time_ok; simpl; auto.
      split; [assumption|]. intros j r Hj Hl.
      destruct (decide (j = k)) as [->|]; [congruence|].
      apply (Hdone j); [lia|assumption].
    + simplify_eq. constructor; unfold threads_ok, time_ok; simpl; auto.
      apply lookup_ge_None in Hk.
      repeat split; [assumption| |intros j w Hj; lia].
      intros j r Hj Hl. apply (Hdone j); [lia|assumption].
  - (* joining the writers *)
    destruct H5 as (Hlen & Hrs & Hdone). destruct H6 as [Ht Hs].
    destruct (ws !! k) as [w|] eqn:Hk; simpl in E.
    + destruct (wpc w) eqn:Hw; simplify_eq. constructor; unfold threads_ok, time_ok; simpl; auto.
      repeat split; try assumption. intros j wj Hj Hl.
      destruct (decide (j = k)) as [->|]; [congruence|].
      apply (Hdone j); [lia|assumption].
    + simplify_eq. constructor; unfold threads_ok, time_ok; simpl; auto.
      apply lookup_ge_None in Hk.
      repeat split; try assumption.
      intros j wj Hj Hl. apply (Hdone j); [lia|assumption].
  - (* the second reading of the clock *)
    destruct H6 as (Ht & t1 & Hle & Hs). simplify_eq.
    constructor; unfold threads_ok, time_ok; simpl; auto.
    exists t1, n. split; [assumption|]. rewrite Ht. reflexivity.
  - discriminate.
Qed.

(** The invariant is kept by every step, hence along every schedule. *)
Lemma step_inv (o0 : t) (w : who) (s s' : run_state G) :
  inv o0 s -> step distribution st e w s = Some s' -> inv o0 s'.
Proof.
  intros Hinv. unfold step. destruct w as [|k|k]; simpl; intros H.
  - destruct (main_step G st e s) as [s1|] eqn:E; simplify_eq/=.
    apply bump. eapply main_step_inv; eauto.
  - destruct (readers s !! k) as [r|] eqn:Hr; simplify_eq/=.
    destruct (reader_fn st (this s) r) as [[o r']|] eqn:E; simplify_eq/=.
    apply (bump o0 _ (reader_step_inv _ _ _ _ _ _ Hinv Hr E)).
  - destruct (writers s !! k) as [w|] eqn:Hw; simplify_eq/=.
    destruct (writer_fn G distribution st (this s) w) as [[o w']|] eqn:E;
      simplify_eq/=.
    apply (bump o0 _ (writer_step_inv _ _ _ _ _ _ Hinv Hw E)).
Qed.

Lemma exec_inv (o0 : t) (sched : list who) (s s' : run_state G) :
  inv o0 s -> exec distribution st e sched s = Some s' -> inv o0 s'.
Proof.
  revert s. induction sched as [|w sched IH]; intros s Hinv H; simpl in *.
  - simplify_eq. assumption.
  - destruct (step distribution st e w s) as [s1|] eqn:E; simplify_eq/=.
    eapply IH; [|eassumption]. eapply step_inv; eauto.
Qed.

(** ** LockTester: no run gets stuck *)

Lemma reader_step_some (s : run_state G) (k : nat) (r : reader_pc) :
  readers s !! k = Some r -> is_Some (reader_fn st (this s) r) ->
  exists s', step distribution st e (Reader k) s = Some s'.
Proof.
  intros Hk [[o r'] E]. unfold step. simpl. rewrite Hk. simpl. rewrite E.
  simpl. eauto.
Qed.

Lemma writer_step_some (s : run_state G) (k : nat) (w : writer G) :
  writers s !! k = Some w ->
  is_Some (writer_fn G distribution st (this s) w) ->
  exists s', step distribution st e (Writer k) s = Some s'.
Proof.
  intros Hk [[o w'] E]. unfold step. simpl. rewrite Hk. simpl. rewrite E.
  simpl. eauto.
Qed.

(** The lock of the running test cannot be taken in shared, in exclusive
    mode. *)
Definition busy_for_reader (o : t) : Prop :=
  match st with
  | SharedMutex => shared_mutex.writer (sharedMutex o) = true
  | StandardMutex => standardMutex o = true
  end.

Definition busy_for_writer (o : t) : Prop :=
  match st with
  | SharedMutex =>
      shared_mutex.writer (sharedMutex o) = true \/
      shared_mutex.readers (sharedMutex o) <> O
  | StandardMutex => standardMutex o = true
  end.

(** A thread that has not returned moves, unless it waits for the lock. *)
Lemma reader_moves (o : t) (r : reader_pc) :
  r <> RDone ->
  is_Some (reader_fn st o r) \/ (reader_in_cs r = false /\ busy_for_reader o).
Proof.
  unfold busy_for_reader, reader_fn, readerSharedLock, readerStandardLock,
    shared_mutex.lock_shared, mutex.lock.
  intros Hr. destruct st, r; simpl; try (left; eauto; fail); try congruence.
  - destruct (i <? numReads o); [|left; eauto].
    destruct (shared_mutex.writer (sharedMutex o)); simpl; eauto.
  - destruct (i <? numReads o); [|left; eauto].
    destruct (standardMutex o); simpl; eauto.
Qed.

Lemma writer_moves (o : t) (w : writer G) :
  wpc w <> WDone ->
  is_Some (writer_fn G distribution st o w) \/
  (writer_in_cs w = false /\ busy_for_writer o).
Proof.
  unfold busy_for_writer, writer_fn, writerSharedLock, writerStandardLock,
    writer_body, shared_mutex.lock, mutex.lock, writer_in_cs.
  destruct w as [p g]. simpl. intros Hw.
  destruct st, p; simpl; try (left; eauto; fail); try congruence;
    try (left; rewrite generate_payload; simpl;
         destruct (RandomStringGenerator.loop G distribution
                     payload_length g); eauto; fail).
  - destruct (i <? numUpdates o); [|left; eauto].
    destruct (shared_mutex.writer (sharedMutex o)); simpl; eauto.
    destruct (shared_mutex.readers (sharedMutex o)); simpl; eauto.
  - destruct (i <? numUpdates o); [|left; eauto].
    destruct (standardMutex o); simpl; eauto.
Qed.

(** While the lock is held, its holder can move. *)
Lemma holder_moves (o0 : t) (s : run_state G) :
  inv o0 s -> (0 < rcs (readers s) + wcs (writers s))%nat ->
  exists w s', step distribution st e w s = Some s'.
Proof.
  intros Hinv Hpos.
  destruct (Nat.eq_dec (rcs (readers s)) O) as [Hr|Hr].
  - destruct (sum_list_with_pos (fun w => Nat.b2n (writer_in_cs w)) (writers s))
      as (k & w & Hk & Hw); [unfold wcs in Hpos; lia|].
    exists (Writer k). apply (writer_step_some s k w Hk).
    destruct (writer_moves (this s) w) as [H|[H _]]; [|assumption|].
    + intros Hd. unfold writer_in_cs in Hw. rewrite Hd in Hw. simpl in Hw. lia.
    + rewrite H in Hw. simpl in Hw. lia.
  - destruct (sum_list_with_pos (fun r => Nat.b2n (reader_in_cs r)) (readers s))
      as (k & r & Hk & Hw); [unfold rcs in Hr; lia|].
    exists (Reader k). apply (reader_step_some s k r Hk).
    destruct (reader_moves (this s) r) as [H|[H _]]; [|assumption|].
    + intros ->. simpl in Hw. lia.
    + rewrite H in Hw. simpl in Hw. lia.
Qed.

Lemma busy_held (o0 : t) (s : run_state G) :
  inv o0 s -> busy_for_reader (this s) \/ busy_for_writer (this s) ->
  (0 < rcs (readers s) + wcs (writers s))%nat.
Proof.
  intros [_ H _ _ _ _]. unfold locks_ok, busy_for_reader, busy_for_writer in *.
  destruct st; intros [Hb|Hb]; lock_arith.
Qed.

(** A thread that has not returned: some thread can move. *)
Lemma reader_pending (o0 : t) (s : run_state G) (k : nat) (r : reader_pc) :
  inv o0 s -> readers s !! k = Some r -> r <> RDone ->
  exists w s', step distribution st e w s = Some s'.
Proof.
  intros Hinv Hk Hr. destruct (reader_moves (this s) r Hr) as [H|[_ H]].
  - exists (Reader k). eapply reader_step_some; eauto.
  - eapply holder_moves; eauto. eapply busy_held; eauto.
Qed.

Lemma writer_pending (o0 : t) (s : run_state G) (k : nat) (w : writer G) :
  inv o0 s -> writers s !! k = Some w -> wpc w <> WDone ->
  exists w' s', step distribution st e w' s = Some s'.
Proof.
  intros Hinv Hk Hw. destruct (writer_moves (this s) w Hw) as [H|[_ H]].
  - exists (Writer k). eapply writer_step_some; eauto.
  - eapply holder_moves; eauto. eapply busy_held; eauto.
Qed.

Lemma main_step_some (s : run_state G) :
  is_Some (main_step G st e s) ->
  exists w s', step distribution st e w s = Some s'.
Proof. intros [s1 E]. exists Main. unfold step. rewrite E. simpl. eauto. Qed.

(** Deadlock freedom: until the test has returned, some thread can move. *)
Lemma progress (o0 : t) (s : run_state G) :
  inv o0 s -> finished s = false ->
  exists w s', step distribution st e w s = Some s'.
Proof.
  intros Hinv Hfin. unfold finished in Hfin.
  destruct (pc s) eqn:Hpc; try discriminate.
  - apply main_step_some. unfold main_step. rewrite Hpc. eauto.
  - apply main_step_some. unfold main_step. rewrite Hpc.
    destruct (i <? numReaders (this s)); eauto.
  - apply main_step_some. unfold main_step. rewrite Hpc.
    destruct (i <? numWriters (this s)); eauto.
  - destruct (readers s !! k) as [r|] eqn:Hk.
    + assert (Hr : r = RDone \/ r <> RDone)
        by (destruct r; auto; right; discriminate).
      destruct Hr as [->|Hr].
      * apply main_step_some. unfold main_step. rewrite Hpc, Hk. eauto.
      * eapply reader_pending; eauto.
    + apply main_step_some. unfold main_step. rewrite Hpc, Hk. eauto.
  - destruct (writers s !! k) as [w|] eqn:Hk.
    + assert (Hw : wpc w = WDone \/ wpc w <> WDone)
        by (destruct (wpc w); auto; right; discriminate).
      destruct Hw as [Hw|Hw].
      * apply main_step_some. unfold main_step. rewrite Hpc, Hk. simpl.
        rewrite Hw. eauto.
      * eapply writer_pending; eauto.
    + apply main_step_some. unfold main_step. rewrite Hpc, Hk. eauto.
  - apply main_step_some. unfold main_step. rewrite Hpc. eauto.
Qed.

(** ** LockTester: what a test leaves behind *)

Lemma run_completes (o0 : t) (n : nat) (s : run_state G) :
  inv o0 s -> (steps_left s <= n)%nat ->
  exists sched s', exec distribution st e sched s = Some s' /\ finished s' = true.
Proof.
  revert s. induction n as [|n IH]; intros s Hinv Hn.
  - destruct (finished s) eqn:Hfin; [exists [], s; auto|].
    destruct (progress o0 s Hinv Hfin) as (w & s1 & E).
    apply step_left in E. lia.
  - destruct (finished s) eqn:Hfin; [exists [], s; auto|].
    destruct (progress o0 s Hinv Hfin) as (w & s1 & E).
    destruct (IH s1) as (sched & s' & Hexec & Hfin').
    + eapply step_inv; eauto.
    + apply step_left in E. lia.
    + exists (w :: sched), s'. simpl. rewrite E. auto.
Qed.

Lemma wrap_int_range (x : Z) : INT_MIN <= wrap_int x <= INT_MAX.
Proof.
  unfold wrap_int, INT_MIN, INT_MAX.
  pose proof (Z.mod_pos_bound (x + 2 ^ 31) (2 ^ 32) ltac:(lia)). lia.
Qed.

(** The state in which a test returns. *)
Lemma finished_facts (o0 : t) (s : run_state G) :
  inv o0 s -> finished s = true ->
  same_config o0 (this s) /\ idle (this s) /\
  counter (sharedData (this s))
  = wrap_int (counter (sharedData o0)
              + Z.of_nat (Z.to_nat (numWriters o0) * Z.to_nat (numUpdates o0))) /\
  exists t0 t1 : nat, (t0 <= t1)%nat /\
    times (this s)
    = map_assign (time_key st) (duration_ms (now e t1 - now e t0)) (times o0).
Proof.
  intros [H1 H2 H3 H4 H5 H6] Hfin. unfold finished in Hfin.
  unfold threads_ok, time_ok in *.
  destruct (pc s); try discriminate.
  destruct H5 as (Hlen & Hrs & Hws). pose proof H1 as (_ & HnW & _ & HnU).
  assert (Hr0 : rcs (readers s) = O).
  { unfold rcs. rewrite (sum_list_with_all _ _ O); [lia|].
    intros k r Hk. rewrite (Hrs k r); [reflexivity| |assumption].
    eapply lookup_lt_Some; eauto. }
  assert (Hw0 : wcs (writers s) = O).
  { unfold wcs. rewrite (sum_list_with_all _ _ O); [lia|].
    intros k w Hk. unfold writer_in_cs. rewrite (Hws k w); [reflexivity| |assumption].
    eapply lookup_lt_Some; eauto. }
  split; [assumption|]. split; [|split; [|assumption]].
  - unfold locks_ok in H2. rewrite Hr0, Hw0 in H2.
    split; [|split; [|rewrite H3; apply wrap_int_range]].
    + destruct st; [|tauto].
      destruct (sharedMutex (this s)) as [b n]. simpl in *.
      destruct H2 as (Hb & Hn & _). destruct b; [discriminate|].
      subst n. reflexivity.
    + destruct st; [tauto|]. destruct H2 as [Hb _].
      unfold mutex.unlocked. destruct (standardMutex (this s)); [discriminate|].
      reflexivity.
  - rewrite H3. f_equal. f_equal. f_equal.
    rewrite (sum_list_with_all _ _ (Z.to_nat (numUpdates (this s)))).
    + rewrite Hlen, HnW, HnU. reflexivity.
    + intros k w Hk. unfold writer_incs.
      rewrite (Hws k w); [reflexivity| |assumption].
      eapply lookup_lt_Some; eauto.
Qed.

(** What a call of a test does to the object, whatever the schedule. *)
Lemma test_facts (sched : list who) (o o' : t) :
  idle o -> test distribution st e sched o = Some o' ->
  same_config o o' /\ idle o' /\
  counter (sharedData o')
  = wrap_int (counter (sharedData o)
              + Z.of_nat (Z.to_nat (numWriters o) * Z.to_nat (numUpdates o))) /\
  exists t0 t1 : nat, (t0 <= t1)%nat /\
    times o'
    = map_assign (time_key st) (duration_ms (now e t1 - now e t0)) (times o).
Proof.
  intros Hidle H. unfold test in H.
  destruct (exec distribution st e sched (init o)) as [s|] eqn:E; simplify_eq/=.
  destruct (finished s) eqn:Hfin; simplify_eq.
  apply (finished_facts o s); [|assumption].
  eapply exec_inv; [apply inv_init; assumption|eassumption].
Qed.

(** Every call of a test can run to its return. *)
Lemma test_total (o : t) :
  idle o -> exists sched o', test distribution st e sched o = Some o'.
Proof.
  intros Hidle.
  destruct (run_completes o _ (init o) (inv_init o Hidle) (Nat.le_refl _))
    as (sched & s & E & Hfin).
  exists sched, (this s). unfold test. rewrite E. simpl. rewrite Hfin.
  reflexivity.
Qed.

End RunFacts.

Arguments writer_left {G} _ _.
Arguments steps_left {G} _.
Arguments writer_incs {G} _ _.
Arguments wcs {G} _.
Arguments writer_ok {G} _ _ _.
Arguments locks_ok {G} _ _ _ _.
Arguments writers_done {G} _ _.
Arguments threads_ok {G} _.
Arguments time_ok {G} _ _ _ _.
Arguments inv {G} _ _ _ _.

Lemma idle_new (a b c d : Z) : idle (LockTester.new a b c d).
Proof. repeat split; vm_compute; discriminate. Qed.

Lemma duration_ms_nonneg (d : Z) : 0 <= d -> 0 <= LockTester.duration_ms d.
Proof. intros H. unfold LockTester.duration_ms. apply Z.quot_pos; lia. Qed.

Lemma duration_ms_neg (d : Z) : d <= - 1000000 -> LockTester.duration_ms d < 0.
Proof.
  intros H. unfold LockTester.duration_ms.
  pose proof (Z.quot_rem' d 1000000) as Hd.
  destruct (Z.rem_bound_pos_neg d 1000000) as [Hr _]; [lia|lia|].
  lia.
Qed.

(** ** The claims about the two tests *)

Section Tests.
Import LockTester.
Variable G : Type.
Variable distribution : Z -> Z -> G -> Z * G.

(** C4 (amended). Whatever the four counts (so for every non-negative
    configuration, zero readers, zero writers, zero reads, zero updates and
    all zero included) and for each of [testSharedMutex] and
    [testStandardMutex] ([st] is either): some schedule takes the call to
    its return; no schedule runs longer than a bound fixed at the start;
    and as long as the call has not returned some thread can move (no
    deadlock). The time the call records under its key is the whole
    milliseconds, rounded toward zero, between two readings of the clock,
    the second taken after the first: it is not negative when the second
    reading is not below the first, and it is negative when the clock has
    gone back by a millisecond or more in between. *)
Theorem tests_terminate (e : env G) (st : strategy) (o : t)
  (Hidle : idle o) :
  (exists sched o', test distribution st e sched o = Some o') /\
  (forall sched s, exec distribution st e sched (init o) = Some s ->
     (length sched <= steps_left (init (G := G) o))%nat) /\
  (forall sched s, exec distribution st e sched (init o) = Some s ->
     finished s = false -> exists w s', step distribution st e w s = Some s') /\
  (forall sched o', test distribution st e sched o = Some o' ->
     exists (t0 t1 : nat) v, (t0 <= t1)%nat /\
       v = Z.quot (now e t1 - now e t0) 1000000 /\
       map_find (time_key st) (times o') = Some v /\
       (now e t0 <= now e t1 -> 0 <= v) /\
       (now e t1 - now e t0 <= - 1000000 -> v < 0)).
Proof.
  split; [apply test_total; assumption|]. split; [|split].
  - intros sched s E. apply exec_length in E. lia.
  - intros sched s E Hfin. eapply progress; [|eassumption].
    eapply exec_inv; [apply inv_init; eassumption|eassumption].
  - intros sched o' E.
    destruct (test_facts _ _ _ _ _ _ _ Hidle E)
      as (_ & _ & _ & t0 & t1 & Hle & Ht).
    exists t0, t1, (duration_ms (now e t1 - now e t0)).
    split; [assumption|]. split; [reflexivity|]. split; [|split].
    + rewrite Ht. apply map_find_assign.
    + intros Hclock. apply duration_ms_nonneg. lia.
    + apply duration_ms_neg.
Qed.

(** C1 (amended). A test adds exactly W×U to the counter, whatever the
    strategy and the interleaving, when W and U are not negative and the
    sum fits an [int]; so a test on a fresh record (counter 0) ends at
    W×U. The counter is not reset between the two tests of a trial. *)
Theorem test_adds_updates (e : env G) (st : strategy) (o : t)
  (Hidle : idle o)
  (HW : 0 <= numWriters o) (HU : 0 <= numUpdates o)
  (Hfit : counter (sharedData o) + numWriters o * numUpdates o <= INT_MAX) :
  (exists sched o', test distribution st e sched o = Some o') /\
  (forall sched o', test distribution st e sched o = Some o' ->
     counter (sharedData o')
     = counter (sharedData o) + numWriters o * numUpdates o).
Proof.
  split; [apply test_total; assumption|].
  intros sched o' E.
  destruct (test_facts _ _ _ _ _ _ _ Hidle E) as (_ & _ & Hc & _).
  rewrite Hc. destruct Hidle as (_ & _ & Hrange).
  rewrite Nat2Z.inj_mul, !Z2Nat.id by assumption.
  apply wrap_int_small. unfold INT_MIN in *. nia.
Qed.

(** C9. The record is not reset between the two tests of a trial: on a
    tester constructed with W writers and U updates (not negative, 2×W×U
    within [int]) the shared-lock test leaves the counter at W×U and the
    exclusive-lock test that follows it leaves it at 2×W×U; this is the
    tester as the body of the loop of [Benchmark::run] leaves it. *)
Theorem counter_accumulates (R W N U : Z) (shared standard : Benchmark.call G)
  (HW : 0 <= W) (HU : 0 <= U) (Hfit : 2 * W * U <= INT_MAX) :
  (exists sched1 sched2 o1 o2,
     testSharedMutex distribution (fst shared) sched1 (new R W N U) = Some o1 /\
     testStandardMutex distribution (fst standard) sched2 o1 = Some o2) /\
  (forall o1 o2,
     testSharedMutex distribution (fst shared) (snd shared) (new R W N U) = Some o1 ->
     testStandardMutex distribution (fst standard) (snd standard) o1 = Some o2 ->
     counter (sharedData o1) = W * U /\ counter (sharedData o2) = 2 * W * U) /\
  (forall tester result,
     Benchmark.run_case distribution shared standard (new R W N U)
     = Some (tester, result) ->
     counter (sharedData tester) = 2 * W * U).
Proof.
  assert (Hboth : forall e1 e2 sched1 sched2 o1 o2,
     testSharedMutex distribution e1 sched1 (new R W N U) = Some o1 ->
     testStandardMutex distribution e2 sched2 o1 = Some o2 ->
     counter (sharedData o1) = W * U /\ counter (sharedData o2) = 2 * W * U).
  { intros e1 e2 sched1 sched2 o1 o2 E1 E2.
    destruct (test_facts _ _ _ _ _ _ _ (idle_new R W N U) E1)
      as ((_ & HnW & _ & HnU) & Hidle1 & Hc1 & _).
    destruct (test_facts _ _ _ _ _ _ _ Hidle1 E2) as (_ & _ & Hc2 & _).
    simpl in *. rewrite HnW, HnU in Hc2.
    rewrite Nat2Z.inj_mul, !Z2Nat.id in * by assumption.
    rewrite wrap_int_small in Hc1 by (unfold INT_MIN, INT_MAX in *; nia).
    rewrite Hc1, wrap_int_small in Hc2 by (unfold INT_MIN, INT_MAX in *; nia).
    split; [assumption|lia]. }
  split; [|split].
  - destruct (test_total G distribution SharedMutex (fst shared) _
                (idle_new R W N U)) as (sched1 & o1 & E1).
    destruct (test_facts _ _ _ _ _ _ _ (idle_new R W N U) E1)
      as (_ & Hidle1 & _).
    destruct (test_total G distribution StandardMutex (fst standard) _ Hidle1)
      as (sched2 & o2 & E2).
    exists sched1, sched2, o1, o2. auto.
  - intros o1 o2. apply Hboth.
  - intros tester result E. unfold Benchmark.run_case in E.
    destruct (testSharedMutex distribution shared.1 shared.2 (new R W N U))
      as [o1|] eqn:E1; simplify_eq/=.
    destruct (testStandardMutex distribution standard.1 standard.2 o1)
      as [o2|] eqn:E2; simplify_eq/=.
    apply (Hboth _ _ _ _ _ _ E1 E2).
Qed.

(** C6 (amended). The constructor checks nothing: for any four integers
    it yields a tester that holds them as given, with a fresh record and
    free locks, and on which each test runs to its return; a negative
    count behaves as zero (the loop over it does not run), so with a
    negative number of writers or of updates the counter stays 0. *)
Theorem constructor_accepts_all (e : env G) (st : strategy) (R W N U : Z) :
  (numReaders (new R W N U) = R /\ numWriters (new R W N U) = W /\
   numReads (new R W N U) = N /\ numUpdates (new R W N U) = U) /\
  idle (new R W N U) /\
  (exists sched o', test distribution st e sched (new R W N U) = Some o') /\
  (forall sched o', test distribution st e sched (new R W N U) = Some o' ->
     counter (sharedData o')
     = wrap_int (Z.max 0 W * Z.max 0 U) /\
     (W < 0 \/ U < 0 -> counter (sharedData o') = 0)).
Proof.
  split; [repeat split|]. split; [apply idle_new|].
  split; [apply test_total, idle_new|].
  intros sched o' E.
  destruct (test_facts _ _ _ _ _ _ _ (idle_new R W N U) E) as (_ & _ & Hc & _).
  simpl in Hc. rewrite Nat2Z.inj_mul in Hc.
  replace (Z.of_nat (Z.to_nat W)) with (Z.max 0 W) in Hc by lia.
  replace (Z.of_nat (Z.to_nat U)) with (Z.max 0 U) in Hc by lia.
  split; [assumption|].
  intros Hneg. rewrite Hc.
  replace (Z.max 0 W * Z.max 0 U) with 0 by nia. reflexivity.
Qed.

End Tests.

(** ** The iterations of a writer *)

Section WriterFacts.
Import LockTester.
Variable G : Type.
Variable distribution : Z -> Z -> G -> Z * G.
Variable st : strategy.
Variable e : env G.

Lemma loop_length (n : N) (g : G) :
  String.length (fst (RandomStringGenerator.loop G distribution n g))
  = N.to_nat n.
Proof.
  unfold RandomStringGenerator.loop.
  assert (H : length (fst (N.iter n (RandomStringGenerator.draw G distribution)
                             ([], g))) = N.to_nat n).
  { apply (N.iter_ind _ (RandomStringGenerator.draw G distribution) ([], g)
             (fun n acc => length (fst acc) = N.to_nat n)); [reflexivity|].
    clear n. intros n [randomString generator] Hlen. simpl in *.
    destruct (distribution 0 (RandomStringGenerator.charsetSize - 1) generator).
    simpl. lia. }
  destruct (N.iter n (RandomStringGenerator.draw G distribution) ([], g))
    as [randomString generator']. simpl in *.
  unfold RandomStringGenerator.contents.
  rewrite string_length_chars, contents_chars, rev_append_rev, app_nil_r.
  rewrite length_rev. assumption.
Qed.

(** Position of a control point in the body of the writer's loop. *)
Definition stage (p : writer_pc) : nat :=
  match p with
  | WLoop _ => 0
  | WLoadCounter _ => 1
  | WStoreCounter _ _ => 2
  | WSetText _ => 3
  | WUnlock _ => 4
  | WDone => 5
  end.

(** [step_at n k w s]: the step that [w] takes in [s] is the one writer [k]
    takes from position [n] of its loop body. *)
Definition step_at (n k : nat) (w : who) (s : run_state G) : bool :=
  match w with
  | Writer j =>
      Nat.eqb j k &&
      match writers s !! k with
      | Some wk => Nat.eqb (stage (wpc wk)) n
      | None => false
      end
  | _ => false
  end.

(** How often writer [k] takes the step of position [n] along a schedule. *)
Fixpoint steps_at (n k : nat) (sched : list who) (s : run_state G) : nat :=
  match sched with
  | [] => O
  | w :: sched' =>
      match step distribution st e w s with
      | Some s' => (Nat.b2n (step_at n k w s) + steps_at n k sched' s')%nat
      | None => O
      end
  end.

(** How often a writer has gone through position [n] so far. *)
Definition passed (n : nat) (nu : Z) (w : writer G) : nat :=
  match wpc w with
  | WLoop i => Z.to_nat i
  | WLoadCounter i => (Z.to_nat i + Nat.b2n (Nat.ltb n 1))%nat
  | WStoreCounter i _ => (Z.to_nat i + Nat.b2n (Nat.ltb n 2))%nat
  | WSetText i => (Z.to_nat i + Nat.b2n (Nat.ltb n 3))%nat
  | WUnlock i => (Z.to_nat i + Nat.b2n (Nat.ltb n 4))%nat
  | WDone => Z.to_nat nu
  end.

Definition passed_at (n k : nat) (s : run_state G) : nat :=
  match writers s !! k with
  | Some w => passed n (numUpdates (this s)) w
  | None => O
  end.

Lemma writer_fn_passed (n : nat) (o o' : t) (c : Z) (w w' : writer G) :
  (1 <= n <= 4)%nat -> writer_ok (numUpdates o) c w ->
  writer_fn G distribution st o w = Some (o', w') ->
  passed n (numUpdates o) w'
  = (passed n (numUpdates o) w + Nat.b2n (Nat.eqb (stage (wpc w)) n))%nat.
Proof.
  intros Hn Hok E. destruct w as [p g]. unfold writer_ok, passed in *.
  destruct st, p; revert E;
    unfold writer_fn, writerSharedLock, writerStandardLock, writer_body;
    rewrite ?generate_payload;
    generalize (RandomStringGenerator.loop G distribution payload_length);
    intros gen E; simpl in *;
    repeat case_match; simplify_option_eq; simpl.
  all: repeat match goal with
         | |- context [Nat.ltb ?a ?b] => destruct (Nat.ltb_spec a b)
         | |- context [Nat.eqb ?a ?b] => destruct (Nat.eqb_spec a b)
         | H : (_ <? _) = false |- _ => apply Z.ltb_ge in H
         end; simpl; try lia.
Qed.

Lemma main_step_writers (s s1 : run_state G) :
  main_step G st e s = Some s1 ->
  numUpdates (this s1) = numUpdates (this s) /\
  (writers s1 = writers s \/
   exists g, writers s1 = writers s ++ [{| wpc := WLoop 0; generator := g |}]).
Proof.
  unfold main_step. intros E.
  destruct (pc s); repeat case_match; simplify_eq/=; eauto.
Qed.

Lemma step_passed (n k : nat) (o0 : t) (w : who) (s s' : run_state G) :
  (1 <= n <= 4)%nat -> inv st e o0 s ->
  step distribution st e w s = Some s' ->
  passed_at n k s' = (passed_at n k s + Nat.b2n (step_at n k w s))%nat.
Proof.
  intros Hn Hinv. unfold step, passed_at, step_at.
  destruct w as [|j|j]; simpl; intros H.
  - destruct (main_step G st e s) as [s1|] eqn:E; simplify_eq/=.
    destruct (main_step_writers _ _ E) as [-> [-> | [g ->]]]; [lia|].
    destruct (writers s !! k) as [wk|] eqn:Hk.
    + rewrite (lookup_app_l_Some _ _ _ _ Hk). lia.
    + apply lookup_ge_None in Hk.
      destruct (decide (k = length (writers s))) as [->|Hne].
      * rewrite list_lookup_middle by reflexivity. reflexivity.
      * rewrite lookup_ge_None_2; [reflexivity|].
        rewrite length_app. simpl. lia.
  - destruct (readers s !! j) as [r|] eqn:Hr; simplify_eq/=.
    destruct (reader_fn st (this s) r) as [[o r']|] eqn:E; simplify_eq/=.
    destruct (reader_fn_left _ _ _ _ _ E) as ((_ & _ & _ & ->) & _). lia.
  - destruct (writers s !! j) as [wj|] eqn:Hj; simplify_eq/=.
    destruct (writer_fn G distribution st (this s) wj) as [[o wj']|] eqn:E;
      simplify_eq/=.
    destruct (writer_fn_left _ _ _ _ _ _ _ E) as ((_ & _ & _ & HnU) & _).
    rewrite HnU. destruct (Nat.eqb_spec j k) as [->|Hne]; simpl.
    + rewrite list_lookup_insert_eq by (eapply lookup_lt_Some; eauto).
      rewrite Hj. eapply writer_fn_passed; eauto.
      eapply inv_writers; eauto.
    + rewrite list_lookup_insert_ne by assumption.
      destruct (writers s !! k); lia.
Qed.

Lemma exec_passed (n k : nat) (o0 : t) (sched : list who) (s s' : run_state G) :
  (1 <= n <= 4)%nat -> inv st e o0 s ->
  exec distribution st e sched s = Some s' ->
  passed_at n k s' = (passed_at n k s + steps_at n k sched s)%nat.
Proof.
  intros Hn. revert s.
  induction sched as [|w sched IH]; intros s Hinv H; simpl in *.
  - simplify_eq. lia.
  - destruct (step distribution st e w s) as [s1|] eqn:E; simplify_eq/=.
    rewrite (IH s1); [|eapply step_inv; eauto|assumption].
    rewrite (step_passed n k o0 w s s1 Hn Hinv E). lia.
Qed.

(** The lock of the running test is held in exclusive mode by writer [k]:
    nobody else is between taking and releasing it. *)
Definition holds_exclusively (k : nat) (s : run_state G) : Prop :=
  match st with
  | SharedMutex =>
      sharedMutex (this s)
      = {| shared_mutex.writer := true; shared_mutex.readers := O |}
  | StandardMutex => standardMutex (this s) = true
  end /\
  (forall j r, readers s !! j = Some r -> reader_in_cs r = false) /\
  (forall j w, j <> k -> writers s !! j = Some w -> writer_in_cs w = false).

Lemma writer_inside_exclusive (o0 : t) (s : run_state G) (k : nat) (w : writer G) :
  inv st e o0 s -> writers s !! k = Some w -> writer_in_cs w = true ->
  holds_exclusively k s.
Proof.
  intros Hinv Hk Hin. pose proof (inv_locks _ _ _ _ _ Hinv) as Hl.
  pose proof (wcs_le_1 _ _ _ _ _ Hl) as Hle.
  assert (Hpos : (0 < Nat.b2n (writer_in_cs w))%nat)
    by (rewrite Hin; simpl; lia).
  assert (Hone : wcs (writers s) = 1%nat).
  { pose proof (sum_list_with_in _ (fun w => Nat.b2n (writer_in_cs w)) _
                  (list_elem_of_lookup_2 _ _ _ Hk)) as H.
    unfold wcs in *. simpl in H. lia. }
  assert (Hrs : rcs (readers s) = O).
  { unfold locks_ok in Hl. rewrite Hone in Hl. destruct st; lock_arith. }
  unfold holds_exclusively. split; [|split].
  - unfold locks_ok in Hl. rewrite Hone in Hl. rewrite Hrs in Hl.
    destruct st.
    + destruct (sharedMutex (this s)) as [b m]. simpl in *.
      destruct Hl as (Hb & Hm & _). destruct b; [|discriminate].
      subst m. reflexivity.
    + destruct Hl as [Hb _]. destruct (standardMutex (this s)); auto.
      discriminate.
  - intros j r Hj.
    pose proof (sum_list_with_zero _ _ _ _ Hrs Hj) as H. simpl in H.
    destruct (reader_in_cs r); [discriminate|reflexivity].
  - intros j wj Hjk Hj.
    pose proof (sum_list_with_one (fun w => Nat.b2n (writer_in_cs w))
                  _ j k w wj Hle Hk Hpos Hjk Hj) as H. simpl in H.
    destruct (writer_in_cs wj); [discriminate|reflexivity].
Qed.

(** C7. In a run of either test ([st] is either) on an object between two
    tests: every writer thread goes exactly [numUpdates] times through
    each step of its loop body (the load and the store of [counter++], the
    assignment of the text, the release), whatever the schedule; whenever
    a writer is about to store, it holds the lock exclusively and the
    store leaves the counter one above its value of that moment; whenever
    it is about to assign the text, it holds the lock exclusively and the
    text becomes the string just generated from its own engine, exactly
    100000 characters long. *)
Theorem writer_iterations (o : t) (Hidle : idle o) :
  (exists sched s,
     exec distribution st e sched (init o) = Some s /\ finished s = true) /\
  (forall sched s,
     exec distribution st e sched (init o) = Some s -> finished s = true ->
     length (writers s) = Z.to_nat (numWriters o) /\
     forall k n, (k < Z.to_nat (numWriters o))%nat -> (1 <= n <= 4)%nat ->
       steps_at n k sched (init o) = Z.to_nat (numUpdates o)) /\
  (forall sched s k w i tmp,
     exec distribution st e sched (init o) = Some s ->
     writers s !! k = Some w -> wpc w = WStoreCounter i tmp ->
     holds_exclusively k s /\
     exists s', step distribution st e (Writer k) s = Some s' /\
       wpc <$> writers s' !! k = Some (WSetText i) /\
       counter (sharedData (this s'))
       = wrap_int (counter (sharedData (this s)) + 1) /\
       (counter (sharedData (this s)) < INT_MAX ->
        counter (sharedData (this s')) = counter (sharedData (this s)) + 1)) /\
  (forall sched s k w i,
     exec distribution st e sched (init o) = Some s ->
     writers s !! k = Some w -> wpc w = WSetText i ->
     holds_exclusively k s /\
     exists s', step distribution st e (Writer k) s = Some s' /\
       wpc <$> writers s' !! k = Some (WUnlock i) /\
       fst <$> RandomStringGenerator.generate G distribution
                 basic_string.granted payload_length (generator w)
       = Some (text (sharedData (this s'))) /\
       String.length (text (sharedData (this s'))) = N.to_nat payload_length /\
       payload_length = 100000%N /\
       counter (sharedData (this s')) = counter (sharedData (this s))).
Proof.
  pose proof (inv_init G st e o Hidle) as Hinit.
  split; [|split; [|split]].
  - apply (run_completes G distribution st e o _ (init o) Hinit (Nat.le_refl _)).
  - intros sched s E Hfin.
    pose proof (exec_inv _ _ _ _ _ _ _ _ Hinit E) as Hinv.
    pose proof (inv_threads _ _ _ _ _ Hinv) as Hth.
    pose proof (inv_config _ _ _ _ _ Hinv) as (_ & HnW & _ & HnU).
    unfold threads_ok, finished in *.
    destruct (pc s); try discriminate. destruct Hth as (Hlen & _ & Hdone).
    rewrite HnW in Hlen. split; [assumption|]. intros k n Hk Hn.
    pose proof (exec_passed n k o sched _ _ Hn Hinit E) as Hp.
    unfold passed_at in Hp. simpl in Hp.
    destruct (writers s !! k) as [w|] eqn:Hw.
    + unfold passed in Hp. rewrite (Hdone k w) in Hp; [|lia|assumption].
      rewrite HnU in Hp. lia.
    + apply lookup_ge_None in Hw. lia.
  - intros sched s k w i tmp E Hk Hpc.
    pose proof (exec_inv _ _ _ _ _ _ _ _ Hinit E) as Hinv.
    split.
    { eapply writer_inside_exclusive; eauto.
      unfold writer_in_cs. rewrite Hpc. reflexivity. }
    pose proof (inv_writers _ _ _ _ _ Hinv k w Hk) as Hok.
    pose proof (inv_counter _ _ _ _ _ Hinv) as Hc.
    unfold writer_ok in Hok. rewrite Hpc in Hok. destruct Hok as [_ ->].
    destruct w as [p g]. simpl in Hpc. subst p.
    unfold step. simpl. rewrite Hk. simpl.
    assert (Hfn : writer_fn G distribution st (this s)
                    {| wpc := WStoreCounter i (counter (sharedData (this s)));
                       generator := g |}
                  = Some (with_sharedData
                            {| counter := wrap_int (counter (sharedData (this s)) + 1);
                               text := text (sharedData (this s)) |} (this s),
                          {| wpc := WSetText i; generator := g |}))
      by (destruct st; reflexivity).
    rewrite Hfn. simpl. eexists. split; [reflexivity|]. simpl.
    rewrite list_lookup_insert_eq by (eapply lookup_lt_Some; eauto).
    split; [reflexivity|]. split; [reflexivity|].
    intros Hmax. apply wrap_int_small.
    rewrite Hc in *. pose proof (wrap_int_range
      (counter (sharedData o)
       + Z.of_nat (sum_list_with (writer_incs (numUpdates (this s))) (writers s)))).
    unfold INT_MIN, INT_MAX in *. lia.
  - intros sched s k w i E Hk Hpc.
    pose proof (exec_inv _ _ _ _ _ _ _ _ Hinit E) as Hinv.
    split.
    { eapply writer_inside_exclusive; eauto.
      unfold writer_in_cs. rewrite Hpc. reflexivity. }
    destruct w as [p g]. simpl in Hpc. subst p.
    unfold step. simpl. rewrite Hk. simpl.
    assert (Hfn : writer_fn G distribution st (this s)
                    {| wpc := WSetText i; generator := g |}
                  = writer_body G distribution (this s)
                      {| wpc := WSetText i; generator := g |})
      by (destruct st; reflexivity).
    rewrite Hfn. unfold writer_body. simpl. rewrite generate_payload. simpl.
    pose proof (loop_length payload_length g) as Hlen.
    destruct (RandomStringGenerator.loop G distribution payload_length g)
      as [payload g']. simpl in *.
    eexists. split; [reflexivity|]. simpl.
    rewrite list_lookup_insert_eq by (eapply lookup_lt_Some; eauto).
    repeat split; assumption.
Qed.

End WriterFacts.

Arguments steps_at {G} _ _ _ _ _ _ _.
Arguments holds_exclusively {G} _ _ _.

(** ** The claims on concrete runs *)

Lemma tests_terminate_witness :
  idle (LockTester.new 2 1 3 4) /\
  ((exists sched o',
      LockTester.test Example.cyclic LockTester.StandardMutex Example.env sched
        (LockTester.new 2 1 3 4) = Some o') /\
   (forall sched s,
      LockTester.exec Example.cyclic LockTester.StandardMutex Example.env sched
        (LockTester.init (LockTester.new 2 1 3 4)) = Some s ->
      (length sched
       <= steps_left (LockTester.init (G := Z) (LockTester.new 2 1 3 4)))%nat) /\
   (forall sched s,
      LockTester.exec Example.cyclic LockTester.StandardMutex Example.env sched
        (LockTester.init (LockTester.new 2 1 3 4)) = Some s ->
      LockTester.finished s = false ->
      exists w s',
        LockTester.step Example.cyclic LockTester.StandardMutex Example.env w s
        = Some s') /\
   (forall sched o',
      LockTester.test Example.cyclic LockTester.StandardMutex Example.env sched
        (LockTester.new 2 1 3 4) = Some o' ->
      exists (t0 t1 : nat) v, (t0 <= t1)%nat /\
        v = Z.quot (LockTester.now Example.env t1 - LockTester.now Example.env t0)
              1000000 /\
        map_find (LockTester.time_key LockTester.StandardMutex)
          (LockTester.times o') = Some v /\
        (LockTester.now Example.env t0 <= LockTester.now Example.env t1 ->
         0 <= v) /\
        (LockTester.now Example.env t1 - LockTester.now Example.env t0
         <= - 1000000 -> v < 0))).
Proof.
  split; [apply idle_new|].
  apply (tests_terminate Z Example.cyclic Example.env LockTester.StandardMutex
           (LockTester.new 2 1 3 4) (idle_new 2 1 3 4)).
Defined.

(** C4, as stated, fails on the recorded value when the clock is not
    steady: with one writer and one update, on a clock that goes back a
    millisecond at every step, each test returns and records -13 ms. *)
Lemma negative_time_recorded :
  (fun o => map_find "Shared Mutex Time" (LockTester.times o)) <$>
    LockTester.testSharedMutex Example.cyclic Example.backwards
      (Example.one_writer 1) (LockTester.new 0 1 0 1) = Some (Some (-13)) /\
  (fun o => map_find "Standard Mutex Time" (LockTester.times o)) <$>
    LockTester.testStandardMutex Example.cyclic Example.backwards
      (Example.one_writer 1) (LockTester.new 0 1 0 1) = Some (Some (-13)) /\
  -13 < 0.
Proof. split; [|split]; [vm_compute; reflexivity..|lia]. Qed.

Lemma test_adds_updates_witness :
  idle (LockTester.new 0 1 0 5) /\ 0 <= 1 /\ 0 <= 5 /\ 0 + 1 * 5 <= INT_MAX /\
  ((exists sched o',
      LockTester.test Example.cyclic LockTester.SharedMutex Example.env sched
        (LockTester.new 0 1 0 5) = Some o') /\
   (forall sched o',
      LockTester.test Example.cyclic LockTester.SharedMutex Example.env sched
        (LockTester.new 0 1 0 5) = Some o' ->
      counter (LockTester.sharedData o') = 0 + 1 * 5)).
Proof.
  split; [apply idle_new|]. split; [lia|]. split; [lia|].
  split; [vm_compute; discriminate|].
  apply (test_adds_updates Z Example.cyclic Example.env LockTester.SharedMutex
           (LockTester.new 0 1 0 5) (idle_new 0 1 0 5)).
  - simpl. lia.
  - simpl. lia.
  - vm_compute. discriminate.
Defined.

(** C1, as stated, fails on the second test of a trial: with one writer and
    five updates the counter is 5 after the shared-lock test and 10, not 5,
    after the exclusive-lock test that [run] calls next on the same
    tester. *)
Lemma counter_not_reset :
  (fun o => counter (LockTester.sharedData o)) <$>
    LockTester.testSharedMutex Example.cyclic Example.env (Example.one_writer 5)
      (LockTester.new 0 1 0 5) = Some 5 /\
  (fun o => counter (LockTester.sharedData o)) <$>
    (LockTester.testSharedMutex Example.cyclic Example.env (Example.one_writer 5)
       (LockTester.new 0 1 0 5)
     ≫= LockTester.testStandardMutex Example.cyclic Example.env
          (Example.one_writer 5)) = Some 10 /\
  10 <> 1 * 5.
Proof. split; [|split]; [vm_compute; reflexivity..|lia]. Qed.

Lemma counter_accumulates_witness :
  0 <= 1 /\ 0 <= 5 /\ 2 * 1 * 5 <= INT_MAX /\
  ((exists sched1 sched2 o1 o2,
      LockTester.testSharedMutex Example.cyclic Example.env sched1
        (LockTester.new 0 1 0 5) = Some o1 /\
      LockTester.testStandardMutex Example.cyclic Example.env sched2 o1
      = Some o2) /\
   (forall o1 o2,
      LockTester.testSharedMutex Example.cyclic Example.env
        (Example.one_writer 5) (LockTester.new 0 1 0 5) = Some o1 ->
      LockTester.testStandardMutex Example.cyclic Example.env
        (Example.one_writer 5) o1 = Some o2 ->
      counter (LockTester.sharedData o1) = 1 * 5 /\
      counter (LockTester.sharedData o2) = 2 * 1 * 5) /\
   (forall tester result,
      Benchmark.run_case Example.cyclic
        (Example.env, Example.one_writer 5) (Example.env, Example.one_writer 5)
        (LockTester.new 0 1 0 5) = Some (tester, result) ->
      counter (LockTester.sharedData tester) = 2 * 1 * 5)).
Proof.
  split; [lia|]. split; [lia|]. split; [vm_compute; discriminate|].
  apply (counter_accumulates Z Example.cyclic 0 1 0 5
           (Example.env, Example.one_writer 5)
           (Example.env, Example.one_writer 5)); [lia|lia|].
  vm_compute. discriminate.
Defined.

(** C6, as stated, fails: a tester constructed with four negative counts
    exists, holds them, and both tests run on it to their return. *)
Lemma negative_counts_accepted :
  LockTester.numReaders (LockTester.new (-1) (-2) (-3) (-4)) = -1 /\
  LockTester.numWriters (LockTester.new (-1) (-2) (-3) (-4)) = -2 /\
  LockTester.numReads (LockTester.new (-1) (-2) (-3) (-4)) = -3 /\
  LockTester.numUpdates (LockTester.new (-1) (-2) (-3) (-4)) = -4 /\
  (fun o => (counter (LockTester.sharedData o), fst <$> LockTester.times o)) <$>
    (LockTester.testSharedMutex Example.cyclic Example.env Example.no_thread
       (LockTester.new (-1) (-2) (-3) (-4))
     ≫= LockTester.testStandardMutex Example.cyclic Example.env
          Example.no_thread)
  = Some (0, ["Shared Mutex Time"%string; "Standard Mutex Time"%string]).
Proof. repeat split. Qed.

Lemma writer_iterations_witness :
  idle (LockTester.new 0 1 0 5) /\
  ((exists sched s,
      LockTester.exec Example.cyclic LockTester.SharedMutex Example.env sched
        (LockTester.init (LockTester.new 0 1 0 5)) = Some s /\
      LockTester.finished s = true) /\
   (forall sched s,
      LockTester.exec Example.cyclic LockTester.SharedMutex Example.env sched
        (LockTester.init (LockTester.new 0 1 0 5)) = Some s ->
      LockTester.finished s = true ->
      length (LockTester.writers s)
      = Z.to_nat (LockTester.numWriters (LockTester.new 0 1 0 5)) /\
      forall k n,
        (k < Z.to_nat (LockTester.numWriters (LockTester.new 0 1 0 5)))%nat ->
        (1 <= n <= 4)%nat ->
        steps_at Example.cyclic LockTester.SharedMutex Example.env n k sched
          (LockTester.init (LockTester.new 0 1 0 5))
        = Z.to_nat (LockTester.numUpdates (LockTester.new 0 1 0 5))) /\
   (forall sched s k w i tmp,
      LockTester.exec Example.cyclic LockTester.SharedMutex Example.env sched
        (LockTester.init (LockTester.new 0 1 0 5)) = Some s ->
      LockTester.writers s !! k = Some w ->
      LockTester.wpc w = LockTester.WStoreCounter i tmp ->
      holds_exclusively LockTester.SharedMutex k s /\
      exists s',
        LockTester.step Example.cyclic LockTester.SharedMutex Example.env
          (LockTester.Writer k) s = Some s' /\
        LockTester.wpc <$> LockTester.writers s' !! k
        = Some (LockTester.WSetText i) /\
        counter (LockTester.sharedData (LockTester.this s'))
        = wrap_int (counter (LockTester.sharedData (LockTester.this s)) + 1) /\
        (counter (LockTester.sharedData (LockTester.this s)) < INT_MAX ->
         counter (LockTester.sharedData (LockTester.this s'))
         = counter (LockTester.sharedData (LockTester.this s)) + 1)) /\
   (forall sched s k w i,
      LockTester.exec Example.cyclic LockTester.SharedMutex Example.env sched
        (LockTester.init (LockTester.new 0 1 0 5)) = Some s ->
      LockTester.writers s !! k = Some w ->
      LockTester.wpc w = LockTester.WSetText i ->
      holds_exclusively LockTester.SharedMutex k s /\
      exists s',
        LockTester.step Example.cyclic LockTester.SharedMutex Example.env
          (LockTester.Writer k) s = Some s' /\
        LockTester.wpc <$> LockTester.writers s' !! k
        = Some (LockTester.WUnlock i) /\
        fst <$> RandomStringGenerator.generate Z Example.cyclic
                  basic_string.granted LockTester.payload_length
                  (LockTester.generator w)
        = Some (text (LockTester.sharedData (LockTester.this s'))) /\
        String.length (text (LockTester.sharedData (LockTester.this s')))
        = N.to_nat LockTester.payload_length /\
        LockTester.payload_length = 100000%N /\
        counter (LockTester.sharedData (LockTester.this s'))
        = counter (LockTester.sharedData (LockTester.this s)))).
Proof.
  split; [apply idle_new|].
  apply (writer_iterations Z Example.cyclic LockTester.SharedMutex Example.env
           (LockTester.new 0 1 0 5) (idle_new 0 1 0 5)).
Defined.

(** ** Benchmark: run *)

(** A configuration: readers, writers, reads, updates. *)
Definition config : Type := Z * Z * Z * Z.

Definition tester_of (c : config) : LockTester.t :=
  let '(R, W, N, U) := c in LockTester.new R W N U.

(** [Benchmark().addTestCase(..)...addTestCase(..)], one call for each
    configuration, in order. *)
Definition added (cfgs : list config) : Benchmark.t :=
  fold_left (fun b c => let '(R, W, N, U) := c in Benchmark.addTestCase R W N U b)
    cfgs Benchmark.new.

Lemma added_testCases (cfgs : list config) :
  Benchmark.testCases (added cfgs) = tester_of <$> cfgs /\
  Benchmark.results (added cfgs) = [].
Proof.
  unfold added.
  assert (H : forall b,
    Benchmark.testCases
      (fold_left (fun b c => let '(R, W, N, U) := c in
                             Benchmark.addTestCase R W N U b) cfgs b)
    = Benchmark.testCases b ++ (tester_of <$> cfgs) /\
    Benchmark.results
      (fold_left (fun b c => let '(R, W, N, U) := c in
                             Benchmark.addTestCase R W N U b) cfgs b)
    = Benchmark.results b).
  { induction cfgs as [|[[[R W] N] U] cfgs IH]; intros b; simpl.
    - rewrite app_nil_r. auto.
    - destruct (IH (Benchmark.addTestCase R W N U b)) as [-> ->]. simpl.
      rewrite <- app_assoc. auto. }
  apply (H Benchmark.new).
Qed.

Section BenchmarkFacts.
Variable G : Type.
Variable distribution : Z -> Z -> G -> Z * G.

(** What the body of the loop of [run] yields for a tester that has not
    run yet: the shared-lock test, then the exclusive-lock test on the
    object the first one left, and the result built from the second. *)
Definition case_result (shared standard : Benchmark.call G) (c : config)
  (r : Benchmark.Result) : Prop :=
  exists o1 o2 v1 v2,
    LockTester.testSharedMutex distribution (fst shared) (snd shared)
      (tester_of c) = Some o1 /\
    LockTester.testStandardMutex distribution (fst standard) (snd standard) o1
    = Some o2 /\
    LockTester.times o1 = [("Shared Mutex Time"%string, v1)] /\
    LockTester.times o2
    = [("Shared Mutex Time"%string, v1); ("Standard Mutex Time"%string, v2)] /\
    r = {| Benchmark.times := LockTester.times o2;
           Benchmark.numReaders := fst (fst (fst c));
           Benchmark.numWriters := snd (fst (fst c));
           Benchmark.numReads := snd (fst c);
           Benchmark.numUpdates := snd c |}.

Lemma run_case_result (shared standard : Benchmark.call G) (c : config)
  (tester : LockTester.t) (r : Benchmark.Result) :
  Benchmark.run_case distribution shared standard (tester_of c)
  = Some (tester, r) ->
  case_result shared standard c r.
Proof.
  unfold Benchmark.run_case, case_result. intros E.
  destruct c as [[[R W] N] U]. simpl in *.
  destruct (LockTester.testSharedMutex distribution shared.1 shared.2
              (LockTester.new R W N U)) as [o1|] eqn:E1; simplify_eq/=.
  destruct (LockTester.testStandardMutex distribution standard.1 standard.2 o1)
    as [o2|] eqn:E2; simplify_eq/=.
  destruct (test_facts _ _ _ _ _ _ _ (idle_new R W N U) E1)
    as ((H1 & H2 & H3 & H4) & Hidle1 & _ & ta & tb & _ & Ht1).
  destruct (test_facts _ _ _ _ _ _ _ Hidle1 E2)
    as ((H1' & H2' & H3' & H4') & _ & _ & tc & td & _ & Ht2).
  simpl in *. rewrite Ht1 in Ht2. simpl in Ht2.
  eexists o1, o2, _, _. repeat split; try eassumption.
  f_equal; congruence.
Qed.

Lemma run_loop_results (cfgs : list config) :
  forall calls results testCases' results',
    Benchmark.run_loop distribution calls (tester_of <$> cfgs) results
    = Some (testCases', results') ->
    exists rs, results' = results ++ rs /\ length rs = length cfgs /\
      forall i c, cfgs !! i = Some c ->
        exists shared standard r,
          calls !! i = Some (shared, standard) /\ rs !! i = Some r /\
          case_result shared standard c r.
Proof.
  induction cfgs as [|c cfgs IH]; intros calls results testCases' results' E;
    simpl in E.
  - simplify_eq. exists []. rewrite app_nil_r. repeat split. intros i c Hi.
    discriminate.
  - destruct calls as [|[shared standard] calls]; [discriminate|].
    destruct (Benchmark.run_case distribution shared standard (tester_of c))
      as [[tester r]|] eqn:E1; simplify_eq/=.
    destruct (Benchmark.run_loop distribution calls (tester_of <$> cfgs)
                (results ++ [r])) as [[rest rs']|] eqn:E2; simplify_eq/=.
    destruct (IH _ _ _ _ E2) as (rs & -> & Hlen & Hall).
    exists (r :: rs). rewrite <- app_assoc. simpl.
    split; [reflexivity|]. split; [lia|].
    intros [|i] c' Hi; simpl in *.
    + simplify_eq. exists shared, standard, r. repeat split.
      eapply run_case_result; eauto.
    + apply Hall. assumption.
Qed.

Lemma run_loop_total (e : LockTester.env G) (cfgs : list config) :
  forall results, exists calls out,
    Benchmark.run_loop distribution calls (tester_of <$> cfgs) results
    = Some out.
Proof.
  induction cfgs as [|c cfgs IH]; intros results; simpl.
  - exists [], ([], results). reflexivity.
  - destruct c as [[[R W] N] U]. simpl.
    destruct (test_total G distribution LockTester.SharedMutex e _
                (idle_new R W N U)) as (sched1 & o1 & E1).
    destruct (test_facts _ _ _ _ _ _ _ (idle_new R W N U) E1)
      as (_ & Hidle1 & _).
    destruct (test_total G distribution LockTester.StandardMutex e _ Hidle1)
      as (sched2 & o2 & E2).
    set (r := {| Benchmark.times := LockTester.times o2;
                 Benchmark.numReaders := LockTester.numReaders o2;
                 Benchmark.numWriters := LockTester.numWriters o2;
                 Benchmark.numReads := LockTester.numReads o2;
                 Benchmark.numUpdates := LockTester.numUpdates o2 |}).
    destruct (IH (results ++ [r])) as (calls & [rest rs'] & E).
    subst r. exists (((e, sched1), (e, sched2)) :: calls). eexists.
    unfold Benchmark.run_case. simpl.
    unfold LockTester.testSharedMutex, LockTester.testStandardMutex in *.
    rewrite E1. simpl. rewrite E2. simpl.
    change (list_fmap config LockTester.t tester_of cfgs)
      with (tester_of <$> cfgs).
    rewrite E. simpl. reflexivity.
Qed.

(** The same with the tester the body leaves in [testCases]: the object
    as the exclusive-lock test left it, its map moved out. *)
Definition case_outcome (shared standard : Benchmark.call G) (c : config)
  (tester' : LockTester.t) (r : Benchmark.Result) : Prop :=
  exists o1 o2 v1 v2,
    LockTester.testSharedMutex distribution (fst shared) (snd shared)
      (tester_of c) = Some o1 /\
    LockTester.testStandardMutex distribution (fst standard) (snd standard) o1
    = Some o2 /\
    LockTester.times o1 = [("Shared Mutex Time"%string, v1)] /\
    LockTester.times o2
    = [("Shared Mutex Time"%string, v1); ("Standard Mutex Time"%string, v2)] /\
    tester' = LockTester.with_times [] o2 /\
    r = {| Benchmark.times := LockTester.times o2;
           Benchmark.numReaders := fst (fst (fst c));
           Benchmark.numWriters := snd (fst (fst c));
           Benchmark.numReads := snd (fst c);
           Benchmark.numUpdates := snd c |}.

Lemma run_case_outcome (shared standard : Benchmark.call G) (c : config)
  (tester : LockTester.t) (r : Benchmark.Result) :
  Benchmark.run_case distribution shared standard (tester_of c)
  = Some (tester, r) ->
  case_outcome shared standard c tester r.
Proof.
  intros E. destruct (run_case_result _ _ _ _ _ E)
    as (o1 & o2 & v1 & v2 & E1 & E2 & Ht1 & Ht2 & Hr).
  exists o1, o2, v1, v2. repeat split; try assumption.
  unfold Benchmark.run_case in E. rewrite E1 in E. simpl in E.
  rewrite E2 in E. simpl in E. simplify_eq. reflexivity.
Qed.

Lemma run_loop_outcomes (cfgs : list config) :
  forall calls results testCases' results',
    Benchmark.run_loop distribution calls (tester_of <$> cfgs) results
    = Some (testCases', results') ->
    exists rs, results' = results ++ rs /\ length rs = length cfgs /\
      length testCases' = length cfgs /\
      forall i c, cfgs !! i = Some c ->
        exists shared standard tester' r,
          calls !! i = Some (shared, standard) /\
          testCases' !! i = Some tester' /\ rs !! i = Some r /\
          case_outcome shared standard c tester' r.
Proof.
  induction cfgs as [|c cfgs IH]; intros calls results testCases' results' E;
    simpl in E.
  - simplify_eq. exists []. rewrite app_nil_r. repeat split. intros i c Hi.
    discriminate.
  - destruct calls as [|[shared standard] calls]; [discriminate|].
    destruct (Benchmark.run_case distribution shared standard (tester_of c))
      as [[tester r]|] eqn:E1; simplify_eq/=.
    destruct (Benchmark.run_loop distribution calls (tester_of <$> cfgs)
                (results ++ [r])) as [[rest rs']|] eqn:E2; simplify_eq/=.
    destruct (IH _ _ _ _ E2) as (rs & -> & Hlen & Hlen' & Hall).
    exists (r :: rs). rewrite <- app_assoc. simpl.
    split; [reflexivity|]. split; [lia|]. split; [lia|].
    intros [|i] c' Hi; simpl in *.
    + simplify_eq. exists shared, standard, tester, r. repeat split.
      eapply run_case_outcome; eauto.
    + apply Hall. assumption.
Qed.

(** C3. [run] on a benchmark built by [addTestCase] alone can run to its
    end, and whenever it does there are one result and one tester for each
    configuration, the i-th for the i-th configuration added, and for
    each: the shared-lock test ran first, on the new tester of that
    configuration, and the exclusive-lock test ran second, on the object
    as the first had left it (the time of the first is already in the map
    when the second starts); the result holds the four counts of the
    configuration and the map the second test ended with, in which exactly
    the two keys "Shared Mutex Time" and "Standard Mutex Time" are
    present; and the tester left in [testCases] is the object as the
    exclusive-lock test left it, its map moved out. *)
Theorem run_in_order (cfgs : list config) :
  (forall e : LockTester.env G, exists calls b',
     Benchmark.run distribution calls (added cfgs) = Some b') /\
  (forall calls b',
     Benchmark.run distribution calls (added cfgs) = Some b' ->
     length (Benchmark.results b') = length cfgs /\
     length (Benchmark.testCases b') = length cfgs /\
     forall i c, cfgs !! i = Some c ->
       exists shared standard o1 o2 v1 v2 r,
         calls !! i = Some (shared, standard) /\
         LockTester.testSharedMutex distribution (fst shared) (snd shared)
           (tester_of c) = Some o1 /\
         LockTester.testStandardMutex distribution (fst standard)
           (snd standard) o1 = Some o2 /\
         LockTester.times o1 = [("Shared Mutex Time"%string, v1)] /\
         LockTester.times o2
         = [("Shared Mutex Time"%string, v1);
            ("Standard Mutex Time"%string, v2)] /\
         Benchmark.testCases b' !! i = Some (LockTester.with_times [] o2) /\
         Benchmark.results b' !! i = Some r /\
         Benchmark.times r = LockTester.times o2 /\
         fst <$> Benchmark.times r
         = ["Shared Mutex Time"%string; "Standard Mutex Time"%string] /\
         (Benchmark.numReaders r, Benchmark.numWriters r,
          Benchmark.numReads r, Benchmark.numUpdates r) = c).
Proof.
  destruct (added_testCases cfgs) as [Htc Hres]. split.
  - intros e. destruct (run_loop_total e cfgs []) as (calls & [tcs rs] & E).
    exists calls. eexists. unfold Benchmark.run. rewrite Htc, Hres, E.
    reflexivity.
  - intros calls b' E. unfold Benchmark.run in E. rewrite Htc, Hres in E.
    destruct (Benchmark.run_loop distribution calls (tester_of <$> cfgs) [])
      as [[tcs rs']|] eqn:E1; simplify_eq/=.
    destruct (run_loop_outcomes _ _ _ _ _ E1) as (rs & -> & Hlen & Hlen' & Hall).
    simpl. split; [assumption|]. split; [assumption|]. intros i c Hi.
    destruct (Hall i c Hi)
      as (shared & standard & tester' & r & Hc & Htester & Hr & Hcase).
    destruct Hcase as (o1 & o2 & v1 & v2 & E2 & E3 & Ht1 & Ht2 & -> & ->).
    exists shared, standard, o1, o2, v1, v2. eexists.
    split; [exact Hc|]. split; [exact E2|]. split; [exact E3|].
    split; [exact Ht1|]. split; [exact Ht2|]. split; [exact Htester|].
    split; [exact Hr|]. simpl. split; [reflexivity|].
    split; [rewrite Ht2; reflexivity|].
    destruct c as [[[R W] N] U]. reflexivity.
Qed.

End BenchmarkFacts.

(** The order of the two tests shows in the tester that [run] leaves. With
    one writer and one update, the engine of the shared-lock test starting
    at 'a' and that of the exclusive-lock test at 'h', the text left
    begins with 'h': it is the payload of the exclusive-lock test, which
    ran last. *)
Lemma run_leaves_last_text :
  (fun b => (fun o => String.get 0 (text (LockTester.sharedData o)))
            <$> Benchmark.testCases b)
  <$> Benchmark.run Example.cyclic
        [((Example.env, Example.one_writer 1),
          (Example.later, Example.one_writer 1))]
        (added [(0, 1, 0, 1)])
  = Some [Some "h"%char] /\
  String.get 0 <$> (fst <$> RandomStringGenerator.generate Z Example.cyclic
                              basic_string.granted LockTester.payload_length
                              (LockTester.seed Example.env 0))
  = Some (Some "a"%char) /\
  String.get 0 <$> (fst <$> RandomStringGenerator.generate Z Example.cyclic
                              basic_string.granted LockTester.payload_length
                              (LockTester.seed Example.later 0))
  = Some (Some "h"%char).
Proof. split; [|split]; vm_compute; reflexivity. Qed.

Arguments case_result {G} _ _ _ _ _.

(** ** Benchmark: the table *)

(** *** The table as the specification describes it *)

Definition newline : string := String "010"%char EmptyString.

(** The text of a timing cell: the value and its unit, or the mark of an
    absent key. *)
Definition time_cell (r : Benchmark.Result) (col : string) : string :=
  match map_find col (Benchmark.times r) with
  | Some v => String.append (to_string v) " ms"
  | None => "N/A"
  end.

(** A cell, right-aligned in its column. *)
Definition field (w : Z) (cell : string) : string := ostream.pad w " "%char cell.

(** The border over a column of width [w]: [w + 2] dashes, one at least. *)
Definition rule (w : Z) : string :=
  string_of_list_ascii (repeat "-"%char (Z.to_nat (Z.max 1 (w + 2)))).

Definition separator (widths : list Z) : string :=
  String.append "+"
    (String.append (String.concat "+" (rule <$> widths))
       (String.append "+" newline)).

Definition table_line (fields : list string) : string :=
  String.append "| "
    (String.append (String.concat " | " fields) (String.append " |" newline)).

(** The widths of all columns of the table for [results]. *)
Definition widths (results : list Benchmark.Result) : list Z :=
  [Benchmark.readers_width; Benchmark.writers_width; Benchmark.reads_width;
   Benchmark.updates_width]
  ++ (Benchmark.column_width results <$> Benchmark.columns results).

Definition header_line (results : list Benchmark.Result) : string :=
  table_line
    ([field Benchmark.readers_width "Readers";
      field Benchmark.writers_width "Writers";
      field Benchmark.reads_width "Reads";
      field Benchmark.updates_width "Updates"]
     ++ ((fun col => field (Benchmark.column_width results col) col)
           <$> Benchmark.columns results)).

Definition data_line (results : list Benchmark.Result) (r : Benchmark.Result)
  : string :=
  table_line
    ([field Benchmark.readers_width (to_string (Benchmark.numReaders r));
      field Benchmark.writers_width (to_string (Benchmark.numWriters r));
      field Benchmark.reads_width (to_string (Benchmark.numReads r));
      field Benchmark.updates_width (to_string (Benchmark.numUpdates r))]
     ++ ((fun col => field (Benchmark.column_width results col) (time_cell r col))
           <$> Benchmark.columns results)).

Definition sconcat (l : list string) : string :=
  fold_right String.append EmptyString l.

(** A border, the header, a border, then each result followed by a
    border. *)
Definition table (results : list Benchmark.Result) : string :=
  String.append (separator (widths results))
    (String.append (header_line results)
       (String.append (separator (widths results))
          (sconcat ((fun r => String.append (data_line results r)
                                (separator (widths results)))
                    <$> results)))).

(** The widest timing cell of a column, among the rows that have its key,
    and not less than [least]. *)
Definition widest (results : list Benchmark.Result) (col : string) (least : Z) : Z :=
  fold_right Z.max least
    (omap (fun r => v ← map_find col (Benchmark.times r);
                    Some (static_cast_int (String.length (to_string v)) + 3))
          results).

(** *** The printer against it *)

Lemma append_cons (x : ascii) (a b : string) :
  String.append (String x a) b = String x (String.append a b).
Proof. reflexivity. Qed.

Lemma append_assoc (a b c : string) :
  String.append (String.append a b) c = String.append a (String.append b c).
Proof.
  induction a as [|x a IH]; [reflexivity|].
  rewrite !append_cons, IH. reflexivity.
Qed.

Lemma append_nil_r (a : string) : String.append a EmptyString = a.
Proof.
  induction a as [|x a IH]; [reflexivity|]. rewrite append_cons, IH.
  reflexivity.
Qed.

Lemma append_length (a b : string) :
  String.length (String.append a b) = (String.length a + String.length b)%nat.
Proof.
  induction a as [|x a IH]; [reflexivity|]. rewrite append_cons. simpl.
  rewrite IH. reflexivity.
Qed.

Lemma string_of_list_app (l k : list ascii) :
  string_of_list_ascii (l ++ k)
  = String.append (string_of_list_ascii l) (string_of_list_ascii k).
Proof.
  induction l as [|x l IH]; [reflexivity|]. simpl. rewrite IH, append_cons.
  reflexivity.
Qed.

Lemma pad_rule (w : Z) : ostream.pad (w + 2) "-"%char "-" = rule w.
Proof.
  unfold ostream.pad, rule. simpl String.length.
  change "-"%string with (string_of_list_ascii ["-"%char]).
  rewrite <- string_of_list_app. f_equal.
  replace (Z.to_nat (Z.max 1 (w + 2)))
    with (Z.to_nat (w + 2 - Z.of_nat 1) + 1)%nat by lia.
  rewrite repeat_app. reflexivity.
Qed.

(** An output that appends [s], leaving width 0 and fill [c]. *)
Definition emits (s : string) (c : ascii) (os os' : ostream.t) : Prop :=
  os' = {| ostream.buf := String.append (ostream.buf os) s;
           ostream.width := 0; ostream.fill := c |}.

Lemma emits_trans (s1 s2 : string) (c1 c2 : ascii) (os os1 os2 : ostream.t) :
  emits s1 c1 os os1 -> emits s2 c2 os1 os2 ->
  emits (String.append s1 s2) c2 os os2.
Proof. unfold emits. intros -> ->. simpl. rewrite append_assoc. reflexivity. Qed.

Lemma for_index_emits (n : nat) (body : nat -> ostream.t -> ostream.t)
  (f : nat -> string) (c : ascii) (os : ostream.t) :
  (forall i os, ostream.width os = 0 -> ostream.fill os = c ->
     emits (f i) c os (body i os)) ->
  ostream.width os = 0 -> ostream.fill os = c ->
  emits (sconcat (f <$> seq 0 n)) c os (Benchmark.for_index n body os).
Proof.
  intros Hbody. unfold Benchmark.for_index. generalize O as a. revert os.
  induction n as [|n IH]; intros os a Hw Hf; simpl.
  - unfold emits. rewrite append_nil_r. destruct os as [b w fl]. simpl in *.
    subst. reflexivity.
  - pose proof (Hbody a os Hw Hf) as H1.
    eapply emits_trans; [exact H1|]. apply IH; rewrite H1; reflexivity.
Qed.

Lemma map_nth_columns_from {A} (f : string -> Z) (h : Z -> string -> A)
  (cols pre : list string) :
  (fun i => h (nth i (f <$> (pre ++ cols)) 0) (nth i (pre ++ cols) EmptyString))
    <$> seq (length pre) (length cols)
  = (fun col => h (f col) col) <$> cols.
Proof.
  revert pre. induction cols as [|col cols IH]; intros pre; [reflexivity|].
  simpl. f_equal.
  - rewrite fmap_app. simpl.
    replace (length pre) with (length (f <$> pre)) at 1
      by apply length_fmap.
    rewrite !nth_middle. reflexivity.
  - specialize (IH (pre ++ [col])).
    rewrite length_app, Nat.add_1_r, <- app_assoc in IH. exact IH.
Qed.

Lemma map_nth_columns {A} (f : string -> Z) (h : Z -> string -> A)
  (cols : list string) :
  (fun i => h (nth i (f <$> cols) 0) (nth i cols EmptyString))
    <$> seq 0 (length cols)
  = (fun col => h (f col) col) <$> cols.
Proof. apply (map_nth_columns_from f h cols []). Qed.

Lemma concat_prefixed (sep x : string) (l : list string) :
  String.append x (sconcat (String.append sep <$> l))
  = String.concat sep (x :: l).
Proof.
  revert x. induction l as [|y l IH]; intros x.
  - apply append_nil_r.
  - change (String.concat sep (x :: y :: l))
      with (String.append x (String.append sep (String.concat sep (y :: l)))).
    rewrite <- (IH y).
    change (sconcat (String.append sep <$> y :: l))
      with (String.append (String.append sep y)
              (sconcat (String.append sep <$> l))).
    rewrite append_assoc. reflexivity.
Qed.

Lemma pad_zero (c : ascii) (s : string) : ostream.pad 0 c s = s.
Proof.
  unfold ostream.pad.
  replace (Z.to_nat (0 - Z.of_nat (String.length s))) with O by lia.
  reflexivity.
Qed.

Lemma put_emits (s : string) (os : ostream.t) :
  ostream.width os = 0 -> emits s (ostream.fill os) os (ostream.put s os).
Proof.
  intros Hw. unfold emits, ostream.put. rewrite Hw, pad_zero. reflexivity.
Qed.

Lemma put_setw_emits (w : Z) (s : string) (os : ostream.t) :
  emits (ostream.pad w (ostream.fill os) s) (ostream.fill os) os
    (ostream.put s (ostream.setw w os)).
Proof. reflexivity. Qed.

Lemma put_setw_setfill_emits (w : Z) (c : ascii) (s : string) (os : ostream.t) :
  emits (ostream.pad w c s) c os
    (ostream.put s (ostream.setfill c (ostream.setw w os))).
Proof. reflexivity. Qed.

Lemma put_setfill_setw_emits (w : Z) (c : ascii) (s : string) (os : ostream.t) :
  emits (ostream.pad w c s) c os
    (ostream.put s (ostream.setw w (ostream.setfill c os))).
Proof. reflexivity. Qed.

Lemma endl_emits (os : ostream.t) :
  ostream.width os = 0 -> emits newline (ostream.fill os) os (ostream.endl os).
Proof.
  intros Hw. unfold emits, ostream.endl, newline. rewrite Hw. reflexivity.
Qed.

Lemma emits_width (s : string) (c : ascii) (os os' : ostream.t) :
  emits s c os os' -> ostream.width os' = 0 /\ ostream.fill os' = c.
Proof. intros ->. auto. Qed.

(** Chains a step that starts from width 0. *)
Ltac emit_step H :=
  eapply emits_trans; [exact H|];
  let Hw := fresh "Hw" in let Hf := fresh "Hf" in
  destruct (emits_width _ _ _ _ H) as [Hw Hf].

Lemma printSeparator_emits (results : list Benchmark.Result) (os : ostream.t) :
  ostream.width os = 0 ->
  emits (separator (widths results)) "-"%char os
    (Benchmark.printSeparator (Benchmark.columns results)
       (Benchmark.column_widths results (Benchmark.columns results)) os).
Proof.
  intros Hw. unfold Benchmark.printSeparator.
  set (cols := Benchmark.columns results).
  set (o1 := ostream.put "-" (ostream.setfill "-"%char
               (ostream.setw (Benchmark.readers_width + 2) (ostream.put "+" os)))).
  set (o2 := ostream.put "-" (ostream.setw (Benchmark.writers_width + 2)
               (ostream.put "+" o1))).
  set (o3 := ostream.put "-" (ostream.setw (Benchmark.reads_width + 2)
               (ostream.put "+" o2))).
  set (o4 := ostream.put "-" (ostream.setw (Benchmark.updates_width + 2)
               (ostream.put "+" o3))).
  set (body := fun (i : nat) (os : ostream.t) =>
         ostream.put "-"
           (ostream.setw (nth i (Benchmark.column_widths results cols) 0 + 2)
              (ostream.put "+" os))).
  set (o5 := Benchmark.for_index (length cols) body o4).
  assert (H1 : emits (String.append "+" (rule Benchmark.readers_width))
                 "-"%char os o1).
  { subst o1. eapply emits_trans; [apply put_emits, Hw|].
    rewrite <- pad_rule. apply put_setw_setfill_emits. }
  assert (Hseg : forall w o, ostream.width o = 0 -> ostream.fill o = "-"%char ->
            emits (String.append "+" (rule w)) "-"%char o
              (ostream.put "-" (ostream.setw (w + 2) (ostream.put "+" o)))).
  { intros w o Hwo Hfo. eapply emits_trans.
    - apply put_emits, Hwo.
    - rewrite <- pad_rule.
      pose proof (put_setw_emits (w + 2) "-" (ostream.put "+" o)) as H.
      simpl in H. rewrite Hfo in H. exact H. }
  destruct (emits_width _ _ _ _ H1) as [Hw1 Hf1].
  pose proof (Hseg Benchmark.writers_width o1 Hw1 Hf1) as H2. fold o2 in H2.
  destruct (emits_width _ _ _ _ H2) as [Hw2 Hf2].
  pose proof (Hseg Benchmark.reads_width o2 Hw2 Hf2) as H3. fold o3 in H3.
  destruct (emits_width _ _ _ _ H3) as [Hw3 Hf3].
  pose proof (Hseg Benchmark.updates_width o3 Hw3 Hf3) as H4. fold o4 in H4.
  destruct (emits_width _ _ _ _ H4) as [Hw4 Hf4].
  pose proof (for_index_emits (length cols) body
                (fun i => String.append "+"
                   (rule (nth i (Benchmark.column_widths results cols) 0)))
                "-"%char o4 (fun i o => Hseg _ o) Hw4 Hf4) as H5.
  fold o5 in H5. destruct (emits_width _ _ _ _ H5) as [Hw5 Hf5].
  pose proof (put_emits "+" o5 Hw5) as H6. rewrite Hf5 in H6.
  destruct (emits_width _ _ _ _ H6) as [Hw6 Hf6].
  pose proof (endl_emits _ Hw6) as H7. rewrite Hf6 in H7.
  pose proof (emits_trans _ _ _ _ _ _ _
                (emits_trans _ _ _ _ _ _ _
                   (emits_trans _ _ _ _ _ _ _
                      (emits_trans _ _ _ _ _ _ _
                         (emits_trans _ _ _ _ _ _ _
                            (emits_trans _ _ _ _ _ _ _ H1 H2) H3) H4) H5) H6) H7)
    as H.
  match type of H with emits ?s _ _ _ =>
    replace s with (separator (widths results)) in H; [exact H|] end.
  unfold separator, widths. fold cols.
  unfold Benchmark.column_widths.
  rewrite (map_nth_columns (Benchmark.column_width results)
             (fun w _ => String.append "+" (rule w)) cols).
  rewrite fmap_app. cbn [fmap list_fmap app].
  rewrite <- concat_prefixed. cbn [fmap list_fmap]. unfold sconcat at 1.
  cbn [fold_right]. fold (sconcat (list_fmap _ _ (String.append "+")
    (list_fmap _ _ rule (list_fmap _ _ (Benchmark.column_width results) cols)))).
  change (list_fmap string string (String.append "+")
            (list_fmap Z string rule
               (list_fmap string Z (Benchmark.column_width results) cols)))
    with (String.append "+" <$> (rule <$> (Benchmark.column_width results <$> cols))).
  rewrite <- !list_fmap_compose.
  rewrite !append_assoc. reflexivity.
Qed.

(** The shape shared by the header and by a data row: four fixed cells,
    then one cell for each timing column. *)
Lemma line_emits (c1 c2 c3 c4 : string) (n : nat)
  (body : nat -> ostream.t -> ostream.t) (g : nat -> string) (os : ostream.t) :
  ostream.width os = 0 ->
  (forall i o, ostream.width o = 0 -> ostream.fill o = " "%char ->
     emits (String.append " | " (g i)) " "%char o (body i o)) ->
  emits
    (String.append "| "
       (String.append (field Benchmark.readers_width c1)
          (String.append " | "
             (String.append (field Benchmark.writers_width c2)
                (String.append " | "
                   (String.append (field Benchmark.reads_width c3)
                      (String.append " | "
                         (String.append (field Benchmark.updates_width c4)
                            (String.append
                               (sconcat ((fun i => String.append " | " (g i))
                                           <$> seq 0 n))
                               (String.append " |" newline))))))))))
    " "%char os
    (ostream.endl
       (ostream.put " |"
          (Benchmark.for_index n body
             (ostream.put c4 (ostream.setw Benchmark.updates_width
               (ostream.put " | "
                 (ostream.put c3 (ostream.setw Benchmark.reads_width
                   (ostream.put " | "
                     (ostream.put c2 (ostream.setw Benchmark.writers_width
                       (ostream.put " | "
                         (ostream.put c1 (ostream.setfill " "%char
                           (ostream.setw Benchmark.readers_width
                             (ostream.put "| " os)))))))))))))))).
Proof.
  intros Hw Hbody.
  set (o1 := ostream.put c1 (ostream.setfill " "%char
               (ostream.setw Benchmark.readers_width (ostream.put "| " os)))).
  set (o2 := ostream.put c2 (ostream.setw Benchmark.writers_width
               (ostream.put " | " o1))).
  set (o3 := ostream.put c3 (ostream.setw Benchmark.reads_width
               (ostream.put " | " o2))).
  set (o4 := ostream.put c4 (ostream.setw Benchmark.updates_width
               (ostream.put " | " o3))).
  set (o5 := Benchmark.for_index n body o4).
  assert (H1 : emits (String.append "| " (field Benchmark.readers_width c1))
                 " "%char os o1).
  { subst o1. eapply emits_trans; [apply put_emits, Hw|].
    apply put_setw_setfill_emits. }
  assert (Hseg : forall w c o, ostream.width o = 0 -> ostream.fill o = " "%char ->
            emits (String.append " | " (field w c)) " "%char o
              (ostream.put c (ostream.setw w (ostream.put " | " o)))).
  { intros w c o Hwo Hfo. eapply emits_trans.
    - apply put_emits, Hwo.
    - pose proof (put_setw_emits w c (ostream.put " | " o)) as H.
      simpl in H. rewrite Hfo in H. exact H. }
  destruct (emits_width _ _ _ _ H1) as [Hw1 Hf1].
  pose proof (Hseg Benchmark.writers_width c2 o1 Hw1 Hf1) as H2. fold o2 in H2.
  destruct (emits_width _ _ _ _ H2) as [Hw2 Hf2].
  pose proof (Hseg Benchmark.reads_width c3 o2 Hw2 Hf2) as H3. fold o3 in H3.
  destruct (emits_width _ _ _ _ H3) as [Hw3 Hf3].
  pose proof (Hseg Benchmark.updates_width c4 o3 Hw3 Hf3) as H4. fold o4 in H4.
  destruct (emits_width _ _ _ _ H4) as [Hw4 Hf4].
  pose proof (for_index_emits n body (fun i => String.append " | " (g i))
                " "%char o4 Hbody Hw4 Hf4) as H5.
  fold o5 in H5. destruct (emits_width _ _ _ _ H5) as [Hw5 Hf5].
  pose proof (put_emits " |" o5 Hw5) as H6. rewrite Hf5 in H6.
  destruct (emits_width _ _ _ _ H6) as [Hw6 Hf6].
  pose proof (endl_emits _ Hw6) as H7. rewrite Hf6 in H7.
  pose proof (emits_trans _ _ _ _ _ _ _
                (emits_trans _ _ _ _ _ _ _
                   (emits_trans _ _ _ _ _ _ _
                      (emits_trans _ _ _ _ _ _ _
                         (emits_trans _ _ _ _ _ _ _
                            (emits_trans _ _ _ _ _ _ _ H1 H2) H3) H4) H5) H6) H7)
    as H.
  rewrite !append_assoc in H. exact H.
Qed.

Lemma table_line_fields (f1 f2 f3 f4 : string) (rest : list string) :
  table_line (f1 :: f2 :: f3 :: f4 :: rest)
  = String.append "| "
      (String.append f1
         (String.append " | "
            (String.append f2
               (String.append " | "
                  (String.append f3
                     (String.append " | "
                        (String.append f4
                           (String.append
                              (sconcat (String.append " | " <$> rest))
                              (String.append " |" newline))))))))).
Proof.
  unfold table_line.
  change (String.concat " | " (f1 :: f2 :: f3 :: f4 :: rest))
    with (String.append f1
            (String.append " | "
               (String.append f2
                  (String.append " | "
                     (String.append f3
                        (String.append " | "
                           (String.concat " | " (f4 :: rest)))))))).
  rewrite <- concat_prefixed. rewrite !append_assoc. reflexivity.
Qed.

Ltac same_line H :=
  match type of H with
  | emits ?s _ _ _ =>
      match goal with
      | |- emits ?s' _ _ _ => replace s' with s; [exact H|]
      end
  end.

Lemma printHeader_emits (results : list Benchmark.Result) (os : ostream.t) :
  ostream.width os = 0 ->
  emits (header_line results) " "%char os
    (Benchmark.printHeader (Benchmark.columns results)
       (Benchmark.column_widths results (Benchmark.columns results)) os).
Proof.
  intros Hw. unfold Benchmark.printHeader, header_line.
  cbn [app]. rewrite table_line_fields.
  eassert (H : emits _ " "%char os _).
  { apply (line_emits "Readers" "Writers" "Reads" "Updates"
             (length (Benchmark.columns results))
             (fun i o =>
                ostream.put (nth i (Benchmark.columns results) EmptyString)
                  (ostream.setw
                     (nth i (Benchmark.column_widths results
                               (Benchmark.columns results)) 0)
                     (ostream.put " | " o)))
             (fun i => field
                (nth i (Benchmark.column_width results
                          <$> Benchmark.columns results) 0)
                (nth i (Benchmark.columns results) EmptyString)) os Hw).
    intros i o Hwo Hfo. eapply emits_trans.
    - apply put_emits, Hwo.
    - unfold field.
      pose proof (put_setw_emits
                    (nth i (Benchmark.column_widths results
                              (Benchmark.columns results)) 0)
                    (nth i (Benchmark.columns results) EmptyString)
                    (ostream.put " | " o)) as H.
      simpl in H. rewrite Hfo in H. exact H. }
  same_line H. do 10 f_equal. rewrite <- list_fmap_compose.
  apply (map_nth_columns (Benchmark.column_width results)
           (fun w col => String.append " | " (field w col))).
Qed.

Lemma printRow_emits (results : list Benchmark.Result) (r : Benchmark.Result)
  (os : ostream.t) :
  ostream.width os = 0 ->
  emits (String.append (data_line results r) (separator (widths results)))
    "-"%char os
    (Benchmark.printRow (Benchmark.columns results)
       (Benchmark.column_widths results (Benchmark.columns results)) r os).
Proof.
  intros Hw. unfold Benchmark.printRow.
  eapply emits_trans; [|apply printSeparator_emits; reflexivity].
  unfold data_line. cbn [app]. rewrite table_line_fields.
  unfold ostream.put_int.
  eassert (H : emits _ " "%char os _).
  { apply (line_emits (to_string (Benchmark.numReaders r))
             (to_string (Benchmark.numWriters r))
             (to_string (Benchmark.numReads r))
             (to_string (Benchmark.numUpdates r))
             (length (Benchmark.columns results))
             (fun i o =>
                match map_find (nth i (Benchmark.columns results) EmptyString)
                        (Benchmark.times r) with
                | Some v =>
                    ostream.put (String.append (to_string v) " ms")
                      (ostream.setw
                         (nth i (Benchmark.column_widths results
                                   (Benchmark.columns results)) 0)
                         (ostream.setfill " "%char (ostream.put " | " o)))
                | None =>
                    ostream.put "N/A"
                      (ostream.setw
                         (nth i (Benchmark.column_widths results
                                   (Benchmark.columns results)) 0)
                         (ostream.setfill " "%char (ostream.put " | " o)))
                end)
             (fun i => field
                (nth i (Benchmark.column_width results
                          <$> Benchmark.columns results) 0)
                (time_cell r (nth i (Benchmark.columns results) EmptyString)))
             os Hw).
    intros i o Hwo Hfo. unfold time_cell, field.
    destruct (map_find (nth i (Benchmark.columns results) EmptyString)
                (Benchmark.times r)) as [v|].
    - eapply emits_trans; [apply put_emits, Hwo|].
      apply put_setfill_setw_emits.
    - eapply emits_trans; [apply put_emits, Hwo|].
      apply put_setfill_setw_emits. }
  same_line H. do 10 f_equal. rewrite <- list_fmap_compose.
  apply (map_nth_columns (Benchmark.column_width results)
           (fun w col => String.append " | " (field w (time_cell r col)))).
Qed.

Lemma rows_emits (results l : list Benchmark.Result) (os : ostream.t) :
  ostream.width os = 0 -> ostream.fill os = "-"%char ->
  emits
    (sconcat ((fun r => String.append (data_line results r)
                          (separator (widths results))) <$> l))
    "-"%char os
    (fold_left
       (fun os r =>
          Benchmark.printRow (Benchmark.columns results)
            (Benchmark.column_widths results (Benchmark.columns results)) r os)
       l os).
Proof.
  revert os. induction l as [|r l IH]; intros os Hw Hf.
  - unfold emits. simpl. rewrite append_nil_r. destruct os as [b w fl].
    simpl in *. subst. reflexivity.
  - pose proof (printRow_emits results r os Hw) as H1.
    destruct (emits_width _ _ _ _ H1) as [Hw1 Hf1].
    apply (emits_trans _ _ _ _ _ _ _ H1 (IH _ Hw1 Hf1)).
Qed.

Lemma printBenchmarkTable_buf (b : Benchmark.t) :
  ostream.buf (Benchmark.printBenchmarkTable b ostream.cout)
  = table (Benchmark.results b).
Proof.
  unfold Benchmark.printBenchmarkTable, table.
  set (results := Benchmark.results b).
  pose proof (printSeparator_emits results ostream.cout eq_refl) as H1.
  destruct (emits_width _ _ _ _ H1) as [Hw1 _].
  pose proof (printHeader_emits results _ Hw1) as H2.
  destruct (emits_width _ _ _ _ H2) as [Hw2 _].
  pose proof (printSeparator_emits results _ Hw2) as H3.
  destruct (emits_width _ _ _ _ H3) as [Hw3 Hf3].
  pose proof (rows_emits results results _ Hw3 Hf3) as H4.
  pose proof (emits_trans _ _ _ _ _ _ _
                (emits_trans _ _ _ _ _ _ _
                   (emits_trans _ _ _ _ _ _ _ H1 H2) H3) H4) as H.
  unfold emits in H. rewrite H. simpl. rewrite !append_assoc. reflexivity.
Qed.

(** C8. The timing columns are the keys of the first result's map and of
    no other (none when there is no result); what [printBenchmarkTable]
    writes is the table in which every row has, in each timing column, the
    cell of that row and that key; and that cell is "N/A" when the key is
    absent from the row's map, the value followed by " ms" otherwise. *)
Theorem table_cells (b : Benchmark.t) :
  (forall first rest, Benchmark.results b = first :: rest ->
     Benchmark.columns (Benchmark.results b) = fst <$> Benchmark.times first) /\
  (Benchmark.results b = [] -> Benchmark.columns (Benchmark.results b) = []) /\
  ostream.buf (Benchmark.printBenchmarkTable b ostream.cout)
  = table (Benchmark.results b) /\
  (forall r col, map_find col (Benchmark.times r) = None ->
     time_cell r col = "N/A"%string) /\
  (forall r col v, map_find col (Benchmark.times r) = Some v ->
     time_cell r col = String.append (to_string v) " ms").
Proof.
  split; [intros first rest ->; reflexivity|].
  split; [intros ->; reflexivity|].
  split; [apply printBenchmarkTable_buf|].
  split; unfold time_cell.
  - intros r col ->. reflexivity.
  - intros r col v ->. reflexivity.
Qed.

(** C10. With no result, [printBenchmarkTable] writes three lines: a
    border, the header with the four fixed columns and no other, a
    border. *)
Theorem empty_table (b : Benchmark.t) (Hempty : Benchmark.results b = []) :
  ostream.buf (Benchmark.printBenchmarkTable b ostream.cout)
  = String.append "+---------+---------+-------+---------+"
      (String.append newline
         (String.append "| Readers | Writers | Reads | Updates |"
            (String.append newline
               (String.append "+---------+---------+-------+---------+"
                  newline)))).
Proof.
  unfold Benchmark.printBenchmarkTable. rewrite Hempty. vm_compute.
  reflexivity.
Qed.

Lemma empty_table_witness :
  Benchmark.results (added [(100, 5, 10000, 1); (100, 5, 10000, 10)]) = [] /\
  ostream.buf
    (Benchmark.printBenchmarkTable
       (added [(100, 5, 10000, 1); (100, 5, 10000, 10)]) ostream.cout)
  = String.append "+---------+---------+-------+---------+"
      (String.append newline
         (String.append "| Readers | Writers | Reads | Updates |"
            (String.append newline
               (String.append "+---------+---------+-------+---------+"
                  newline)))).
Proof.
  split; [reflexivity|].
  apply (empty_table (added [(100, 5, 10000, 1); (100, 5, 10000, 10)])).
  reflexivity.
Defined.

Lemma fold_right_max (a d : Z) (l : list Z) :
  fold_right Z.max (Z.max a d) l = Z.max d (fold_right Z.max a l).
Proof.
  induction l as [|x l IH]; cbn [fold_right]; [lia|]. rewrite IH. lia.
Qed.

Lemma column_width_widest (results : list Benchmark.Result) (col : string) :
  Benchmark.column_width results col
  = widest results col (static_cast_int (String.length col)).
Proof.
  unfold Benchmark.column_width, widest.
  generalize (static_cast_int (String.length col)) as a.
  induction results as [|r results IH]; intros a; [reflexivity|].
  cbn [fold_left omap list_omap].
  destruct (map_find col (Benchmark.times r)) as [v|];
    cbn [mbind option_bind fold_right].
  - rewrite IH, fold_right_max. reflexivity.
  - apply IH.
Qed.

Lemma widest_bounds (results : list Benchmark.Result) (col : string) (a : Z) :
  a <= widest results col a /\
  forall r v, r ∈ results -> map_find col (Benchmark.times r) = Some v ->
    static_cast_int (String.length (to_string v)) + 3 <= widest results col a.
Proof.
  unfold widest. induction results as [|r results [IH1 IH2]].
  - split; [simpl; lia|]. intros r v Hr. inversion Hr.
  - cbn [omap list_omap].
    destruct (map_find col (Benchmark.times r)) as [v|] eqn:E;
      cbn [mbind option_bind fold_right].
    + split; [lia|]. intros r' v' Hr Hv. apply elem_of_cons in Hr.
      destruct Hr as [->|Hr].
      * rewrite E in Hv. simplify_eq. lia.
      * specialize (IH2 r' v' Hr Hv). lia.
    + split; [assumption|]. intros r' v' Hr Hv. apply elem_of_cons in Hr.
      destruct Hr as [->|Hr]; [congruence|]. eauto.
Qed.

(** C2 (amended). The four numeric columns have fixed widths, the lengths
    of their headers (7, 7, 5, 7), whatever the results. The width of a
    timing column is the greatest of the length of its header and of the
    lengths of its cells "<integer> ms" over the rows that have its key:
    so the header and every such cell fit their column. *)
Theorem column_widths_spec (results : list Benchmark.Result) :
  (Benchmark.readers_width = Z.of_nat (String.length "Readers") /\
   Benchmark.writers_width = Z.of_nat (String.length "Writers") /\
   Benchmark.reads_width = Z.of_nat (String.length "Reads") /\
   Benchmark.updates_width = Z.of_nat (String.length "Updates")) /\
  (forall col,
     Benchmark.column_width results col
     = widest results col (static_cast_int (String.length col))) /\
  (forall col,
     static_cast_int (String.length col) <= Benchmark.column_width results col) /\
  (forall col r v, r ∈ results ->
     map_find col (Benchmark.times r) = Some v ->
     String.length (time_cell r col)
     = (String.length (to_string v) + 3)%nat /\
     static_cast_int (String.length (to_string v)) + 3
     <= Benchmark.column_width results col).
Proof.
  split; [repeat split|]. split; [apply column_width_widest|]. split.
  - intros col. rewrite column_width_widest. apply widest_bounds.
  - intros col r v Hr Hv. split.
    + unfold time_cell. rewrite Hv, append_length. reflexivity.
    + rewrite column_width_widest. eapply widest_bounds; eauto.
Qed.

(** C2, as stated, fails on the numeric columns: after a run of the
    configuration (0, 0, 100000, 0) the column Reads is 5 wide, the length
    of its header, while its cell "100000" has 6 characters; the row is
    printed one character longer than the borders. *)
Lemma numeric_column_not_widened :
  exists b r,
    Benchmark.run Example.cyclic
      [((Example.env, Example.no_thread), (Example.env, Example.no_thread))]
      (added [(0, 0, 100000, 0)]) = Some b /\
    Benchmark.results b = [r] /\
    String.length (to_string (Benchmark.numReads r)) = 6%nat /\
    Benchmark.reads_width = 5 /\
    Benchmark.reads_width
    <> Z.max (Z.of_nat (String.length "Reads"))
         (Z.of_nat (String.length (to_string (Benchmark.numReads r)))) /\
    ostream.buf (Benchmark.printBenchmarkTable b ostream.cout)
    = sconcat
        ["+---------+---------+-------+---------+-------------------+---------------------+"%string;
         newline;
         "| Readers | Writers | Reads | Updates | Shared Mutex Time | Standard Mutex Time |"%string;
         newline;
         "+---------+---------+-------+---------+-------------------+---------------------+"%string;
         newline;
         "|       0 |       0 | 100000 |       0 |              5 ms |                5 ms |"%string;
         newline;
         "+---------+---------+-------+---------+-------------------+---------------------+"%string;
         newline].
Proof.
  eexists. eexists. split; [vm_compute; reflexivity|].
  split; [reflexivity|]. split; [reflexivity|]. split; [reflexivity|].
  split; [vm_compute; discriminate|]. vm_compute. reflexivity.
Qed.

(** * Further properties of the code *)

(** ** RandomStringGenerator: consecutive calls *)

Section GenerateCompose.
Variable G : Type.
Variable distribution : Z -> Z -> G -> Z * G.
Variable allocate : N -> bool.

Lemma draw_onto (m : N) (acc : list ascii) (g : G) :
  N.iter m (RandomStringGenerator.draw G distribution) (acc, g)
  = (fst (N.iter m (RandomStringGenerator.draw G distribution) ([], g)) ++ acc,
     snd (N.iter m (RandomStringGenerator.draw G distribution) ([], g))).
Proof.
  induction m as [|m IH] using N.peano_ind; [reflexivity|].
  rewrite !N.iter_succ, IH.
  destruct (N.iter m (RandomStringGenerator.draw G distribution) ([], g))
    as [acc' g']. simpl.
  destruct (distribution 0 (RandomStringGenerator.charsetSize - 1) g').
  reflexivity.
Qed.

Lemma contents_rev (l : list ascii) :
  RandomStringGenerator.contents l = string_of_list_ascii (rev l).
Proof.
  unfold RandomStringGenerator.contents.
  rewrite <- (string_of_list_ascii_of_string (fold_left _ l EmptyString)).
  rewrite contents_chars, rev_append_rev, app_nil_r. reflexivity.
Qed.

Lemma loop_add (n m : N) (g : G) :
  RandomStringGenerator.loop G distribution (n + m) g
  = (String.append
       (fst (RandomStringGenerator.loop G distribution n g))
       (fst (RandomStringGenerator.loop G distribution m
               (snd (RandomStringGenerator.loop G distribution n g)))),
     snd (RandomStringGenerator.loop G distribution m
            (snd (RandomStringGenerator.loop G distribution n g)))).
Proof.
  unfold RandomStringGenerator.loop.
  rewrite N.add_comm, N.iter_add.
  destruct (N.iter n (RandomStringGenerator.draw G distribution) ([], g))
    as [acc1 g1]. simpl.
  rewrite draw_onto.
  destruct (N.iter m (RandomStringGenerator.draw G distribution) ([], g1))
    as [acc2 g2]. simpl.
  rewrite !contents_rev, rev_app_distr, string_of_list_app. reflexivity.
Qed.

(** When [n + m] is a length that [std::string] accepts (at most
    [max_size()], so that the sum does not wrap either) and the allocator
    grants the three strings, a call for [n] characters and then a call
    for [m] on the same thread both return, and a call for [n + m]
    returns the two strings joined and leaves the engine as the two calls
    do. *)
Theorem generate_add (n m : N) (g : G)
  (Hfit : (n + m <= basic_string.max_size)%N)
  (Hmem : allocate n = true /\ allocate m = true /\ allocate (n + m) = true) :
  exists s1 g1 s2 g2,
    RandomStringGenerator.generate G distribution allocate n g
    = Some (s1, g1) /\
    RandomStringGenerator.generate G distribution allocate m g1
    = Some (s2, g2) /\
    RandomStringGenerator.generate G distribution allocate (n + m) g
    = Some (String.append s1 s2, g2).
Proof.
  assert (Hres : forall k, (k <= basic_string.max_size)%N ->
            allocate k = true ->
            basic_string.reserve allocate k = Some tt).
  { intros k Hk Hm. unfold basic_string.reserve.
    apply N.leb_le in Hk. rewrite Hk, Hm.
    destruct (k <=? basic_string.local_capacity)%N; reflexivity. }
  destruct Hmem as (Hn & Hm & Hnm).
  unfold RandomStringGenerator.generate.
  rewrite (Hres n), (Hres m), (Hres (n + m)%N) by (assumption || lia). simpl.
  rewrite loop_add.
  destruct (RandomStringGenerator.loop G distribution n g) as [s1 g1]. simpl.
  exists s1, g1.
  destruct (RandomStringGenerator.loop G distribution m g1) as [s2 g2]. simpl.
  exists s2, g2. auto.
Qed.

End GenerateCompose.

(** ** LockTester: who can be inside together *)

Section Exclusion.
Import LockTester.
Variable G : Type.
Variable distribution : Z -> Z -> G -> Z * G.
Variable e : env G.

(** Two readers and no writer, one read each: the caller starts the clock
    and spawns both readers, and each reader takes the lock. *)
Definition two_readers : list who := [Main; Main; Main; Reader 0; Reader 1].

(** Under [std::mutex] at most one thread, reader or writer, is between
    taking and releasing the lock at any moment of a run of
    [testStandardMutex], and the mutex is locked exactly then. *)
Theorem standard_mutex_excludes_all (o : t) (Hidle : idle o) :
  forall sched s,
    exec distribution StandardMutex e sched (init o) = Some s ->
    (rcs (readers s) + wcs (writers s) <= 1)%nat /\
    (rcs (readers s) + wcs (writers s))%nat = Nat.b2n (standardMutex (this s)).
Proof.
  intros sched s E.
  pose proof (exec_inv _ _ _ _ _ _ _ _ (inv_init G StandardMutex e o Hidle) E)
    as Hinv.
  pose proof (inv_locks _ _ _ _ _ Hinv) as Hl. unfold locks_ok in Hl.
  destruct Hl as [Hl _]. split; [|lia].
  destruct (standardMutex (this s)); simpl in *; lia.
Qed.

(** Under [std::shared_mutex], at any moment of a run of [testSharedMutex]:
    at most one writer is inside, and then no reader is; the readers
    inside are those the lock counts as shared holders. Several readers
    can be inside together: with two readers, a state with both inside is
    reached. *)
Theorem shared_mutex_readers_share (o : t) (Hidle : idle o) :
  (forall sched s,
     exec distribution SharedMutex e sched (init o) = Some s ->
     (wcs (writers s) <= 1)%nat /\
     (wcs (writers s) = 1%nat -> rcs (readers s) = O) /\
     rcs (readers s) = shared_mutex.readers (sharedMutex (this s)) /\
     wcs (writers s) = Nat.b2n (shared_mutex.writer (sharedMutex (this s)))) /\
  (exists s,
     exec distribution SharedMutex e two_readers (init (new 2 0 1 0)) = Some s /\
     rcs (readers s) = 2%nat /\
     sharedMutex (this s)
     = {| shared_mutex.writer := false; shared_mutex.readers := 2 |}).
Proof.
  split.
  - intros sched s E.
    pose proof (exec_inv _ _ _ _ _ _ _ _ (inv_init G SharedMutex e o Hidle) E)
      as Hinv.
    pose proof (inv_locks _ _ _ _ _ Hinv) as Hl. unfold locks_ok in Hl.
    destruct Hl as (Hw & Hr & Hex & _).
    destruct (shared_mutex.writer (sharedMutex (this s))); simpl in *.
    + split; [lia|]. split; [|split; assumption].
      intros _. rewrite Hr. auto.
    + split; [lia|]. split; [|split; assumption]. lia.
  - eexists. split; [vm_compute; reflexivity|]. split; vm_compute; reflexivity.
Qed.

(** *** Fork and join *)

(** The caller against the readers it has spawned. *)
Definition readers_spawned (s : run_state G) : Prop :=
  match pc s with
  | MStart => readers s = []
  | MSpawnReaders i =>
      Z.of_nat (length (readers s)) = i /\ i <= Z.max 0 (numReaders (this s))
  | _ => length (readers s) = Z.to_nat (numReaders (this s))
  end.

Lemma step_readers_spawned (st : strategy) (w : who) (s s' : run_state G) :
  readers_spawned s -> step distribution st e w s = Some s' ->
  readers_spawned s'.
Proof.
  unfold step, readers_spawned. intros H.
  destruct w as [|k|k]; simpl; intros E.
  - destruct (main_step G st e s) as [s1|] eqn:E1; simplify_eq/=.
    unfold main_step in E1. destruct s as [o p t0 rs ws n]. simpl in *.
    destruct p; repeat case_match; simplify_eq/=; try assumption; try lia;
      try (rewrite H; reflexivity).
    rewrite length_app. simpl.
    match goal with H : (_ <? _) = true |- _ => apply Z.ltb_lt in H end. lia.
  - destruct (readers s !! k) as [r|] eqn:Hr; simplify_eq/=.
    destruct (reader_fn st (this s) r) as [[o' r']|] eqn:E1; simplify_eq/=.
    destruct (reader_fn_left _ _ _ _ _ E1) as ((-> & _) & _).
    rewrite length_insert.
    destruct (pc s); try assumption.
    rewrite H in Hr. discriminate.
  - destruct (writers s !! k) as [wk|] eqn:Hk; simplify_eq/=.
    destruct (writer_fn G distribution st (this s) wk) as [[o' w']|] eqn:E1;
      simplify_eq/=.
    destruct (writer_fn_left _ _ _ _ _ _ _ E1) as ((-> & _) & _).
    destruct (pc s); assumption.
Qed.

Lemma exec_readers_spawned (st : strategy) (sched : list who)
  (s s' : run_state G) :
  readers_spawned s -> exec distribution st e sched s = Some s' ->
  readers_spawned s'.
Proof.
  revert s. induction sched as [|w sched IH]; intros s H E; simpl in *.
  - simplify_eq. assumption.
  - destruct (step distribution st e w s) as [s1|] eqn:E1; simplify_eq/=.
    eapply IH; [|eassumption]. eapply step_readers_spawned; eauto.
Qed.

(** When a test returns it has spawned exactly [numReaders] reader threads
    and [numWriters] writer threads (none for a negative count), every one
    of them has returned, and both locks are free. *)
Theorem threads_joined (st : strategy) (o : t) (Hidle : idle o) :
  forall sched s,
    exec distribution st e sched (init o) = Some s -> finished s = true ->
    length (readers s) = Z.to_nat (numReaders o) /\
    length (writers s) = Z.to_nat (numWriters o) /\
    Forall (fun r => r = RDone) (readers s) /\
    Forall (fun w => wpc w = WDone) (writers s) /\
    idle (this s).
Proof.
  intros sched s E Hfin.
  pose proof (exec_inv _ _ _ _ _ _ _ _ (inv_init G st e o Hidle) E) as Hinv.
  pose proof (exec_readers_spawned st sched (init o) s eq_refl E) as Hrs.
  pose proof (inv_threads _ _ _ _ _ Hinv) as Hth.
  pose proof (inv_config _ _ _ _ _ Hinv) as (HnR & HnW & _).
  destruct (finished_facts _ _ _ _ _ Hinv Hfin) as (_ & Hidle' & _).
  unfold finished, readers_spawned, threads_ok in *.
  destruct (pc s); try discriminate. destruct Hth as (Hlen & Hr & Hw).
  rewrite HnR in Hrs. rewrite HnW in Hlen.
  split; [assumption|]. split; [assumption|]. split; [|split; [|assumption]].
  - apply Forall_lookup. intros k r Hk. apply (Hr k r); [|assumption].
    eapply lookup_lt_Some; eauto.
  - apply Forall_lookup. intros k w Hk. apply (Hw k w); [|assumption].
    eapply lookup_lt_Some; eauto.
Qed.

End Exclusion.

(** ** LockTester: the readers only read *)

Section ReadOnly.
Import LockTester.
Variable G : Type.
Variable distribution : Z -> Z -> G -> Z * G.
Variable st : strategy.
Variable e : env G.

Lemma main_step_data (s s1 : run_state G) :
  main_step G st e s = Some s1 ->
  sharedData (this s1) = sharedData (this s).
Proof.
  unfold main_step. intros E.
  destruct (pc s); repeat case_match; simplify_eq/=; reflexivity.
Qed.

Lemma no_writers (o : t) (s : run_state G) :
  numWriters o <= 0 -> inv st e o s -> writers s = [].
Proof.
  intros HW Hinv. pose proof (inv_threads _ _ _ _ _ Hinv) as Hth.
  pose proof (inv_config _ _ _ _ _ Hinv) as (_ & HnW & _).
  unfold threads_ok in Hth. rewrite HnW in Hth.
  apply length_zero_iff_nil.
  destruct (pc s); repeat match goal with H : _ /\ _ |- _ => destruct H end;
    try (subst; reflexivity); try lia;
    try (match goal with H : writers s = [] |- _ => rewrite H end; reflexivity).
Qed.

(** The record is as it was and no writer is inside. *)
Definition quiet (o : t) (s : run_state G) : Prop :=
  sharedData (this s) = sharedData o /\
  forall k w, writers s !! k = Some w -> writer_in_cs w = false.

Lemma step_quiet (o : t) (w : who) (s s' : run_state G) :
  numWriters o <= 0 \/ numUpdates o <= 0 ->
  inv st e o s -> quiet o s ->
  step distribution st e w s = Some s' -> quiet o s'.
Proof.
  intros Hnone Hinv [Hd Hout]. unfold step, quiet.
  destruct w as [|k|k]; simpl; intros E.
  - destruct (main_step G st e s) as [s1|] eqn:E1; simplify_eq/=.
    rewrite (main_step_data _ _ E1). split; [assumption|].
    destruct (main_step_writers _ _ _ _ _ E1) as [_ [-> | [g ->]]];
      [assumption|].
    intros k w Hk. apply lookup_app_Some in Hk.
    destruct Hk as [Hk | [_ Hk]]; [eauto|].
    apply list_lookup_singleton_Some in Hk. destruct Hk as [_ <-].
    reflexivity.
  - destruct (readers s !! k) as [r|] eqn:Hr; simplify_eq/=.
    destruct (reader_fn st (this s) r) as [[o' r']|] eqn:E1; simplify_eq/=.
    destruct (reader_fn_left _ _ _ _ _ E1) as (_ & _ & -> & _). auto.
  - destruct (writers s !! k) as [wk|] eqn:Hk; simplify_eq/=.
    destruct (writer_fn G distribution st (this s) wk) as [[o' w']|] eqn:E1;
      simplify_eq/=.
    pose proof (Hout k wk Hk) as Hnot.
    pose proof (inv_writers _ _ _ _ _ Hinv k wk Hk) as Hok.
    pose proof (inv_config _ _ _ _ _ Hinv) as (_ & _ & _ & HnU).
    assert (HU : numUpdates o <= 0).
    { destruct Hnone as [HW|HU]; [|assumption].
      rewrite (no_writers o s HW Hinv) in Hk. discriminate. }
    assert (Hstep : o' = this s /\ writer_in_cs w' = false).
    { destruct wk as [p g]. unfold writer_in_cs, writer_ok in *. simpl in *.
      destruct p; try discriminate.
      - destruct (Z.ltb_spec i (numUpdates (this s))) as [Hlt|Hge]; [lia|].
        assert (Hb : (i <? numUpdates (this s)) = false)
          by (apply Z.ltb_ge; assumption).
        destruct st; unfold writer_fn, writerSharedLock, writerStandardLock
          in E1; simpl in E1; rewrite Hb in E1; simplify_eq; auto.
      - destruct st; discriminate. }
    destruct Hstep as [-> Hw']. split; [assumption|].
    intros j wj Hj. apply list_lookup_insert_Some in Hj.
    destruct Hj as [(_ & <- & _) | (_ & Hj)]; eauto.
Qed.

(** With no writer, or no update to make, the record is never written:
    its counter and its text are at every moment of a run, and when the
    test returns, what they were when it was called, whatever the readers
    do. *)
Theorem record_untouched (o : t) (Hidle : idle o)
  (Hnone : numWriters o <= 0 \/ numUpdates o <= 0) :
  (forall sched s,
     exec distribution st e sched (init o) = Some s ->
     sharedData (this s) = sharedData o) /\
  (forall sched o',
     test distribution st e sched o = Some o' -> sharedData o' = sharedData o).
Proof.
  assert (H : forall sched s, inv st e o s -> quiet o s ->
            forall s', exec distribution st e sched s = Some s' -> quiet o s').
  { induction sched as [|w sched IH]; intros s Hinv Hq s' E; simpl in *.
    - simplify_eq. assumption.
    - destruct (step distribution st e w s) as [s1|] eqn:E1; simplify_eq/=.
      apply (IH s1); [eapply step_inv; eauto| |assumption].
      eapply step_quiet; eauto. }
  assert (Hq0 : quiet o (init o)).
  { split; [reflexivity|]. intros k w Hk. discriminate. }
  split.
  - intros sched s E.
    apply (H sched _ (inv_init G st e o Hidle) Hq0 _ E).
  - intros sched o' E. unfold test in E.
    destruct (exec distribution st e sched (init o)) as [s|] eqn:E1;
      simplify_eq/=.
    destruct (finished s); simplify_eq.
    apply (H sched _ (inv_init G st e o Hidle) Hq0 _ E1).
Qed.

End ReadOnly.

(** ** LockTester: the iterations of a reader *)

Section ReaderFacts.
Import LockTester.
Variable G : Type.
Variable distribution : Z -> Z -> G -> Z * G.
Variable st : strategy.
Variable e : env G.

(** Position of a control point in the body of the reader's loop. *)
Definition rstage (r : reader_pc) : nat :=
  match r with
  | RLoop _ => 0
  | RReadCounter _ => 1
  | RReadText _ => 2
  | RUnlock _ => 3
  | RDone => 4
  end.

Definition rstep_at (n k : nat) (w : who) (s : run_state G) : bool :=
  match w with
  | Reader j =>
      Nat.eqb j k &&
      match readers s !! k with
      | Some r => Nat.eqb (rstage r) n
      | None => false
      end
  | _ => false
  end.

(** How often reader [k] takes the step of position [n] along a schedule. *)
Fixpoint rsteps_at (n k : nat) (sched : list who) (s : run_state G) : nat :=
  match sched with
  | [] => O
  | w :: sched' =>
      match step distribution st e w s with
      | Some s' => (Nat.b2n (rstep_at n k w s) + rsteps_at n k sched' s')%nat
      | None => O
      end
  end.

Definition rpassed (n : nat) (nr : Z) (r : reader_pc) : nat :=
  match r with
  | RLoop i => Z.to_nat i
  | RReadCounter i => (Z.to_nat i + Nat.b2n (Nat.ltb n 1))%nat
  | RReadText i => (Z.to_nat i + Nat.b2n (Nat.ltb n 2))%nat
  | RUnlock i => (Z.to_nat i + Nat.b2n (Nat.ltb n 3))%nat
  | RDone => Z.to_nat nr
  end.

Definition rpassed_at (n k : nat) (s : run_state G) : nat :=
  match readers s !! k with
  | Some r => rpassed n (numReads (this s)) r
  | None => O
  end.

(** The loop variable of a reader is in range. *)
Definition reader_ok (nr : Z) (r : reader_pc) : Prop :=
  match r with
  | RLoop i => 0 <= i <= Z.max 0 nr
  | RReadCounter i | RReadText i | RUnlock i => 0 <= i < nr
  | RDone => True
  end.

Definition readers_ok (s : run_state G) : Prop :=
  forall k r, readers s !! k = Some r -> reader_ok (numReads (this s)) r.

Lemma reader_fn_passed (n : nat) (o o' : t) (r r' : reader_pc) :
  (1 <= n <= 3)%nat -> reader_ok (numReads o) r ->
  reader_fn st o r = Some (o', r') ->
  reader_ok (numReads o) r' /\
  rpassed n (numReads o) r'
  = (rpassed n (numReads o) r + Nat.b2n (Nat.eqb (rstage r) n))%nat.
Proof.
  intros Hn Hok E. unfold reader_ok, rpassed in *.
  destruct st, r; unfold reader_fn, readerSharedLock, readerStandardLock in E;
    simpl in *; repeat case_match; simplify_option_eq; simpl.
  all: repeat match goal with
         | |- context [Nat.ltb ?a ?b] => destruct (Nat.ltb_spec a b)
         | |- context [Nat.eqb ?a ?b] => destruct (Nat.eqb_spec a b)
         | H : (_ <? _) = false |- _ => apply Z.ltb_ge in H
         | H : (_ <? _) = true |- _ => apply Z.ltb_lt in H
         end; simpl; try lia.
Qed.

Lemma main_step_readers (s s1 : run_state G) :
  main_step G st e s = Some s1 ->
  numReads (this s1) = numReads (this s) /\
  (readers s1 = readers s \/ readers s1 = readers s ++ [RLoop 0]).
Proof.
  unfold main_step. intros E.
  destruct (pc s); repeat case_match; simplify_eq/=; eauto.
Qed.

Lemma step_rpassed (n k : nat) (w : who) (s s' : run_state G) :
  (1 <= n <= 3)%nat -> readers_ok s ->
  step distribution st e w s = Some s' ->
  readers_ok s' /\
  rpassed_at n k s' = (rpassed_at n k s + Nat.b2n (rstep_at n k w s))%nat.
Proof.
  intros Hn Hok. unfold step, rpassed_at, rstep_at, readers_ok in *.
  destruct w as [|j|j]; simpl; intros H.
  - destruct (main_step G st e s) as [s1|] eqn:E; simplify_eq/=.
    destruct (main_step_readers _ _ E) as [-> [-> | ->]]; [split; [auto|lia]|].
    split.
    + intros i r Hi. apply lookup_app_Some in Hi.
      destruct Hi as [Hi | [_ Hi]]; [eauto|].
      apply list_lookup_singleton_Some in Hi. destruct Hi as [_ <-].
      simpl. lia.
    + destruct (readers s !! k) as [rk|] eqn:Hk.
      * rewrite (lookup_app_l_Some _ _ _ _ Hk). lia.
      * apply lookup_ge_None in Hk.
        destruct (decide (k = length (readers s))) as [->|Hne].
        -- rewrite list_lookup_middle by reflexivity. reflexivity.
        -- rewrite lookup_ge_None_2; [reflexivity|].
           rewrite length_app. simpl. lia.
  - destruct (readers s !! j) as [rj|] eqn:Hj; simplify_eq/=.
    destruct (reader_fn st (this s) rj) as [[o rj']|] eqn:E; simplify_eq/=.
    destruct (reader_fn_left _ _ _ _ _ E) as ((_ & _ & HnR & _) & _).
    rewrite HnR.
    destruct (reader_fn_passed n _ _ _ _ Hn (Hok j rj Hj) E) as [Hok' Hp].
    split.
    + intros i r Hi. apply list_lookup_insert_Some in Hi.
      destruct Hi as [(_ & <- & _) | (_ & Hi)]; eauto.
    + destruct (Nat.eqb_spec j k) as [->|Hne]; simpl.
      * rewrite list_lookup_insert_eq by (eapply lookup_lt_Some; eauto).
        rewrite Hj. exact Hp.
      * rewrite list_lookup_insert_ne by assumption.
        destruct (readers s !! k); lia.
  - destruct (writers s !! j) as [wj|] eqn:Hj; simplify_eq/=.
    destruct (writer_fn G distribution st (this s) wj) as [[o wj']|] eqn:E;
      simplify_eq/=.
    destruct (writer_fn_left _ _ _ _ _ _ _ E) as ((_ & _ & HnR & _) & _).
    rewrite HnR. split; [assumption|lia].
Qed.

Lemma exec_rpassed (n k : nat) (sched : list who) (s s' : run_state G) :
  (1 <= n <= 3)%nat -> readers_ok s ->
  exec distribution st e sched s = Some s' ->
  rpassed_at n k s' = (rpassed_at n k s + rsteps_at n k sched s)%nat.
Proof.
  intros Hn. revert s.
  induction sched as [|w sched IH]; intros s Hok H; simpl in *.
  - simplify_eq. lia.
  - destruct (step distribution st e w s) as [s1|] eqn:E; simplify_eq/=.
    destruct (step_rpassed n k w s s1 Hn Hok E) as [Hok1 Hp].
    rewrite (IH s1 Hok1 H), Hp. lia.
Qed.

(** In a run of either test, every reader thread goes exactly [numReads]
    times through each step of its loop body (the read of the counter, the
    read of the text, the release), whatever the schedule. *)
Theorem reader_iterations (o : t) (Hidle : idle o) :
  forall sched s,
    exec distribution st e sched (init o) = Some s -> finished s = true ->
    forall k n, (k < Z.to_nat (numReaders o))%nat -> (1 <= n <= 3)%nat ->
      rsteps_at n k sched (init o) = Z.to_nat (numReads o).
Proof.
  intros sched s E Hfin k n Hk Hn.
  pose proof (exec_inv _ _ _ _ _ _ _ _ (inv_init G st e o Hidle) E) as Hinv.
  pose proof (exec_readers_spawned G distribution e st sched (init o) s
                eq_refl E) as Hrs.
  pose proof (inv_threads _ _ _ _ _ Hinv) as Hth.
  pose proof (inv_config _ _ _ _ _ Hinv) as (HnR & _ & HnN & _).
  assert (Hok0 : readers_ok (init o)) by (intros i r Hi; discriminate).
  pose proof (exec_rpassed n k sched _ _ Hn Hok0 E) as Hp.
  unfold finished, readers_spawned, threads_ok, rpassed_at in *.
  destruct (pc s); try discriminate. destruct Hth as (_ & Hdone & _).
  simpl in Hp. rewrite HnR in Hrs.
  destruct (readers s !! k) as [r|] eqn:Hr.
  - rewrite (Hdone k r) in Hp; [|eapply lookup_lt_Some; eauto|assumption].
    simpl in Hp. rewrite HnN in Hp. lia.
  - apply lookup_ge_None in Hr. lia.
Qed.

End ReaderFacts.

Arguments rsteps_at {G} _ _ _ _ _ _ _.

(** ** Benchmark: the tables that run produces *)

Section RunTables.
Variable G : Type.
Variable distribution : Z -> Z -> G -> Z * G.

Lemma run_results (cfgs : list config) calls b' :
  Benchmark.run distribution calls (added cfgs) = Some b' ->
  length (Benchmark.results b') = length cfgs /\
  forall i c, cfgs !! i = Some c ->
    exists shared standard r,
      calls !! i = Some (shared, standard) /\
      Benchmark.results b' !! i = Some r /\
      case_result distribution shared standard c r.
Proof.
  destruct (added_testCases cfgs) as [Htc Hres].
  intros E. unfold Benchmark.run in E. rewrite Htc, Hres in E.
  destruct (Benchmark.run_loop distribution calls (tester_of <$> cfgs) [])
    as [[tcs rs']|] eqn:E1; simplify_eq/=.
  destruct (run_loop_results _ _ _ _ _ _ _ E1) as (rs & -> & Hlen & Hall).
  simpl. auto.
Qed.

Lemma run_total (e : LockTester.env G) (cfgs : list config) :
  exists calls b', Benchmark.run distribution calls (added cfgs) = Some b'.
Proof.
  destruct (added_testCases cfgs) as [Htc Hres].
  destruct (run_loop_total G distribution e cfgs []) as (calls & [tcs rs] & E).
  exists calls. eexists. unfold Benchmark.run. rewrite Htc, Hres, E.
  reflexivity.
Qed.

Lemma result_keys (shared standard : Benchmark.call G) (c : config)
  (r : Benchmark.Result) :
  case_result distribution shared standard c r ->
  exists v1 v2,
    Benchmark.times r
    = [("Shared Mutex Time"%string, v1); ("Standard Mutex Time"%string, v2)].
Proof.
  intros (o1 & o2 & v1 & v2 & _ & _ & _ & Ht & ->). simpl. eauto.
Qed.

(** After [run] on a benchmark built by [addTestCase], every result has
    both keys, so that the table has the two timing columns "Shared Mutex
    Time" and "Standard Mutex Time" (when there is a result at all) and
    none of its cells is "N/A": each is a value followed by " ms". *)
Theorem run_table_complete (cfgs : list config) :
  (forall e : LockTester.env G, exists calls b',
     Benchmark.run distribution calls (added cfgs) = Some b') /\
  (forall calls b',
     Benchmark.run distribution calls (added cfgs) = Some b' ->
     (cfgs <> [] ->
      Benchmark.columns (Benchmark.results b')
      = ["Shared Mutex Time"%string; "Standard Mutex Time"%string]) /\
     forall r col,
       r ∈ Benchmark.results b' ->
       col ∈ Benchmark.columns (Benchmark.results b') ->
       exists v, map_find col (Benchmark.times r) = Some v /\
         time_cell r col = String.append (to_string v) " ms").
Proof.
  split; [intros e; apply run_total; exact e|].
  intros calls b' E. destruct (run_results cfgs calls b' E) as [Hlen Hall].
  assert (Hkeys : forall r, r ∈ Benchmark.results b' ->
            exists v1 v2, Benchmark.times r
              = [("Shared Mutex Time"%string, v1);
                 ("Standard Mutex Time"%string, v2)]).
  { intros r Hr. apply list_elem_of_lookup in Hr. destruct Hr as [i Hi].
    assert (Hlt : (i < length cfgs)%nat)
      by (rewrite <- Hlen; eapply lookup_lt_Some; eauto).
    destruct (lookup_lt_is_Some_2 _ _ Hlt) as [c Hc].
    destruct (Hall i c Hc) as (shared & standard & r' & _ & Hr' & Hcase).
    rewrite Hi in Hr'. simplify_eq.
    eapply result_keys; eauto. }
  assert (Hcols : forall col, col ∈ Benchmark.columns (Benchmark.results b') ->
            col = "Shared Mutex Time"%string \/
            col = "Standard Mutex Time"%string).
  { intros col Hcol. unfold Benchmark.columns in Hcol.
    destruct (Benchmark.results b') as [|first rest] eqn:Hres;
      [inversion Hcol|].
    destruct (Hkeys first) as (v1 & v2 & Ht); [try rewrite Hres; left|].
    rewrite Ht in Hcol. simpl in Hcol.
    apply elem_of_cons in Hcol. destruct Hcol as [->|Hcol]; [auto|].
    apply elem_of_cons in Hcol. destruct Hcol as [->|Hcol]; [auto|].
    inversion Hcol. }
  split.
  - intros Hne. unfold Benchmark.columns.
    destruct (Benchmark.results b') as [|first rest] eqn:Hres.
    + destruct cfgs; [congruence|discriminate].
    + destruct (Hkeys first) as (v1 & v2 & Ht); [left|].
      rewrite Ht. reflexivity.
  - intros r col Hr Hcol. destruct (Hkeys r Hr) as (v1 & v2 & Ht).
    unfold time_cell. rewrite Ht.
    destruct (Hcols col Hcol) as [-> | ->]; simpl; eauto.
Qed.

(** *** main *)

(** [main]: two test cases, [run], the table on standard output, exit
    code 0; [static_cast<int>(1e4)] is 10000. *)
Definition main (calls : list (Benchmark.call G * Benchmark.call G))
  : option (ostream.t * Z) :=
  b ← Benchmark.run distribution calls
        (Benchmark.addTestCase 100 5 10000 10
           (Benchmark.addTestCase 100 5 10000 1 Benchmark.new));
  Some (Benchmark.printBenchmarkTable b ostream.cout, 0).


End RunTables.

Arguments main {G} _ _.

(** ** LockTester: the text a test leaves in the record *)

Section TextFacts.
Import LockTester.
Variable G : Type.
Variable distribution : Z -> Z -> G -> Z * G.
Variable st : strategy.
Variable e : env G.

(** The engine of a thread after it has generated [n] payloads. *)
Definition engine_after (n : nat) (g : G) : G :=
  Nat.iter n
    (fun g =>
       from_option snd g
         (RandomStringGenerator.generate G distribution basic_string.granted
            payload_length g))
    g.

(** The [n]-th payload, from 0, of the writer thread [k]. *)
Definition payload (k n : nat) : option string :=
  fst <$> RandomStringGenerator.generate G distribution basic_string.granted
            payload_length (engine_after n (seed e k)).

Lemma payload_loop (k n : nat) :
  payload k n
  = Some (fst (RandomStringGenerator.loop G distribution payload_length
                 (engine_after n (seed e k)))).
Proof. unfold payload. rewrite generate_payload. reflexivity. Qed.

(** The engine of the writer [k] is where its iterations have left it. *)
Definition engine_ok (k : nat) (w : writer G) : Prop :=
  match wpc w with
  | WLoop i | WLoadCounter i | WStoreCounter i _ | WSetText i =>
      generator w = engine_after (Z.to_nat i) (seed e k)
  | WUnlock i => generator w = engine_after (S (Z.to_nat i)) (seed e k)
  | WDone => True
  end.

(** A writer that has assigned no text yet. *)
Definition unwritten (nu : Z) (w : writer G) : Prop :=
  match wpc w with
  | WLoop i | WLoadCounter i | WStoreCounter i _ | WSetText i => i = 0
  | WUnlock _ => False
  | WDone => nu <= 0
  end.

(** A writer whose latest assignment is that of its iteration [i]. *)
Definition wrote_last (nu i : Z) (w : writer G) : Prop :=
  match wpc w with
  | WUnlock j => j = i
  | WLoop j | WLoadCounter j | WStoreCounter j _ | WSetText j => j = i + 1
  | WDone => nu <= i + 1
  end.

(** The text is the one the test found, no writer having assigned any, or
    it is the latest payload of one of the writers. *)
Definition text_ok (o0 : t) (s : run_state G) : Prop :=
  (forall k w, writers s !! k = Some w -> engine_ok k w) /\
  ((text (sharedData (this s)) = text (sharedData o0) /\
    forall k w, writers s !! k = Some w -> unwritten (numUpdates o0) w) \/
   exists k w i, writers s !! k = Some w /\ 0 <= i < numUpdates o0 /\
     payload k (Z.to_nat i) = Some (text (sharedData (this s))) /\
     wrote_last (numUpdates o0) i w).

Lemma main_step_spawn (s s1 : run_state G) :
  main_step G st e s = Some s1 ->
  sharedData (this s1) = sharedData (this s) /\
  (writers s1 = writers s \/
   writers s1
   = writers s ++ [{| wpc := WLoop 0; generator := seed e (length (writers s)) |}]).
Proof.
  unfold main_step. intros E.
  destruct (pc s); repeat case_match; simplify_eq/=; auto.
Qed.

Lemma writer_fn_text (o o' : t) (k : nat) (w w' : writer G) :
  writer_fn G distribution st o w = Some (o', w') ->
  writer_ok (numUpdates o) (counter (sharedData o)) w ->
  engine_ok k w ->
  engine_ok k w' /\
  ((exists i, 0 <= i < numUpdates o /\
      payload k (Z.to_nat i) = Some (text (sharedData o')) /\
      wrote_last (numUpdates o) i w') \/
   (text (sharedData o') = text (sharedData o) /\
    (forall i, wrote_last (numUpdates o) i w -> wrote_last (numUpdates o) i w') /\
    (unwritten (numUpdates o) w -> unwritten (numUpdates o) w'))).
Proof.
  intros E Hok Heng. destruct w as [p g].
  unfold engine_ok, writer_ok, unwritten, wrote_last in *.
  simpl in *.
  unfold writer_fn, writerSharedLock, writerStandardLock, writer_body in E.
  destruct p as [i|i|i tmp|i|i|]; simpl in E.
  - destruct st; simpl in E; revert E;
      (destruct (Z.ltb_spec i (numUpdates o)) as [Hlt|Hge]; intros E;
       simplify_option_eq; simpl;
       (split; [auto|right; repeat split; intros; auto; lia])).
  - assert (o' = o /\ w' = {| wpc := WStoreCounter i (counter (sharedData o));
                              generator := g |}) as [-> ->]
      by (destruct st; simpl in E; simplify_eq; auto).
    simpl. split; [auto|right; repeat split; intros; auto].
  - assert (text (sharedData o') = text (sharedData o) /\
            w' = {| wpc := WSetText i; generator := g |}) as [Ht ->]
      by (destruct st; simpl in E; simplify_eq; auto).
    simpl. split; [auto|right; repeat split; intros; auto].
  - assert (E' : (let '(payload, g') :=
                    RandomStringGenerator.loop G distribution payload_length g in
                  Some (with_sharedData {| counter := counter (sharedData o);
                                           text := payload |} o,
                        {| wpc := WUnlock i; generator := g' |}))
                 = Some (o', w'))
      by (rewrite generate_payload in E; destruct st; exact E).
    clear E. subst g.
    destruct (RandomStringGenerator.loop G distribution payload_length
                (engine_after (Z.to_nat i) (seed e k))) as [p g'] eqn:Eg.
    simplify_eq. simpl. split.
    + rewrite generate_payload. simpl. rewrite Eg. reflexivity.
    + left. exists i. split; [assumption|]. rewrite payload_loop, Eg. auto.
  - assert (text (sharedData o') = text (sharedData o) /\
            w' = {| wpc := WLoop (i + 1); generator := g |}) as [Ht ->]
      by (destruct st; simpl in E; simplify_eq; auto).
    simpl. split.
    + replace (i + 1) with (Z.succ i) by lia.
      rewrite Z2Nat.inj_succ by lia. assumption.
    + right. repeat split; intros; auto; lia.
  - destruct st; simpl in E; discriminate.
Qed.

Lemma step_text (o0 : t) (w : who) (s s' : run_state G) :
  inv st e o0 s -> text_ok o0 s ->
  step distribution st e w s = Some s' -> text_ok o0 s'.
Proof.
  intros Hinv [Heng Htext]. unfold step, text_ok.
  pose proof (inv_config _ _ _ _ _ Hinv) as (_ & _ & _ & HnU).
  destruct w as [|k|k]; simpl; intros E.
  - destruct (main_step G st e s) as [s1|] eqn:E1; simplify_eq/=.
    destruct (main_step_spawn _ _ E1) as [Hd Hw]. rewrite Hd.
    destruct Hw as [-> | ->]; [split; assumption|]. split.
    + intros k w Hk. apply lookup_app_Some in Hk.
      destruct Hk as [Hk | [Hge Hk]]; [eauto|].
      apply list_lookup_singleton_Some in Hk. destruct Hk as [Hk <-].
      unfold engine_ok. simpl. replace k with (length (writers s)) by lia.
      reflexivity.
    + destruct Htext as [[Ht Hun] | (k & w & i & Hk & Hi & Ht & Hl)].
      * left. split; [assumption|]. intros k w Hk.
        apply lookup_app_Some in Hk. destruct Hk as [Hk | [_ Hk]]; [eauto|].
        apply list_lookup_singleton_Some in Hk. destruct Hk as [_ <-].
        reflexivity.
      * right. exists k, w, i. split; [|auto].
        apply lookup_app_l_Some. assumption.
  - destruct (readers s !! k) as [r|] eqn:Hr; simplify_eq/=.
    destruct (reader_fn st (this s) r) as [[o' r']|] eqn:E1; simplify_eq/=.
    destruct (reader_fn_left _ _ _ _ _ E1) as (_ & _ & -> & _). auto.
  - destruct (writers s !! k) as [wk|] eqn:Hk; simplify_eq/=.
    destruct (writer_fn G distribution st (this s) wk) as [[o' w']|] eqn:E1;
      simplify_eq/=.
    pose proof (inv_writers _ _ _ _ _ Hinv k wk Hk) as Hok.
    pose proof (lookup_lt_Some _ _ _ Hk) as Hlt.
    destruct (writer_fn_text _ _ k _ _ E1 Hok (Heng k wk Hk)) as [Heng' Hcase].
    rewrite HnU in Hcase. split.
    + intros j wj Hj. apply list_lookup_insert_Some in Hj.
      destruct Hj as [(<- & <- & _) | (_ & Hj)]; eauto.
    + destruct Hcase as [(i & Hi & Ht & Hl) | (Ht' & Hl' & Hu')].
      * right. exists k, w', i. split; [|auto].
        apply list_lookup_insert_Some. left. auto.
      * rewrite Ht'.
        destruct Htext as [[Ht Hun] | (k0 & w0 & i0 & Hk0 & Hi0 & Ht0 & Hl0)].
        -- left. split; [assumption|]. intros j wj Hj.
           apply list_lookup_insert_Some in Hj.
           destruct Hj as [(<- & <- & _) | (_ & Hj)]; eauto.
        -- right. destruct (decide (k0 = k)) as [->|Hne].
           ++ exists k, w', i0. simplify_eq. split; [|auto].
              apply list_lookup_insert_Some. left. auto.
           ++ exists k0, w0, i0. split; [|auto].
              apply list_lookup_insert_Some. right. auto.
Qed.

Lemma exec_text (o0 : t) (sched : list who) (s s' : run_state G) :
  inv st e o0 s -> text_ok o0 s ->
  exec distribution st e sched s = Some s' -> text_ok o0 s'.
Proof.
  revert s. induction sched as [|w sched IH]; intros s Hinv Hok E; simpl in *.
  - simplify_eq. assumption.
  - destruct (step distribution st e w s) as [s1|] eqn:E1; simplify_eq/=.
    apply (IH s1); [eapply step_inv; eauto| |assumption].
    eapply step_text; eauto.
Qed.

(** In a run of either test the text of the record is at every moment the
    one the test found or a whole payload of one of its writers; and when
    a test with at least one writer and one update returns, the text is
    the last payload of one of the writers, the [numUpdates]-th string of
    that thread's engine, 100000 characters long. *)
Theorem final_text (o : t) (Hidle : idle o)
  (HW : 1 <= numWriters o) (HU : 1 <= numUpdates o) :
  (forall sched s,
     exec distribution st e sched (init o) = Some s ->
     text (sharedData (this s)) = text (sharedData o) \/
     exists k i, (k < length (writers s))%nat /\ 0 <= i < numUpdates o /\
       payload k (Z.to_nat i) = Some (text (sharedData (this s)))) /\
  (forall sched o',
     test distribution st e sched o = Some o' ->
     exists k, (k < Z.to_nat (numWriters o))%nat /\
       payload k (Z.to_nat (numUpdates o - 1)) = Some (text (sharedData o')) /\
       String.length (text (sharedData o')) = N.to_nat 100000).
Proof.
  assert (H0 : text_ok o (init o)).
  { split; [intros k w Hk; discriminate|].
    left. split; [reflexivity|]. intros k w Hk. discriminate. }
  pose proof (inv_init G st e o Hidle) as Hinv0.
  split.
  - intros sched s E.
    destruct (exec_text o sched _ _ Hinv0 H0 E)
      as [_ [[Ht _] | (k & w & i & Hk & Hi & Ht & _)]]; [left; assumption|].
    right. exists k, i. split; [|auto]. eapply lookup_lt_Some; eauto.
  - intros sched o' E. unfold test in E.
    destruct (exec distribution st e sched (init o)) as [s|] eqn:E1;
      simplify_eq/=.
    destruct (finished s) eqn:Hfin; simplify_eq.
    pose proof (exec_inv _ _ _ _ _ _ _ _ Hinv0 E1) as Hinv.
    pose proof (inv_threads _ _ _ _ _ Hinv) as Hth.
    pose proof (inv_config _ _ _ _ _ Hinv) as (_ & HnW & _).
    unfold finished, threads_ok in *.
    destruct (pc s); try discriminate. destruct Hth as (Hlen & _ & Hdone).
    rewrite HnW in Hlen.
    destruct (exec_text o sched _ _ Hinv0 H0 E1)
      as [_ [[_ Hun] | (k & w & i & Hk & Hi & Ht & Hl)]].
    + destruct (writers s) as [|w ws] eqn:Hws; [simpl in Hlen; lia|].
      specialize (Hun O w eq_refl). specialize (Hdone O w).
      unfold unwritten in Hun. rewrite Hdone in Hun; [lia|simpl; lia|reflexivity].
    + pose proof (lookup_lt_Some _ _ _ Hk) as Hlt.
      specialize (Hdone k w Hlt Hk). unfold wrote_last in Hl.
      rewrite Hdone in Hl. exists k. split; [lia|].
      replace (numUpdates o - 1) with i by lia. split; [assumption|].
      rewrite payload_loop in Ht. simplify_eq. rewrite <- Ht.
      rewrite loop_length. reflexivity.
Qed.

End TextFacts.

(** ** LockTester: the interval a test measures *)

Section TimeFacts.
Import LockTester.
Variable G : Type.
Variable distribution : Z -> Z -> G -> Z * G.
Variable st : strategy.
Variable e : env G.

Lemma exec_app (a b : list who) (s : run_state G) :
  exec distribution st e (a ++ b) s
  = s1 ← exec distribution st e a s; exec distribution st e b s1.
Proof.
  revert s. induction a as [|w a IH]; intros s; simpl; [reflexivity|].
  destruct (step distribution st e w s) as [s1|]; simpl; auto.
Qed.

(** A step takes one tick of the clock; the first one is the caller's and
    reads the start; the one that ends the test is the caller's and
    writes the time. *)
Lemma step_clock (o0 : t) (w : who) (s s' : run_state G) :
  inv st e o0 s -> step distribution st e w s = Some s' ->
  ticks s' = S (ticks s) /\
  (pc s = MStart ->
   w = Main /\ start s' = now e (ticks s) /\ pc s' <> MStart) /\
  (pc s <> MStart -> start s' = start s /\ pc s' <> MStart) /\
  (finished s' = true ->
   w = Main /\ pc s = MEnd /\
   times (this s')
   = map_assign (time_key st) (duration_ms (now e (ticks s) - start s))
       (times (this s))).
Proof.
  intros Hinv. pose proof (inv_threads _ _ _ _ _ Hinv) as Hth.
  unfold step, finished, threads_ok in *.
  destruct w as [|k|k]; simpl; intros E.
  - destruct (main_step G st e s) as [s1|] eqn:E1; simplify_eq/=.
    unfold main_step in E1.
    destruct (pc s) eqn:Hpc; repeat case_match; simplify_eq/=;
      repeat split; try congruence; try discriminate.
  - destruct (readers s !! k) as [r|] eqn:Hr; simplify_eq/=.
    destruct (reader_fn st (this s) r) as [[o' r']|] eqn:E1; simplify_eq/=.
    split; [reflexivity|]. split; [|split].
    + intros Hpc. rewrite Hpc in Hth. destruct Hth as [Hrs _].
      rewrite Hrs in Hr. discriminate.
    + auto.
    + intros Hfin. destruct (pc s); try discriminate.
      destruct Hth as (_ & Hdone & _).
      rewrite (Hdone k r (lookup_lt_Some _ _ _ Hr) Hr) in E1.
      destruct st; discriminate.
  - destruct (writers s !! k) as [wk|] eqn:Hk; simplify_eq/=.
    destruct (writer_fn G distribution st (this s) wk) as [[o' w']|] eqn:E1;
      simplify_eq/=.
    split; [reflexivity|]. split; [|split].
    + intros Hpc. rewrite Hpc in Hth. destruct Hth as [_ Hws].
      rewrite Hws in Hk. discriminate.
    + auto.
    + intros Hfin. destruct (pc s); try discriminate.
      destruct Hth as (_ & _ & Hdone).
      pose proof (Hdone k wk (lookup_lt_Some _ _ _ Hk) Hk) as Hp.
      destruct wk as [p g]. simpl in Hp. subst p.
      destruct st; discriminate.
Qed.

Lemma exec_clock (o0 : t) (sched : list who) (s s' : run_state G) :
  inv st e o0 s -> pc s <> MStart ->
  exec distribution st e sched s = Some s' ->
  ticks s' = (ticks s + length sched)%nat /\ start s' = start s.
Proof.
  revert s. induction sched as [|w sched IH]; intros s Hinv Hpc E; simpl in *.
  - simplify_eq. split; [lia|reflexivity].
  - destruct (step distribution st e w s) as [s1|] eqn:E1; simplify_eq/=.
    destruct (step_clock o0 w s s1 Hinv E1) as (Ht & _ & Hs & _).
    destruct (Hs Hpc) as [Hstart Hpc1].
    destruct (IH s1 (step_inv _ _ _ _ _ _ _ _ Hinv E1) Hpc1 E) as [Ht' Hs'].
    split; [lia|congruence].
Qed.

(** A schedule that takes a test to its return starts with the caller's
    reading of the start and ends with the caller's reading of the end,
    and the time recorded is the one between these two readings. *)
Lemma test_interval (o : t) (sched : list who) (o' : t) :
  idle o -> test distribution st e sched o = Some o' ->
  exists middle,
    sched = Main :: middle ++ [Main] /\
    times o'
    = map_assign (time_key st)
        (duration_ms (now e (S (length middle)) - now e O)) (times o).
Proof.
  intros Hidle E. unfold test in E.
  destruct (exec distribution st e sched (init o)) as [s|] eqn:E1;
    simplify_eq/=.
  destruct (finished s) eqn:Hfin; simplify_eq.
  pose proof (inv_init G st e o Hidle) as Hinv0.
  destruct sched as [|w rest]; [simplify_eq/=; discriminate|].
  simpl in E1.
  destruct (step distribution st e w (init o)) as [s1|] eqn:Es1; simplify_eq/=.
  destruct (step_clock o w _ s1 Hinv0 Es1) as (Ht1 & Hfirst & _ & Hf1).
  destruct (Hfirst eq_refl) as (-> & Hstart1 & Hpc1). simpl in Ht1, Hstart1.
  pose proof (step_inv _ _ _ _ _ _ _ _ Hinv0 Es1) as Hinv1.
  revert E1. induction rest as [|x middle _] using rev_ind; intros E1.
  - simplify_eq/=. destruct (Hf1 Hfin) as (_ & Hpc & _). discriminate.
  - rewrite exec_app in E1.
    destruct (exec distribution st e middle s1) as [s2|] eqn:E2; simplify_eq/=.
    destruct (step distribution st e x s2) as [s3|] eqn:E3; simplify_eq/=.
    destruct (exec_clock o middle s1 s2 Hinv1 Hpc1 E2) as [Ht2 Hstart2].
    pose proof (exec_inv _ _ _ _ _ _ _ _ Hinv1 E2) as Hinv2.
    destruct (step_clock o x s2 s Hinv2 E3) as (_ & _ & _ & Hlast).
    destruct (Hlast Hfin) as (-> & Hpc2 & Htimes).
    pose proof (inv_time _ _ _ _ _ Hinv2) as Htime.
    unfold time_ok in Htime. rewrite Hpc2 in Htime. destruct Htime as [Hsame _].
    exists middle. split; [reflexivity|].
    rewrite Htimes, Hsame, Ht2, Hstart2, Hstart1, Ht1. reflexivity.
Qed.

(** The interval a test measures spans the whole run: in every schedule
    that takes a test to its return, the first step is the caller's
    reading of the start and the last the caller's reading of the end, all
    spawning, all steps of the threads and all joining in between; and the
    time recorded is the whole milliseconds, rounded toward zero, from
    the first reading to the last. *)
Theorem time_spans_run (o : t) (Hidle : idle o) :
  forall sched o',
    test distribution st e sched o = Some o' ->
    exists middle,
      sched = Main :: middle ++ [Main] /\
      times o'
      = map_assign (time_key st)
          (Z.quot (now e (S (length middle)) - now e O) 1000000) (times o).
Proof.
  intros sched o' E.
  destruct (test_interval o sched o' Hidle E) as (middle & Hsched & Htimes).
  exists middle. split; [exact Hsched|].
  rewrite Htimes. unfold duration_ms. reflexivity.
Qed.

End TimeFacts.

(** ** LockTester: the map of times *)

Section TimesFacts.
Import LockTester.
Variable G : Type.
Variable distribution : Z -> Z -> G -> Z * G.

(** On a new tester, two calls of the tests in any order and with any
    repetition can run to their return, and then: after the first call the
    map holds the first test's key alone, with the time of that call;
    after the second it holds one entry for each test called, in the order
    of the keys and not of the calls, each with the time of its call; and
    when the same test was called twice its one entry holds the time of
    the second call, which has overwritten that of the first. The time of
    a call is the whole milliseconds between the first and the last
    reading of the clock in its schedule. *)
Theorem times_after_two_calls (R W N U : Z) (e1 e2 : env G) (st1 st2 : strategy) :
  (exists sched1 sched2 o1 o2,
     test distribution st1 e1 sched1 (new R W N U) = Some o1 /\
     test distribution st2 e2 sched2 o1 = Some o2) /\
  (forall sched1 sched2 o1 o2,
     test distribution st1 e1 sched1 (new R W N U) = Some o1 ->
     test distribution st2 e2 sched2 o1 = Some o2 ->
     exists m1 m2,
       sched1 = Main :: m1 ++ [Main] /\ sched2 = Main :: m2 ++ [Main] /\
       let v1 := Z.quot (now e1 (S (length m1)) - now e1 O) 1000000 in
       let v2 := Z.quot (now e2 (S (length m2)) - now e2 O) 1000000 in
       times o1 = [(time_key st1, v1)] /\
       times o2
       = match st1, st2 with
         | SharedMutex, SharedMutex => [("Shared Mutex Time"%string, v2)]
         | SharedMutex, StandardMutex =>
             [("Shared Mutex Time"%string, v1); ("Standard Mutex Time"%string, v2)]
         | StandardMutex, SharedMutex =>
             [("Shared Mutex Time"%string, v2); ("Standard Mutex Time"%string, v1)]
         | StandardMutex, StandardMutex => [("Standard Mutex Time"%string, v2)]
         end).
Proof.
  split.
  - destruct (test_total G distribution st1 e1 _ (idle_new R W N U))
      as (sched1 & o1 & E1).
    destruct (test_facts _ _ _ _ _ _ _ (idle_new R W N U) E1)
      as (_ & Hidle1 & _).
    destruct (test_total G distribution st2 e2 _ Hidle1) as (sched2 & o2 & E2).
    exists sched1, sched2, o1, o2. auto.
  - intros sched1 sched2 o1 o2 E1 E2.
    destruct (test_facts _ _ _ _ _ _ _ (idle_new R W N U) E1)
      as (_ & Hidle1 & _).
    destruct (test_interval G distribution st1 e1 _ _ _ (idle_new R W N U) E1)
      as (m1 & Hs1 & Ht1).
    destruct (test_interval G distribution st2 e2 _ _ _ Hidle1 E2)
      as (m2 & Hs2 & Ht2).
    exists m1, m2. split; [exact Hs1|]. split; [exact Hs2|].
    simpl in Ht1. rewrite Ht1 in Ht2. unfold duration_ms in *.
    split; [exact Ht1|]. rewrite Ht2.
    destruct st1, st2; reflexivity.
Qed.

End TimesFacts.

(** ** Benchmark: when the table is aligned *)

(** A cell is not longer than the width of its column. *)
Definition fits (w : Z) (cell : string) : Prop :=
  Z.of_nat (String.length cell) <= w.

Lemma string_of_list_length (l : list ascii) :
  String.length (string_of_list_ascii l) = length l.
Proof. induction l as [|x l IH]; simpl; congruence. Qed.

Lemma field_length (w : Z) (cell : string) :
  fits w cell -> String.length (field w cell) = Z.to_nat w.
Proof.
  unfold fits, field, ostream.pad. intros H.
  rewrite append_length, string_of_list_length, repeat_length. lia.
Qed.

Lemma rule_length (w : Z) :
  0 <= w -> String.length (rule w) = (Z.to_nat w + 2)%nat.
Proof.
  unfold rule. intros H. rewrite string_of_list_length, repeat_length. lia.
Qed.

Lemma separator_widths (w1 w2 w3 w4 : Z) (ws : list Z) :
  separator (w1 :: w2 :: w3 :: w4 :: ws)
  = String.append "+"
      (String.append (rule w1)
         (String.append "+"
            (String.append (rule w2)
               (String.append "+"
                  (String.append (rule w3)
                     (String.append "+"
                        (String.append (rule w4)
                           (String.append
                              (sconcat (String.append "+" <$> (rule <$> ws)))
                              (String.append "+" newline))))))))).
Proof.
  unfold separator. cbn [fmap list_fmap]. rewrite <- concat_prefixed.
  cbn [fmap list_fmap]. unfold sconcat. cbn [fold_right].
  rewrite !append_assoc. reflexivity.
Qed.

Lemma sconcat_length_eq {A} (f g : A -> string) (l : list A) :
  Forall (fun x => String.length (f x) = String.length (g x)) l ->
  String.length (sconcat (f <$> l)) = String.length (sconcat (g <$> l)).
Proof.
  induction 1 as [|x l Hx Hl IH]; [reflexivity|].
  cbn [fmap list_fmap sconcat fold_right].
  rewrite !append_length, Hx. f_equal. exact IH.
Qed.

(** A line of the table is as long as the borders when each of its cells
    fits its column. *)
Lemma line_aligned (results : list Benchmark.Result) (c1 c2 c3 c4 : string)
  (cell : string -> string) :
  fits Benchmark.readers_width c1 -> fits Benchmark.writers_width c2 ->
  fits Benchmark.reads_width c3 -> fits Benchmark.updates_width c4 ->
  Forall (fun col => fits (Benchmark.column_width results col) (cell col))
    (Benchmark.columns results) ->
  String.length
    (table_line
       ([field Benchmark.readers_width c1; field Benchmark.writers_width c2;
         field Benchmark.reads_width c3; field Benchmark.updates_width c4]
        ++ ((fun col => field (Benchmark.column_width results col) (cell col))
              <$> Benchmark.columns results)))
  = String.length (separator (widths results)).
Proof.
  intros H1 H2 H3 H4 Hcols. unfold widths. cbn [app].
  rewrite table_line_fields, separator_widths.
  rewrite <- !list_fmap_compose.
  rewrite !append_length.
  rewrite (field_length _ _ H1), (field_length _ _ H2),
    (field_length _ _ H3), (field_length _ _ H4).
  rewrite !rule_length by (vm_compute; discriminate).
  rewrite (sconcat_length_eq
             (String.append " | "
              ∘ (fun col => field (Benchmark.column_width results col) (cell col)))
             (String.append "+" ∘ rule ∘ Benchmark.column_width results)).
  - change (Z.to_nat Benchmark.readers_width) with 7%nat.
    change (Z.to_nat Benchmark.writers_width) with 7%nat.
    change (Z.to_nat Benchmark.reads_width) with 5%nat.
    change (Z.to_nat Benchmark.updates_width) with 7%nat.
    generalize (String.length
                  (sconcat (String.append "+" ∘ rule
                            ∘ Benchmark.column_width results
                            <$> Benchmark.columns results))).
    intros x. cbn. lia.
  - eapply List.Forall_impl; [|exact Hcols]. intros col Hfit. simpl.
    rewrite !append_length, (field_length _ _ Hfit).
    rewrite rule_length; [simpl String.length; lia|].
    unfold fits in Hfit. lia.
Qed.

(** A result whose four counts and whose timing cells fit their columns. *)
Definition row_fits (results : list Benchmark.Result) (r : Benchmark.Result)
  : Prop :=
  fits Benchmark.readers_width (to_string (Benchmark.numReaders r)) /\
  fits Benchmark.writers_width (to_string (Benchmark.numWriters r)) /\
  fits Benchmark.reads_width (to_string (Benchmark.numReads r)) /\
  fits Benchmark.updates_width (to_string (Benchmark.numUpdates r)) /\
  Forall (fun col => fits (Benchmark.column_width results col) (time_cell r col))
    (Benchmark.columns results).

(** The lines of the table, each with its end of line. *)
Definition table_lines (results : list Benchmark.Result) : list string :=
  separator (widths results) :: header_line results
  :: separator (widths results)
  :: flat_map (fun r => [data_line results r; separator (widths results)])
       results.

Lemma sconcat_pairs {A} (f : A -> string) (s : string) (l : list A) :
  sconcat ((fun x => String.append (f x) s) <$> l)
  = sconcat (flat_map (fun x => [f x; s]) l).
Proof.
  induction l as [|x l IH]; [reflexivity|].
  cbn [fmap list_fmap flat_map app sconcat fold_right].
  fold (sconcat ((fun x => String.append (f x) s) <$> l)).
  fold (sconcat (flat_map (fun x => [f x; s]) l)).
  rewrite IH, append_assoc. reflexivity.
Qed.

Lemma table_as_lines (results : list Benchmark.Result) :
  table results = sconcat (table_lines results).
Proof.
  unfold table, table_lines. cbn [sconcat fold_right].
  do 3 f_equal. apply sconcat_pairs.
Qed.

(** When every header of a timing column fits its column, and the four
    counts and the timing cells of every result fit theirs, the table that
    [printBenchmarkTable] writes is aligned: its [3 + 2 n] lines, for [n]
    results, all have the length of the first border. *)
Theorem table_aligned (b : Benchmark.t)
  (Hheaders : Forall (fun col =>
                        fits (Benchmark.column_width (Benchmark.results b) col)
                          col)
                (Benchmark.columns (Benchmark.results b)))
  (Hrows : Forall (row_fits (Benchmark.results b)) (Benchmark.results b)) :
  ostream.buf (Benchmark.printBenchmarkTable b ostream.cout)
  = sconcat (table_lines (Benchmark.results b)) /\
  length (table_lines (Benchmark.results b))
  = (3 + 2 * length (Benchmark.results b))%nat /\
  Forall (fun line =>
            String.length line
            = String.length (separator (widths (Benchmark.results b))))
    (table_lines (Benchmark.results b)).
Proof.
  rewrite printBenchmarkTable_buf, table_as_lines.
  split; [reflexivity|].
  generalize dependent (Benchmark.results b). clear b. intros results Hh Hrows.
  assert (Hhead : String.length (header_line results)
                  = String.length (separator (widths results))).
  { apply (line_aligned results "Readers" "Writers" "Reads" "Updates"
             (fun col => col));
      [vm_compute; discriminate | vm_compute; discriminate
      | vm_compute; discriminate | vm_compute; discriminate | exact Hh]. }
  assert (Hdata : forall rows, Forall (row_fits results) rows ->
            length (flat_map (fun r => [data_line results r;
                                        separator (widths results)]) rows)
            = (2 * length rows)%nat /\
            Forall (fun line =>
                      String.length line
                      = String.length (separator (widths results)))
              (flat_map (fun r => [data_line results r;
                                   separator (widths results)]) rows)).
  { induction 1 as [|r rows (H1 & H2 & H3 & H4 & Hcells) _ [IHl IHf]];
      [split; [reflexivity|constructor]|].
    cbn [flat_map app length]. split; [lia|].
    constructor; [|constructor; [reflexivity|exact IHf]].
    apply (line_aligned results _ _ _ _ (time_cell r)); assumption. }
  destruct (Hdata results Hrows) as [Hl Hf].
  unfold table_lines. cbn [length]. split; [lia|].
  repeat (constructor; [assumption || reflexivity|]). exact Hf.
Qed.

(** ** Benchmark: the stream the table is written to *)

Lemma printBenchmarkTable_emits (b : Benchmark.t) (os : ostream.t) :
  ostream.width os = 0 ->
  emits (table (Benchmark.results b)) "-"%char os
    (Benchmark.printBenchmarkTable b os).
Proof.
  intros Hw. unfold Benchmark.printBenchmarkTable, table.
  set (results := Benchmark.results b).
  pose proof (printSeparator_emits results os Hw) as H1.
  destruct (emits_width _ _ _ _ H1) as [Hw1 _].
  pose proof (printHeader_emits results _ Hw1) as H2.
  destruct (emits_width _ _ _ _ H2) as [Hw2 _].
  pose proof (printSeparator_emits results _ Hw2) as H3.
  destruct (emits_width _ _ _ _ H3) as [Hw3 Hf3].
  pose proof (rows_emits results results _ Hw3 Hf3) as H4.
  pose proof (emits_trans _ _ _ _ _ _ _
                (emits_trans _ _ _ _ _ _ _
                   (emits_trans _ _ _ _ _ _ _ H1 H2) H3) H4) as H.
  unfold emits in *. rewrite H. f_equal. f_equal.
  rewrite !append_assoc. reflexivity.
Qed.

(** On a stream with no pending width, whatever was written to it before
    and whatever its fill character, [printBenchmarkTable] appends the
    same table; it leaves the fill character of the borders, '-', set on
    the stream; and printing once more appends the same table again. *)
Theorem table_appended (b : Benchmark.t) (os : ostream.t)
  (Hwidth : ostream.width os = 0) :
  Benchmark.printBenchmarkTable b os
  = {| ostream.buf := String.append (ostream.buf os) (table (Benchmark.results b));
       ostream.width := 0; ostream.fill := "-"%char |} /\
  ostream.buf
    (Benchmark.printBenchmarkTable b (Benchmark.printBenchmarkTable b os))
  = String.append (ostream.buf os)
      (String.append (table (Benchmark.results b))
         (table (Benchmark.results b))).
Proof.
  pose proof (printBenchmarkTable_emits b os Hwidth) as H1.
  destruct (emits_width _ _ _ _ H1) as [Hw1 _].
  pose proof (printBenchmarkTable_emits b _ Hw1) as H2.
  pose proof (emits_trans _ _ _ _ _ _ _ H1 H2) as H.
  unfold emits in *. split; [exact H1|]. rewrite H. reflexivity.
Qed.

(** ** The further properties on concrete inputs *)

Lemma standard_mutex_excludes_all_witness :
  idle (LockTester.new 2 1 3 4) /\
  forall sched s,
    LockTester.exec Example.cyclic LockTester.StandardMutex Example.env sched
      (LockTester.init (LockTester.new 2 1 3 4)) = Some s ->
    (rcs (LockTester.readers s) + wcs (LockTester.writers s) <= 1)%nat /\
    (rcs (LockTester.readers s) + wcs (LockTester.writers s))%nat
    = Nat.b2n (LockTester.standardMutex (LockTester.this s)).
Proof.
  split; [apply idle_new|].
  apply (standard_mutex_excludes_all Z Example.cyclic Example.env
           (LockTester.new 2 1 3 4) (idle_new 2 1 3 4)).
Defined.

Lemma shared_mutex_readers_share_witness :
  idle (LockTester.new 2 1 3 4) /\
  ((forall sched s,
      LockTester.exec Example.cyclic LockTester.SharedMutex Example.env sched
        (LockTester.init (LockTester.new 2 1 3 4)) = Some s ->
      (wcs (LockTester.writers s) <= 1)%nat /\
      (wcs (LockTester.writers s) = 1%nat -> rcs (LockTester.readers s) = O) /\
      rcs (LockTester.readers s)
      = shared_mutex.readers (LockTester.sharedMutex (LockTester.this s)) /\
      wcs (LockTester.writers s)
      = Nat.b2n (shared_mutex.writer
                   (LockTester.sharedMutex (LockTester.this s)))) /\
   (exists s,
      LockTester.exec Example.cyclic LockTester.SharedMutex Example.env
        two_readers (LockTester.init (LockTester.new 2 0 1 0)) = Some s /\
      rcs (LockTester.readers s) = 2%nat /\
      LockTester.sharedMutex (LockTester.this s)
      = {| shared_mutex.writer := false; shared_mutex.readers := 2 |})).
Proof.
  split; [apply idle_new|].
  apply (shared_mutex_readers_share Z Example.cyclic Example.env
           (LockTester.new 2 1 3 4) (idle_new 2 1 3 4)).
Defined.

Lemma threads_joined_witness :
  idle (LockTester.new 2 1 3 4) /\
  forall sched s,
    LockTester.exec Example.cyclic LockTester.SharedMutex Example.env sched
      (LockTester.init (LockTester.new 2 1 3 4)) = Some s ->
    LockTester.finished s = true ->
    length (LockTester.readers s)
    = Z.to_nat (LockTester.numReaders (LockTester.new 2 1 3 4)) /\
    length (LockTester.writers s)
    = Z.to_nat (LockTester.numWriters (LockTester.new 2 1 3 4)) /\
    Forall (fun r => r = LockTester.RDone) (LockTester.readers s) /\
    Forall (fun w => LockTester.wpc w = LockTester.WDone) (LockTester.writers s) /\
    idle (LockTester.this s).
Proof.
  split; [apply idle_new|].
  apply (threads_joined Z Example.cyclic Example.env LockTester.SharedMutex
           (LockTester.new 2 1 3 4) (idle_new 2 1 3 4)).
Defined.

Lemma record_untouched_witness :
  idle (LockTester.new 5 0 100 0) /\
  (LockTester.numWriters (LockTester.new 5 0 100 0) <= 0 \/
   LockTester.numUpdates (LockTester.new 5 0 100 0) <= 0) /\
  ((forall sched s,
      LockTester.exec Example.cyclic LockTester.SharedMutex Example.env sched
        (LockTester.init (LockTester.new 5 0 100 0)) = Some s ->
      LockTester.sharedData (LockTester.this s)
      = LockTester.sharedData (LockTester.new 5 0 100 0)) /\
   (forall sched o',
      LockTester.test Example.cyclic LockTester.SharedMutex Example.env sched
        (LockTester.new 5 0 100 0) = Some o' ->
      LockTester.sharedData o'
      = LockTester.sharedData (LockTester.new 5 0 100 0))).
Proof.
  split; [apply idle_new|]. split; [left; simpl; lia|].
  apply (record_untouched Z Example.cyclic LockTester.SharedMutex Example.env
           (LockTester.new 5 0 100 0) (idle_new 5 0 100 0)).
  left. simpl. lia.
Defined.

Lemma reader_iterations_witness :
  idle (LockTester.new 2 1 3 4) /\
  forall sched s,
    LockTester.exec Example.cyclic LockTester.StandardMutex Example.env sched
      (LockTester.init (LockTester.new 2 1 3 4)) = Some s ->
    LockTester.finished s = true ->
    forall k n,
      (k < Z.to_nat (LockTester.numReaders (LockTester.new 2 1 3 4)))%nat ->
      (1 <= n <= 3)%nat ->
      rsteps_at Example.cyclic LockTester.StandardMutex Example.env n k sched
        (LockTester.init (LockTester.new 2 1 3 4))
      = Z.to_nat (LockTester.numReads (LockTester.new 2 1 3 4)).
Proof.
  split; [apply idle_new|].
  apply (reader_iterations Z Example.cyclic LockTester.StandardMutex Example.env
           (LockTester.new 2 1 3 4) (idle_new 2 1 3 4)).
Defined.

Lemma documented_headers_fit :
  Forall (fun col => fits (Benchmark.column_width Example.documented col) col)
    (Benchmark.columns Example.documented).
Proof. repeat constructor; vm_compute; discriminate. Qed.

Lemma documented_rows_fit :
  Forall (row_fits Example.documented) Example.documented.
Proof. repeat constructor; vm_compute; discriminate. Qed.

Lemma table_aligned_witness :
  Forall (fun col =>
            fits (Benchmark.column_width (Benchmark.results Example.reported) col)
              col)
    (Benchmark.columns (Benchmark.results Example.reported)) /\
  Forall (row_fits (Benchmark.results Example.reported))
    (Benchmark.results Example.reported) /\
  ostream.buf (Benchmark.printBenchmarkTable Example.reported ostream.cout)
  = sconcat (table_lines (Benchmark.results Example.reported)) /\
  length (table_lines (Benchmark.results Example.reported)) = 7%nat /\
  Forall (fun line => String.length line = 82%nat)
    (table_lines (Benchmark.results Example.reported)).
Proof.
  split; [exact documented_headers_fit|].
  split; [exact documented_rows_fit|].
  exact (table_aligned Example.reported documented_headers_fit
           documented_rows_fit).
Defined.

Lemma final_text_witness :
  idle (LockTester.new 0 2 0 3) /\
  1 <= LockTester.numWriters (LockTester.new 0 2 0 3) /\
  1 <= LockTester.numUpdates (LockTester.new 0 2 0 3) /\
  (forall sched s,
     LockTester.exec Example.cyclic LockTester.StandardMutex Example.env sched
       (LockTester.init (LockTester.new 0 2 0 3)) = Some s ->
     text (LockTester.sharedData (LockTester.this s))
     = text (LockTester.sharedData (LockTester.new 0 2 0 3)) \/
     exists k i, (k < length (LockTester.writers s))%nat /\
       0 <= i < LockTester.numUpdates (LockTester.new 0 2 0 3) /\
       payload Z Example.cyclic Example.env k (Z.to_nat i)
       = Some (text (LockTester.sharedData (LockTester.this s)))) /\
  (forall sched o',
     LockTester.test Example.cyclic LockTester.StandardMutex Example.env sched
       (LockTester.new 0 2 0 3) = Some o' ->
     exists k, (k < Z.to_nat (LockTester.numWriters (LockTester.new 0 2 0 3)))%nat /\
       payload Z Example.cyclic Example.env k
         (Z.to_nat (LockTester.numUpdates (LockTester.new 0 2 0 3) - 1))
       = Some (text (LockTester.sharedData o')) /\
       String.length (text (LockTester.sharedData o')) = N.to_nat 100000).
Proof.
  split; [apply idle_new|]. split; [simpl; lia|]. split; [simpl; lia|].
  apply (final_text Z Example.cyclic LockTester.StandardMutex Example.env
           (LockTester.new 0 2 0 3) (idle_new 0 2 0 3));
    simpl; lia.
Defined.

Lemma time_spans_run_witness :
  idle (LockTester.new 2 1 3 4) /\
  forall sched o',
    LockTester.test Example.cyclic LockTester.SharedMutex Example.env sched
      (LockTester.new 2 1 3 4) = Some o' ->
    exists middle,
      sched = LockTester.Main :: middle ++ [LockTester.Main] /\
      LockTester.times o'
      = map_assign "Shared Mutex Time"
          (Z.quot (LockTester.now Example.env (S (length middle))
                   - LockTester.now Example.env O) 1000000)
          (LockTester.times (LockTester.new 2 1 3 4)).
Proof.
  split; [apply idle_new|].
  apply (time_spans_run Z Example.cyclic LockTester.SharedMutex Example.env
           (LockTester.new 2 1 3 4) (idle_new 2 1 3 4)).
Defined.

Lemma table_appended_witness :
  ostream.width Example.titled = 0 /\
  Benchmark.printBenchmarkTable Example.reported Example.titled
  = {| ostream.buf := String.append "Results:" (table Example.documented);
       ostream.width := 0; ostream.fill := "-"%char |} /\
  ostream.buf
    (Benchmark.printBenchmarkTable Example.reported
       (Benchmark.printBenchmarkTable Example.reported Example.titled))
  = String.append "Results:"
      (String.append (table Example.documented) (table Example.documented)).
Proof.
  split; [reflexivity|].
  exact (table_appended Example.reported Example.titled eq_refl).
Defined.

Lemma generate_add_witness :
  (2 + 3 <= basic_string.max_size)%N /\
  (Example.allocator 2 = true /\ Example.allocator 3 = true /\
   Example.allocator (2 + 3) = true) /\
  exists s1 g1 s2 g2,
    RandomStringGenerator.generate Z Example.cyclic Example.allocator 2 60
    = Some (s1, g1) /\
    RandomStringGenerator.generate Z Example.cyclic Example.allocator 3 g1
    = Some (s2, g2) /\
    RandomStringGenerator.generate Z Example.cyclic Example.allocator (2 + 3) 60
    = Some (String.append s1 s2, g2).
Proof.
  split; [vm_compute; discriminate|]. split; [repeat split|].
  apply (generate_add Z Example.cyclic Example.allocator 2 3 60);
    [vm_compute; discriminate|repeat split].
Defined.
